(** * Reviewllama: the review reconciler of the content script and the
      badge handler of the background worker

    A shallow embedding of the content script (the revision with batch
    analysis and knowledge-base matching) and of [handleBadgeUpdate] from
    the background service worker.

    JavaScript strings are sequences of UTF-16 code units, numbers that the
    script only ever uses as integers are in [Z], the DOM is a forest of
    element and text nodes addressed by child-index paths, the [Map] of
    reviews is a finite map, and a thrown exception is an explicit
    [Throw] completion. *)

From Stdlib Require Import ZArith Lia Ascii String DecimalString.
From Stdlib Require DecimalZ DecimalPos.
From stdpp Require Import base decidable option list sorting gmap strings.

Local Open Scope Z_scope.

(** ** Completions: normal results and thrown exceptions *)

Inductive JsError : Type :=
  | URIError
  | TypeError
  | InvalidCharacterError
  | NotFoundError
  | Rejected.

Inductive Completion (A : Type) : Type :=
  | Normal (a : A)
  | Throw (e : JsError).
Arguments Normal {A} a.
Arguments Throw {A} e.

Definition completion_bind {A B} (f : A → Completion B) (c : Completion A)
  : Completion B :=
  match c with
  | Normal a => f a
  | Throw e => Throw e
  end.

#[global] Instance completion_ret : MRet Completion := @Normal.
#[global] Instance completion_mbind : MBind Completion := @completion_bind.

(** ** Strings *)

Abbreviation jsstring := (list Z).

(** A literal of ASCII characters as code units. *)
Definition str (s : string) : jsstring :=
  (λ a, Z.of_nat (nat_of_ascii a)) <$> list_ascii_of_string s.

(** The en dash, U+2013. *)
Definition enDash : Z := 8211.

Module Js.

(** [String.prototype.includes] *)
Fixpoint startsWith (s p : jsstring) : bool :=
  match p, s with
  | [], _ => true
  | _ :: _, [] => false
  | b :: p', a :: s' => (a =? b) && startsWith s' p'
  end.

Fixpoint includes (s p : jsstring) : bool :=
  startsWith s p ||
  match s with
  | [] => false
  | _ :: s' => includes s' p
  end.

(** WhiteSpace and LineTerminator code units, as [trim] strips them. *)
Definition isLineTerminator (c : Z) : bool :=
  (c =? 10) || (c =? 13) || (c =? 8232) || (c =? 8233).

Definition isWhiteSpace (c : Z) : bool :=
  (c =? 9) || (c =? 11) || (c =? 12) || (c =? 32) || (c =? 160)
  || (c =? 5760) || ((8192 <=? c) && (c <=? 8202))
  || (c =? 8239) || (c =? 8287) || (c =? 12288) || (c =? 65279).

Definition isTrimmed (c : Z) : bool := isWhiteSpace c || isLineTerminator c.

Fixpoint trimStart (s : jsstring) : jsstring :=
  match s with
  | [] => []
  | c :: s' => if isTrimmed c then trimStart s' else s
  end.

Definition trim (s : jsstring) : jsstring :=
  reverse (trimStart (reverse (trimStart s))).

Definition substring0 (n : nat) (s : jsstring) : jsstring := take n s.

(** [String(n)] and template interpolation of an integer [n]: its decimal
    digits (the form JavaScript prints for every integer of absolute value
    below 10^21). *)
Definition toString (n : Z) : jsstring :=
  str (NilZero.string_of_int (Z.to_int n)).

(** *** [encodeURIComponent] *)

Definition isAlnum (c : Z) : bool :=
  ((48 <=? c) && (c <=? 57)) || ((65 <=? c) && (c <=? 90))
  || ((97 <=? c) && (c <=? 122)).

(** The marks [-_.!~*'()] are left alone besides letters and digits. *)
Definition uriUnescaped (c : Z) : bool :=
  isAlnum c || bool_decide (c ∈ [45; 95; 46; 33; 126; 42; 39; 40; 41]).

Definition isHighSurrogate (c : Z) : bool := (55296 <=? c) && (c <=? 56319).
Definition isLowSurrogate (c : Z) : bool := (56320 <=? c) && (c <=? 57343).

Definition hexDigit (n : Z) : Z := if n <? 10 then 48 + n else 55 + n.

Definition percent (b : Z) : jsstring :=
  [37; hexDigit (Z.shiftr b 4); hexDigit (Z.land b 15)].

Definition utf8 (v : Z) : list Z :=
  if v <? 128 then [v]
  else if v <? 2048 then
    [Z.lor 192 (Z.shiftr v 6); Z.lor 128 (Z.land v 63)]
  else if v <? 65536 then
    [Z.lor 224 (Z.shiftr v 12); Z.lor 128 (Z.land (Z.shiftr v 6) 63);
     Z.lor 128 (Z.land v 63)]
  else
    [Z.lor 240 (Z.shiftr v 18); Z.lor 128 (Z.land (Z.shiftr v 12) 63);
     Z.lor 128 (Z.land (Z.shiftr v 6) 63); Z.lor 128 (Z.land v 63)].

Definition escapeCodePoint (v : Z) : jsstring := utf8 v ≫= percent.

Fixpoint encodeURIComponent (s : jsstring) : Completion jsstring :=
  match s with
  | [] => Normal []
  | c :: rest =>
      if uriUnescaped c then
        r ← encodeURIComponent rest; Normal (c :: r)
      else if isLowSurrogate c then Throw URIError
      else if negb (isHighSurrogate c) then
        r ← encodeURIComponent rest; Normal (escapeCodePoint c ++ r)
      else
        match rest with
        | [] => Throw URIError
        | d :: rest' =>
            if isLowSurrogate d then
              r ← encodeURIComponent rest';
              Normal (escapeCodePoint
                        ((c - 55296) * 1024 + (d - 56320) + 65536) ++ r)
            else Throw URIError
        end
  end.

(** *** [btoa] *)

Definition b64char (n : Z) : Z :=
  if n <? 26 then 65 + n
  else if n <? 52 then 71 + n
  else if n <? 62 then n - 4
  else if n =? 62 then 43 else 47.

Fixpoint b64encode (bs : list Z) : jsstring :=
  match bs with
  | [] => []
  | [a] =>
      [b64char (Z.shiftr a 2); b64char (Z.shiftl (Z.land a 3) 4); 61; 61]
  | [a; b] =>
      [b64char (Z.shiftr a 2);
       b64char (Z.lor (Z.shiftl (Z.land a 3) 4) (Z.shiftr b 4));
       b64char (Z.shiftl (Z.land b 15) 2); 61]
  | a :: b :: c :: rest =>
      b64char (Z.shiftr a 2)
      :: b64char (Z.lor (Z.shiftl (Z.land a 3) 4) (Z.shiftr b 4))
      :: b64char (Z.lor (Z.shiftl (Z.land b 15) 2) (Z.shiftr c 6))
      :: b64char (Z.land c 63)
      :: b64encode rest
  end.

Definition btoa (s : jsstring) : Completion jsstring :=
  if forallb (λ c, (0 <=? c) && (c <=? 255)) s
  then Normal (b64encode s)
  else Throw InvalidCharacterError.

End Js.

(** ** The DOM: a forest of nodes *)

Inductive Namespace : Type := HTML | SVG.

Record ElemInfo : Type := mkElem {
  ns : Namespace;
  localName : jsstring;
  attrs : list (jsstring * jsstring)
}.

#[local] Unset Elimination Schemes.
Inductive Node : Type :=
  | TextNode (data : jsstring)
  | Element (info : ElemInfo) (children : list Node).
#[local] Set Elimination Schemes.

Abbreviation Forest := (list Node).
Abbreviation Path := (list nat).

(** An element as a script holds it: where it sits, the elements above it
    (nearest first), and its subtree. *)
Record DomElement : Type := mkDomElement {
  path : Path;
  ancestors : list ElemInfo;
  info : ElemInfo;
  children : Forest
}.

Module Dom.

Definition getAttribute (name : jsstring) (e : ElemInfo) : option jsstring :=
  snd <$> find (λ kv, bool_decide (fst kv = name)) (attrs e).

Definition hasId (i : jsstring) (e : ElemInfo) : bool :=
  bool_decide (getAttribute (str "id") e = Some i).

(** The class attribute is a list of tokens separated by ASCII
    whitespace. *)
Definition isAsciiSpace (c : Z) : bool :=
  (c =? 9) || (c =? 10) || (c =? 12) || (c =? 13) || (c =? 32).

Fixpoint tokens (cur : jsstring) (s : jsstring) : list jsstring :=
  match s with
  | [] => if cur is [] then [] else [reverse cur]
  | c :: s' =>
      if isAsciiSpace c
      then (if cur is [] then [] else [reverse cur]) ++ tokens [] s'
      else tokens (c :: cur) s'
  end.

Definition classList (e : ElemInfo) : list jsstring :=
  tokens [] (default [] (getAttribute (str "class") e)).

Definition hasClass (c : jsstring) (e : ElemInfo) : bool :=
  bool_decide (c ∈ classList e).

(** [className]: a string on HTML elements, an [SVGAnimatedString]
    object (no string methods) on SVG elements. *)
Definition className (e : ElemInfo) : option jsstring :=
  match ns e with
  | HTML => Some (default [] (getAttribute (str "class") e))
  | SVG => None
  end.

(** *** Selectors

    A compound selector constrains one element; a selector is a subject
    compound under a chain of descendant combinators (nearest ancestor
    first). *)
Record Compound : Type := mkCompound {
  selTag : option jsstring;
  selId : option jsstring;
  selClass : option jsstring;
  selAttrHas : option (jsstring * jsstring)
}.

Record Selector : Type := mkSelector {
  subject : Compound;
  under : list Compound
}.

Definition matchesCompound (c : Compound) (e : ElemInfo) : bool :=
  (if selTag c is Some t then bool_decide (localName e = t) else true)
  && (if selId c is Some i then hasId i e else true)
  && (if selClass c is Some k then hasClass k e else true)
  && (if selAttrHas c is Some (a, v) then
        match getAttribute a e with
        | Some w => negb (bool_decide (v = [])) && Js.includes w v
        | None => false
        end
      else true).

Fixpoint matchesChain (chain : list Compound) (ancs : list ElemInfo) : bool :=
  match chain, ancs with
  | [], _ => true
  | _ :: _, [] => false
  | c :: chain', a :: ancs' =>
      if matchesCompound c a then matchesChain chain' ancs'
      else matchesChain chain ancs'
  end.

Definition matches (s : Selector) (e : DomElement) : bool :=
  matchesCompound (subject s) (info e) && matchesChain (under s) (ancestors e).

Definition byClass (c : string) : Selector :=
  mkSelector (mkCompound None None (Some (str c)) None) [].
Definition byId (i : string) : Selector :=
  mkSelector (mkCompound None (Some (str i)) None None) [].
Definition byTag (t : string) : Compound :=
  mkCompound (Some (str t)) None None None.
Definition tagAttrHas (t a v : string) : Selector :=
  mkSelector (mkCompound (Some (str t)) None None (Some (str a, str v))) [].

(** *** Traversal in document order *)

Definition below (i : nat) (e : DomElement) : DomElement :=
  mkDomElement (i :: path e) (ancestors e) (info e) (children e).

Fixpoint nodeElements (ancs : list ElemInfo) (n : Node) : list DomElement :=
  match n with
  | TextNode _ => []
  | Element inf ch =>
      mkDomElement [] ancs inf ch
      :: (fix go (i : nat) (l : Forest) : list DomElement :=
            match l with
            | [] => []
            | c :: l' =>
                (below i <$> nodeElements (inf :: ancs) c) ++ go (S i) l'
            end) 0%nat ch
  end.

Fixpoint elementsFrom (ancs : list ElemInfo) (i : nat) (f : Forest)
  : list DomElement :=
  match f with
  | [] => []
  | c :: f' => (below i <$> nodeElements ancs c) ++ elementsFrom ancs (S i) f'
  end.

(** All elements of a forest whose roots sit under [ancs]. *)
Definition elements (ancs : list ElemInfo) (f : Forest) : list DomElement :=
  elementsFrom ancs 0 f.

(** The element descendants of [e], with paths relative to [e]. *)
Definition descendants (e : DomElement) : list DomElement :=
  elements (info e :: ancestors e) (children e).

Fixpoint nodeText (n : Node) : jsstring :=
  match n with
  | TextNode d => d
  | Element _ ch =>
      (fix go (l : Forest) : jsstring :=
         match l with
         | [] => []
         | c :: l' => nodeText c ++ go l'
         end) ch
  end.

Definition textContent (e : DomElement) : jsstring :=
  nodeText (Element (info e) (children e)).

(** [element.querySelector], [element.querySelectorAll] *)
Definition querySelectorAll (s : Selector) (e : DomElement) : list DomElement :=
  base.filter (λ d, matches s d = true) (descendants e).

Definition querySelector (s : Selector) (e : DomElement) : option DomElement :=
  head (querySelectorAll s e).

(** [document.querySelectorAll], [document.querySelector],
    [document.getElementById] *)
Definition docQuerySelectorAll (s : Selector) (doc : Forest) : list DomElement :=
  base.filter (λ d, matches s d = true) (elements [] doc).

Definition docQuerySelector (s : Selector) (doc : Forest) : option DomElement :=
  head (docQuerySelectorAll s doc).

Definition getElementById (i : string) (doc : Forest) : option DomElement :=
  head (base.filter (λ d, hasId (str i) (info d) = true) (elements [] doc)).

(** *** Edits, addressed by path *)

Definition onChildren (g : Forest → Forest) (n : Node) : Node :=
  match n with
  | Element inf ch => Element inf (g ch)
  | TextNode d => TextNode d
  end.

(** Apply [g] to the children of the element at [p] ([p = []]: to the
    forest itself). *)
Fixpoint atForest (p : Path) (g : Forest → Forest) (f : Forest) : Forest :=
  match p with
  | [] => g f
  | i :: p' => alter (onChildren (atForest p' g)) i f
  end.

(** [node.remove()] for the node at [p]. *)
Fixpoint removeNode (p : Path) (f : Forest) : Forest :=
  match p with
  | [] => f
  | [i] => delete i f
  | i :: p' => alter (onChildren (removeNode p')) i f
  end.

Definition insertAt (k : nat) (n : Node) (ch : Forest) : Forest :=
  take k ch ++ n :: drop k ch.

(** [parent.appendChild(n)] for the parent at [p]. *)
Definition appendChild (p : Path) (n : Node) (f : Forest) : Forest :=
  atForest p (λ ch, ch ++ [n]) f.

(** [parent.insertBefore(n, ref)] for the parent at [p], where [ref] was
    found at the path [r] relative to the parent: the call throws
    unless [ref] is a child of the parent. *)
Definition insertBefore (p : Path) (n : Node) (r : Path) (f : Forest)
  : Completion Forest :=
  match r with
  | [k] => Normal (atForest p (insertAt k n) f)
  | _ => Throw NotFoundError
  end.

End Dom.

(** ** The content script *)

Module CONFIG.
Definition DEBUG : bool := true.

Module SELECTORS.
Definition reviewContainer : Dom.Selector := Dom.byClass "review-container".
(** [.review-top h3 span] *)
Definition reviewTitle : Dom.Selector :=
  Dom.mkSelector (Dom.byTag "span")
    [Dom.byTag "h3"; Dom.mkCompound None None (Some (str "review-top")) None].
Definition reviewRating : Dom.Selector := Dom.byClass "stars".
Definition devResponse : Dom.Selector := Dom.byClass "inner-container".
Definition infiniteScroll : Dom.Selector := Dom.byId "infinite-scroll".
Definition reviewsHeader : Dom.Selector := Dom.byId "reviews-header".
End SELECTORS.
End CONFIG.

Record Analysis : Type := mkAnalysis {
  sentiment : jsstring;
  category : jsstring;
  language : jsstring;
  topics : list jsstring
}.

Record Review : Type := mkReview {
  id : jsstring;
  title : jsstring;
  rating : Z;
  content : jsstring;
  nickname : jsstring;
  hasResponse : bool;
  element : DomElement;
  analysis : option Analysis;
  generatedResponse : option jsstring
}.

(** What [debug] writes to the console: the fixed text of the message,
    and the error when one is passed. *)
Inductive LogEntry : Type :=
  | Info (msg : string)
  | Caught (msg : string) (e : JsError).

Definition debug (entry : LogEntry) : list LogEntry :=
  if CONFIG.DEBUG then [entry] else [].

(** [a || b] on values that are a string or [undefined]: the empty
    string and [undefined] are falsy. *)
Definition orElse (a b : option jsstring) : option jsstring :=
  match a with
  | Some (_ :: _) => a
  | _ => b
  end.

(** [/count-(\d)/]: the digit of the leftmost match. *)
Definition isDigit (c : Z) : bool := (48 <=? c) && (c <=? 57).

Definition countAt (s : jsstring) : option Z :=
  if Js.startsWith s (str "count-") then
    match drop 6 s with
    | d :: _ => if isDigit d then Some d else None
    | [] => None
    end
  else None.

Fixpoint matchCount (s : jsstring) : option Z :=
  match countAt s with
  | Some d => Some d
  | None =>
      match s with
      | [] => None
      | _ :: s' => matchCount s'
      end
  end.

(** [parseInt] of a one-digit capture. *)
Definition parseDigit (d : Z) : Z := d - 48.

(** [/by (.+?) –/]: the capture of the leftmost match; the lazy group
    takes the fewest code units, none of them a line terminator, that are
    followed by a space and an en dash. *)
Fixpoint lazyGroup (s : jsstring) : option jsstring :=
  match s with
  | [] => None
  | c :: s' =>
      if Js.isLineTerminator c then None
      else if Js.startsWith s' [32; enDash] then Some [c]
      else cons c <$> lazyGroup s'
  end.

Definition byAt (s : jsstring) : option jsstring :=
  if Js.startsWith s (str "by ") then lazyGroup (drop 3 s) else None.

Fixpoint matchBy (s : jsstring) : option jsstring :=
  match byAt s with
  | Some g => Some g
  | None =>
      match s with
      | [] => None
      | _ :: s' => matchBy s'
      end
  end.

(** The id expression of [extractReviewData]:
    [btoa(encodeURIComponent(title + nickname + reviewContent)).substring(0, 16)] *)
Definition reviewId (title nickname reviewContent : jsstring)
  : Completion jsstring :=
  e ← Js.encodeURIComponent (title ++ nickname ++ reviewContent);
  b ← Js.btoa e;
  Normal (Js.substring0 16 b).

Definition trimmedText (s : Dom.Selector) (element : DomElement)
  : option jsstring :=
  (λ e, Js.trim (Dom.textContent e)) <$> Dom.querySelector s element.

(** The [try] block of [extractReviewData], with what it logs. *)
Definition extractTry (element : DomElement)
  : Completion Review * list LogEntry :=
  let title :=
    default []
      (orElse (trimmedText CONFIG.SELECTORS.reviewTitle element)
         (orElse (trimmedText (Dom.tagAttrHas "div" "ng-bind" ".value.title") element)
            (trimmedText (Dom.tagAttrHas "span" "ng-bind" ".value.title") element))) in
  let ratingElement := Dom.querySelector CONFIG.SELECTORS.reviewRating element in
  let ratingMatch : Completion (option Z) :=
    match ratingElement with
    | None => Normal None
    | Some r =>
        match Dom.className (info r) with
        | Some cls => Normal (matchCount cls)
        | None => Throw TypeError
        end
    end in
  match ratingMatch with
  | Throw e => (Throw e, [])
  | Normal ratingMatch =>
      let rating := if ratingMatch is Some d then parseDigit d else 0 in
      let reviewContent :=
        default []
          (orElse (trimmedText (Dom.tagAttrHas "div" "ng-bind" ".value.review") element)
             (trimmedText (Dom.byClass "review-body") element)) in
      let hasResponse :=
        bool_decide (is_Some (Dom.querySelector CONFIG.SELECTORS.devResponse element)) in
      let nicknameText :=
        default []
          (Dom.textContent <$>
             Dom.querySelector
               (Dom.mkSelector (Dom.byTag "span")
                  [Dom.mkCompound None None (Some (str "review-meta")) None])
               element) in
      let nicknameMatch := matchBy nicknameText in
      let nickname := default [] nicknameMatch in
      let log := debug (Info "Extracted review:") in
      (id ← reviewId title nickname reviewContent;
       Normal (mkReview id title rating reviewContent nickname hasResponse
                 element None None),
       log)
  end.

Definition extractReviewData (element : DomElement)
  : option Review * list LogEntry :=
  match extractTry element with
  | (Normal r, log) => (Some r, log)
  | (Throw error, log) =>
      (None, log ++ debug (Caught "Error extracting review data:" error))
  end.

(** *** State and world *)

Record State : Type := mkState {
  reviews : gmap jsstring Review;
  totalReviews : Z;
  unansweredReviews : Z;
  isProcessing : bool
}.

Inductive Message : Type :=
  | UPDATE_BADGE (total unanswered : Z)
  | BATCH_ANALYZE_REVIEWS (data : list Review).

Record AnalysisItem : Type := mkAnalysisItem {
  a_id : jsstring;
  a_sentiment : jsstring;
  a_category : jsstring;
  a_language : jsstring;
  a_topics : option (list jsstring)
}.

(** [analysisData]: [None] stands for a value without a [reviews] array. *)
Abbreviation AnalysisData := (option (list AnalysisItem)).

Record CacheEntry : Type := mkCacheEntry {
  timestamp : Z;
  data : AnalysisData
}.

(** A node as a mutation record lists it. *)
Record LiveNode : Type := mkLiveNode {
  nodePath : Path;
  nodeAncestors : list ElemInfo;
  node : Node
}.

Record MutationRecord : Type := mkMutation {
  addedNodes : list LiveNode
}.

(** A pending [setTimeout] of the observer, with the mutations its
    closure holds. *)
Record Timer : Type := mkTimer {
  due : Z;
  mutations : list MutationRecord
}.

Inductive Effect : Type :=
  | Log (entry : LogEntry)
  | SendMessage (m : Message)
  | StorageGet (key : jsstring)
  | StorageSet (key : jsstring) (entry : CacheEntry)
  | CallAnalyzeAllReviews
  | CallInjectReviewLabels.

Record World : Type := mkWorld {
  state : State;
  document : Forest;
  storage : gmap jsstring CacheEntry;
  timers : list Timer;
  trace : list Effect
}.

Definition withState (g : State → State) (w : World) : World :=
  mkWorld (g (state w)) (document w) (storage w) (timers w) (trace w).
Definition withDocument (d : Forest) (w : World) : World :=
  mkWorld (state w) d (storage w) (timers w) (trace w).
Definition withStorage (s : gmap jsstring CacheEntry) (w : World) : World :=
  mkWorld (state w) (document w) s (timers w) (trace w).
Definition withTimers (t : list Timer) (w : World) : World :=
  mkWorld (state w) (document w) (storage w) t (trace w).
Definition emit (es : list Effect) (w : World) : World :=
  mkWorld (state w) (document w) (storage w) (timers w) (trace w ++ es).
Definition logw (entry : LogEntry) (w : World) : World :=
  emit (Log <$> debug entry) w.

(** *** [injectReviewCounter] *)

Definition nl (n : nat) : jsstring := 10 :: replicate n 32.

Definition htmlElem (tag : string) (cls : string) (ch : Forest) : Node :=
  Element (mkElem HTML (str tag) [(str "class", str cls)]) ch.

Definition statSpan (cls label : string) (value : Z) : Node :=
  htmlElem "span" cls
    [TextNode (nl 10);
     htmlElem "span" "reviewllama-label" [TextNode (str label)];
     TextNode (nl 10);
     htmlElem "span" "reviewllama-value" [TextNode (Js.toString value)];
     TextNode (nl 8)].

(** The element that [createElement], the two assignments and
    [innerHTML] build. *)
Definition counterDiv (st : State) : Node :=
  Element
    (mkElem HTML (str "div")
       [(str "id", str "reviewllama-counter");
        (str "class", str "reviewllama-counter")])
    [TextNode (nl 6);
     htmlElem "div" "reviewllama-stats"
       [TextNode (nl 8);
        statSpan "reviewllama-stat" "Total:" (totalReviews st);
        TextNode (nl 8);
        statSpan "reviewllama-stat reviewllama-unanswered" "Unanswered:"
          (unansweredReviews st);
        TextNode (nl 6)];
     TextNode (nl 4)].

Definition injectReviewCounter (w : World) : Completion () * World :=
  let existingCounter := Dom.getElementById "reviewllama-counter" (document w) in
  let w :=
    match existingCounter with
    | Some c => withDocument (Dom.removeNode (path c) (document w)) w
    | None => w
    end in
  match Dom.docQuerySelector CONFIG.SELECTORS.reviewsHeader (document w) with
  | None => (Normal (), logw (Info "Reviews header not found") w)
  | Some reviewsHeader =>
      let div := counterDiv (state w) in
      match Dom.querySelector (Dom.byClass "hasPopOver") reviewsHeader with
      | Some firstMenu =>
          match Dom.insertBefore (path reviewsHeader) div (path firstMenu)
                  (document w) with
          | Normal d => (Normal (), withDocument d w)
          | Throw e => (Throw e, w)
          end
      | None =>
          (Normal (),
           withDocument (Dom.appendChild (path reviewsHeader) div (document w)) w)
      end
  end.

(** *** [updateUI] and [scanReviews] *)

Definition updateUI (w : World) : Completion () * World :=
  let w :=
    emit [SendMessage
            (UPDATE_BADGE (totalReviews (state w)) (unansweredReviews (state w)))]
      w in
  injectReviewCounter w.

(** The body of the [forEach] in [scanReviews]. *)
Definition scanElement (w : World) (element : DomElement) : World :=
  let '(reviewData, log) := extractReviewData element in
  let w := emit (Log <$> log) w in
  match reviewData with
  | Some r =>
      withState
        (λ s,
           mkState (<[id r := r]> (reviews s)) (totalReviews s + 1)
             (if hasResponse r then unansweredReviews s
              else unansweredReviews s + 1)
             (isProcessing s))
        w
  | None => w
  end.

Definition scanReviews (w : World) : Completion () * World :=
  let w := logw (Info "Starting scanReviews()...") w in
  let reviewElements :=
    Dom.docQuerySelectorAll CONFIG.SELECTORS.reviewContainer (document w) in
  let w := logw (Info "Found elements matching") w in
  let w := withState (λ s, mkState ∅ 0 0 (isProcessing s)) w in
  let w := foldl scanElement w reviewElements in
  let w := logw (Info "Found reviews (unanswered)") w in
  match updateUI w with
  | (Throw e, w) => (Throw e, w)
  | (Normal _, w) =>
      if 0 <? totalReviews (state w)
      then (Normal (), emit [CallAnalyzeAllReviews] w)
      else (Normal (), w)
  end.

(** *** [applyAnalysisResults] and [analyzeAllReviews] *)

Definition attachAnalysis (s : State) (a : AnalysisItem) : State :=
  match reviews s !! a_id a with
  | Some review =>
      let review :=
        mkReview (id review) (title review) (rating review) (content review)
          (nickname review) (hasResponse review) (element review)
          (Some (mkAnalysis (a_sentiment a) (a_category a) (a_language a)
                   (default [] (a_topics a))))
          (generatedResponse review) in
      mkState (<[a_id a := review]> (reviews s)) (totalReviews s)
        (unansweredReviews s) (isProcessing s)
  | None => s
  end.

(** The labels that [injectReviewLabels] draws are not modelled; the call
    is recorded. *)
Definition applyAnalysisResults (analysisData : AnalysisData) (w : World)
  : World :=
  match analysisData with
  | None => logw (Info "Invalid analysis data") w
  | Some items =>
      let w := logw (Info "Applying analysis results:") w in
      let w := withState (λ s, foldl attachAnalysis s items) w in
      let w := logw (Info "Analysis applied:") w in
      emit [CallInjectReviewLabels] w
  end.

Record Response : Type := mkResponse {
  success : bool;
  r_data : AnalysisData
}.

Definition cacheKey (pathname : jsstring) : jsstring :=
  str "analysis_cache_" ++ pathname.

(** [Date.now() - entry.timestamp < 24 * 60 * 60 * 1000] *)
Definition fresh (now : Z) (entry : CacheEntry) : bool :=
  now - timestamp entry <? 24 * 60 * 60 * 1000.

(** [analyzeAllReviews], run to completion given what its awaits return:
    [now] is the clock at the freshness test, [response] the outcome of
    the [BATCH_ANALYZE_REVIEWS] message, [now'] the clock when the result
    is cached. The order of [values()] is not modelled. *)
Definition analyzeAllReviews (pathname : jsstring) (now : Z)
    (response : Completion Response) (now' : Z) (w : World) : World :=
  let w := logw (Info "Starting batch analysis...") w in
  let key := cacheKey pathname in
  let w := emit [StorageGet key] w in
  let cached := storage w !! key in
  if (if cached is Some entry then fresh now entry else false) then
    let w := logw (Info "Using cached analysis") w in
    applyAnalysisResults (cached ≫= data) w
  else
    let reviews := snd <$> map_to_list (reviews (state w)) in
    let w := emit [SendMessage (BATCH_ANALYZE_REVIEWS reviews)] w in
    match response with
    | Normal response =>
        if success response then
          let w := logw (Info "Batch analysis successful") w in
          let entry := mkCacheEntry now' (r_data response) in
          let w := withStorage (<[key := entry]> (storage w)) w in
          let w := emit [StorageSet key entry] w in
          applyAnalysisResults (r_data response) w
        else logw (Info "Batch analysis failed:") w
    | Throw error => logw (Caught "Error in batch analysis:" error) w
    end.

(** *** [matchKnowledgeBase] *)

(** An entry of [kb.troubles]; [t_rest] stands for the fields that the
    matcher does not read. *)
Record Trouble : Type := mkTrouble {
  t_id : jsstring;
  keywords : list jsstring;
  t_rest : jsstring
}.

Record KBMatch : Type := mkKBMatch {
  m_id : jsstring;
  score : Z;
  item : Trouble
}.

(** [Array.prototype.sort] with a comparator: a stable sort. *)
Section Sort.
Context {A : Type} (compare : A → A → Z).

Fixpoint sortInsert (x : A) (l : list A) : list A :=
  match l with
  | [] => [x]
  | y :: l' => if compare x y <=? 0 then x :: l else y :: sortInsert x l'
  end.

Definition arraySort (l : list A) : list A := foldr sortInsert [] l.
End Sort.

Section KnowledgeBase.
(** [String.prototype.toLowerCase], left open. *)
Variable toLowerCase : jsstring → jsstring.

Definition scoreItem (reviewText : jsstring) (item : Trouble) : Z :=
  foldl
    (λ score keyword,
       if Js.includes reviewText (toLowerCase keyword) then score + 1
       else score)
    0 (keywords item).

Definition scoreTroubles (reviewText : jsstring) (troubles : list Trouble)
  : list KBMatch :=
  foldl
    (λ scores item,
       let score := scoreItem reviewText item in
       if 0 <? score then scores ++ [mkKBMatch (t_id item) score item]
       else scores)
    [] troubles.

(** [kb] is the outcome of fetching and parsing [knowledgebase.json]. *)
Definition matchKnowledgeBase (kb : Completion (list Trouble))
    (review : Review) : list KBMatch * list LogEntry :=
  match kb with
  | Normal troubles =>
      let reviewText := toLowerCase (title review ++ str " " ++ content review) in
      let scores := scoreTroubles reviewText troubles in
      let matches := take 3 (arraySort (λ a b, score b - score a) scores) in
      (matches, [])
  | Throw error => ([], debug (Caught "Error matching KB:" error))
  end.
End KnowledgeBase.

(** [toLowerCase] on strings of ASCII code units. *)
Definition asciiLower (s : jsstring) : jsstring :=
  (λ c, if (65 <=? c) && (c <=? 90) then c + 32 else c) <$> s.

(** *** The mutation observer of [setupObserver] *)

Definition nodeType (n : Node) : Z :=
  match n with
  | Element _ _ => 1
  | TextNode _ => 3
  end.

Definition asElement (n : LiveNode) : option DomElement :=
  match node n with
  | Element inf ch => Some (mkDomElement (nodePath n) (nodeAncestors n) inf ch)
  | TextNode _ => None
  end.

Definition hasNewReviews (mutations : list MutationRecord) : bool :=
  existsb
    (λ mutation,
       existsb
         (λ n,
            (nodeType (node n) =? 1)
            && match asElement n with
               | Some e =>
                   Dom.matches CONFIG.SELECTORS.reviewContainer e
                   || bool_decide
                        (is_Some
                           (Dom.querySelector CONFIG.SELECTORS.reviewContainer e))
               | None => false
               end)
         (addedNodes mutation))
    mutations.

(** The callback that [setupObserver] hands to [new MutationObserver],
    run at time [t] with the batch [mutations]. *)
Definition observerCallback (t : Z) (mutations : list MutationRecord)
    (w : World) : World :=
  if isProcessing (state w) then w
  else
    let w :=
      withState
        (λ s, mkState (reviews s) (totalReviews s) (unansweredReviews s) true)
        w in
    withTimers (timers w ++ [mkTimer (t + 500) mutations]) w.

(** The function handed to [setTimeout]. An exception that escapes
    [scanReviews] ends the task; what was done before it stays. *)
Definition timerCallback (tm : Timer) (w : World) : World :=
  let w :=
    withState
      (λ s, mkState (reviews s) (totalReviews s) (unansweredReviews s) false)
      w in
  if hasNewReviews (mutations tm) then
    let w := logw (Info "New reviews detected") w in
    snd (scanReviews w)
  else w.

(** The event loop up to time [t]: timers that are due run, in the order
    they were set. *)
Definition runTimers (t : Z) (w : World) : World :=
  let dueNow := base.filter (λ tm, due tm ≤ t) (timers w) in
  let later := base.filter (λ tm, ¬ due tm ≤ t) (timers w) in
  foldl (λ w tm, timerCallback tm w) (withTimers later w) dueNow.

(** A batch of mutation records delivered at time [t]. *)
Definition deliver (w : World) (ev : Z * list MutationRecord) : World :=
  observerCallback ev.1 ev.2 (runTimers ev.1 w).

(** The rescans a trace shows. *)
Definition isScanStart (e : Effect) : bool :=
  match e with
  | Log (Info m) => String.eqb m "Starting scanReviews()..."
  | _ => false
  end.

Definition scanCount (w : World) : nat :=
  length (List.filter isScanStart (trace w)).

(** ** The background service worker *)

Module Background.

Record BadgeData : Type := mkBadgeData {
  total : Z;
  unanswered : Z
}.

Record Badge : Type := mkBadge {
  text : jsstring;
  color : jsstring
}.

(** The badge per tab as [chrome.action] keeps it ([None]: no tab id). *)
Abbreviation Badges := (option Z → Badge).

Definition setBadgeText (text : jsstring) (tabId : option Z) (b : Badges)
  : Badges :=
  λ t, if decide (t = tabId) then mkBadge text (color (b t)) else b t.

Definition setBadgeBackgroundColor (color : jsstring) (tabId : option Z)
    (b : Badges) : Badges :=
  λ t, if decide (t = tabId) then mkBadge (text (b t)) color else b t.

Definition handleBadgeUpdate (data : BadgeData) (tabId : option Z)
    (b : Badges) : Badges :=
  let unanswered := unanswered data in
  if 0 <? unanswered then
    setBadgeBackgroundColor (str "#FF3B30") tabId
      (setBadgeText (Js.toString unanswered) tabId b)
  else setBadgeText [] tabId b.

End Background.

(** * Observations and sample data *)

(** What a printed count reads back as. *)
Definition decimalValue (s : string) : option Z :=
  Z.of_int <$> NilZero.int_of_string s.

Definition isAnalysisRequest (e : Effect) : bool :=
  match e with
  | SendMessage (BATCH_ANALYZE_REVIEWS _) => true
  | _ => false
  end.

(** What a run added to the trace of [w]. *)
Definition added (w w' : World) : list Effect :=
  drop (length (trace w)) (trace w').

Definition emptyWorld (doc : Forest) : World :=
  mkWorld (mkState ∅ 0 0 false) doc ∅ [] [].

Definition sampleStored : World :=
  withStorage {[cacheKey (str "/apps/1/reviews") := mkCacheEntry 5000 (Some [])]}
    (emptyWorld []).

Definition sampleRun (now : Z) : World :=
  analyzeAllReviews (str "/apps/1/reviews") now
    (Normal (mkResponse true (Some []))) now sampleStored.

Definition sampleBadges : Background.Badges :=
  λ _, Background.mkBadge [] (str "#007AFF").

(** The class name the rating is read from, when there is a rating
    element and its class name is a string. *)
Definition ratingClass (element : DomElement) : option jsstring :=
  Dom.querySelector CONFIG.SELECTORS.reviewRating element
  ≫= (λ r, Dom.className (info r)).

(** The record of an extraction, without its log. *)
Definition extracted (element : DomElement) : option Review :=
  (extractReviewData element).1.

(** The selectors that [extractReviewData] queries. *)
Definition extractorSelectors : list Dom.Selector :=
  [CONFIG.SELECTORS.reviewTitle;
   Dom.tagAttrHas "div" "ng-bind" ".value.title";
   Dom.tagAttrHas "span" "ng-bind" ".value.title";
   CONFIG.SELECTORS.reviewRating;
   Dom.tagAttrHas "div" "ng-bind" ".value.review";
   Dom.byClass "review-body";
   CONFIG.SELECTORS.devResponse;
   Dom.mkSelector (Dom.byTag "span")
     [Dom.mkCompound None None (Some (str "review-meta")) None]].

(** What one pass of the scan loop does to the state. *)
Definition scanState (s : State) (element : DomElement) : State :=
  match extracted element with
  | Some r =>
      mkState (<[id r := r]> (reviews s)) (totalReviews s + 1)
        (if hasResponse r then unansweredReviews s else unansweredReviews s + 1)
        (isProcessing s)
  | None => s
  end.

Definition containerInfo : ElemInfo :=
  mkElem HTML (str "div") [(str "class", str "review-container")].

(** A container with nothing inside. *)
Definition bareContainer : DomElement := mkDomElement [0%nat] [] containerInfo [].


(** A container whose rating element is an SVG element. *)
Definition svgRatedContainer : DomElement :=
  mkDomElement [0%nat] [] containerInfo
    [Element (mkElem SVG (str "svg") [(str "class", str "stars count-4")]) []].

(** A container whose title ends in an unpaired surrogate. *)
Definition brokenTitleContainer : DomElement :=
  mkDomElement [0%nat] [] containerInfo
    [htmlElem "div" "review-top"
       [Element (mkElem HTML (str "h3") [])
          [Element (mkElem HTML (str "span") []) [TextNode (str "Nice" ++ [55357])]]]].

(** Two containers with the same title, by different authors and with
    different texts. *)
Definition reviewContainer (reviewTitle meta body : jsstring) : DomElement :=
  mkDomElement [0%nat] [] containerInfo
    [htmlElem "div" "review-top"
       [Element (mkElem HTML (str "h3") [])
          [Element (mkElem HTML (str "span") []) [TextNode reviewTitle]]];
     htmlElem "div" "review-meta"
       [Element (mkElem HTML (str "span") []) [TextNode meta]];
     Element (mkElem HTML (str "div") [(str "ng-bind", str "review.value.review")])
       [TextNode body]].

Definition aliceReview : DomElement :=
  reviewContainer (str "Great app overall")
    (str "by alice " ++ [enDash] ++ str " Jan 3, 2024") (str "Love it").

Definition bobReview : DomElement :=
  reviewContainer (str "Great app overall")
    (str "by bob " ++ [enDash] ++ str " Feb 9, 2024") (str "Crashes on launch").

(** The same review as [aliceReview] scraped later: it has been answered,
    has a rating, and sits elsewhere in the document. *)
Definition aliceReviewLater : DomElement :=
  mkDomElement [3%nat; 1%nat]
    [mkElem HTML (str "div") [(str "id", str "reviews-container")]]
    containerInfo
    [htmlElem "div" "inner-container" [TextNode (str "Thanks!")];
     htmlElem "div" "review-meta"
       [Element (mkElem HTML (str "span") [])
          [TextNode (str "by alice " ++ [enDash] ++ str " Jan 3, 2024")]];
     htmlElem "div" "review-top"
       [htmlElem "div" "stars count-5" [];
        Element (mkElem HTML (str "h3") [])
          [Element (mkElem HTML (str "span") [])
             [TextNode (str "  Great app overall ")]]];
     Element (mkElem HTML (str "div") [(str "ng-bind", str "review.value.review")])
       [TextNode (str "Love it")]].

(** The records a scan of [doc] extracts, in document order. *)
Definition scanned (doc : Forest) : list Review :=
  omap extracted (Dom.docQuerySelectorAll CONFIG.SELECTORS.reviewContainer doc).

Definition unansweredEntry (kv : jsstring * Review) : Prop :=
  hasResponse kv.2 = false.

(** The number of snapshot entries without a response. *)
Definition unansweredIn (m : gmap jsstring Review) : nat :=
  size (base.filter unansweredEntry m).

Definition nodeOf (e : DomElement) : Node := Element (info e) (children e).

(** A document that shows the same review twice. *)
Definition twiceAlice : Forest := [nodeOf aliceReview; nodeOf aliceReview].

Definition aliceAndBobShort : Forest :=
  [nodeOf (reviewContainer (str "Good")
             (str "by alice " ++ [enDash] ++ str " Jan 3") (str "Love it"));
   nodeOf aliceReviewLater].

(** The knowledge-base entries and the review of the invoice scenario. *)
Definition invoiceTrouble : Trouble :=
  mkTrouble (str "billing") [str "invoice"; str "payment"]
    (str "Invoices are under Settings, Billing.").

Definition syncTrouble : Trouble :=
  mkTrouble (str "sync") [str "sync"; str "offline"]
    (str "Pull down to refresh.").

Definition invoiceReview : Review :=
  mkReview (str "SSUyMGNhbid0JTIw") (str "I can't find") 2 (str "my invoice")
    (str "carol") false bareContainer None None.

(** The number of keywords of [item] that occur in [reviewText], the
    keywords in lower case. *)
Definition keywordHits (toLowerCase : jsstring → jsstring)
    (reviewText : jsstring) (item : Trouble) : Z :=
  Z.of_nat
    (length
       (base.filter (λ kw, Js.includes reviewText (toLowerCase kw) = true)
          (keywords item))).

(** The entries with at least one hit, scored, in knowledge-base order. *)
Definition kbCandidates (toLowerCase : jsstring → jsstring)
    (review : Review) (troubles : list Trouble) : list KBMatch :=
  let reviewText := toLowerCase (title review ++ str " " ++ content review) in
  (λ item, mkKBMatch (t_id item) (keywordHits toLowerCase reviewText item) item)
  <$> base.filter (λ item, 0 < keywordHits toLowerCase reviewText item) troubles.

(** A batch of mutation records that adds [n] as a child of the body. *)
Definition addition (n : Node) : list MutationRecord :=
  [mkMutation [mkLiveNode [0%nat; 0%nat] [mkElem HTML (str "body") []] n]].

Definition sampleBurst : list (Z * list MutationRecord) :=
  [(1000, addition (nodeOf aliceReview));
   (1120, addition (nodeOf bobReview));
   (1499, addition (nodeOf aliceReviewLater))].

(** *** Counting and addressing the elements of a forest *)

Section Count.
Variable P : ElemInfo → bool.

Fixpoint countNode (n : Node) : nat :=
  match n with
  | TextNode _ => 0
  | Element inf ch =>
      (if P inf then 1 else 0)
      + (fix go (l : Forest) : nat :=
           match l with
           | [] => 0
           | c :: l' => countNode c + go l'
           end) ch
  end%nat.

Fixpoint countForest (f : Forest) : nat :=
  match f with
  | [] => 0
  | c :: f' => countNode c + countForest f'
  end%nat.
End Count.

(** The node at a path below [n] ([[]]: [n] itself), and in a forest. *)
Fixpoint subnode (p : Path) (n : Node) : option Node :=
  match p with
  | [] => Some n
  | i :: p' =>
      match n with
      | Element _ ch => ch !! i ≫= subnode p'
      | TextNode _ => None
      end
  end.

Definition nodeAt (p : Path) (f : Forest) : option Node :=
  match p with
  | [] => None
  | i :: p' => f !! i ≫= subnode p'
  end.

(** The children of the element at [p] ([[]]: the forest itself). *)
Fixpoint childrenAt (p : Path) (f : Forest) : option Forest :=
  match p with
  | [] => Some f
  | i :: p' =>
      match f !! i with
      | Some (Element _ ch) => childrenAt p' ch
      | _ => None
      end
  end.

Definition isCounter (inf : ElemInfo) : bool :=
  Dom.hasId (str "reviewllama-counter") inf.

(** The counter widgets of a document, in document order. *)
Definition counterWidgets (doc : Forest) : list DomElement :=
  base.filter (λ d, isCounter (info d) = true) (Dom.elements [] doc).

Definition counterCount (doc : Forest) : nat := length (counterWidgets doc).

Definition headerNode (ch : Forest) : Node :=
  Element (mkElem HTML (str "div") [(str "id", str "reviews-header")]) ch.

(** A header with a menu among its children, and a widget left by an
    earlier scan that counted 9 reviews, 4 of them unanswered. *)
Definition pageWithHeader : Forest :=
  [headerNode
     [htmlElem "h1" "title" [TextNode (str "Ratings and Reviews")];
      counterDiv (mkState ∅ 9 4 false);
      htmlElem "div" "hasPopOver" []];
   nodeOf aliceReview].

(** A page on which two elements carry the widget's id. *)
Definition pageWithTwoWidgets : Forest :=
  [headerNode [];
   counterDiv (mkState ∅ 9 4 false);
   counterDiv (mkState ∅ 9 4 false)].

(** A header whose menu is not one of its children. *)
Definition pageWithNestedMenu : Forest :=
  [headerNode [htmlElem "div" "toolbar" [htmlElem "div" "hasPopOver" []]]].

Definition worldOf (doc : Forest) (total unanswered : Z) : World :=
  mkWorld (mkState ∅ total unanswered false) doc ∅ [] [].

(** * The rest of the content script *)

(** *** The message listener of the content script *)

Inductive Request : Type :=
  | GET_STATS
  | OtherRequest (type : jsstring).

Record StatsResponse : Type := mkStatsResponse {
  s_success : bool;
  s_total : Z;
  s_unanswered : Z
}.

(** What the listener passes to [sendResponse] ([None]: it does not
    answer). *)
Definition onMessage (request : Request) (w : World) : option StatsResponse :=
  match request with
  | GET_STATS =>
      Some (mkStatsResponse true (totalReviews (state w))
              (unansweredReviews (state w)))
  | OtherRequest _ => None
  end.

(** *** The safety poll of [initialize] *)

(** The function handed to [setInterval]. *)
Definition pollTick (w : World) : World :=
  let currentCount :=
    Z.of_nat
      (length (Dom.docQuerySelectorAll CONFIG.SELECTORS.reviewContainer
                 (document w))) in
  if bool_decide (currentCount ≠ totalReviews (state w)) then
    let w := logw (Info "Review count mismatch, rescanning...") w in
    snd (scanReviews w)
  else w.

(** The payloads of the badge updates in a trace. *)
Definition badgeUpdates (es : list Effect) : list (Z * Z) :=
  omap (λ e, match e with
             | SendMessage (UPDATE_BADGE t u) => Some (t, u)
             | _ => None
             end) es.

Definition isContainer (inf : ElemInfo) : bool :=
  Dom.hasClass (str "review-container") inf.

(** A string that neither begins nor ends with a character that [trim]
    strips. *)
Definition cleanEnds (s : jsstring) : Prop :=
  (∀ c rest, s = c :: rest → Js.isTrimmed c = false)
  ∧ (∀ c init, s = init ++ [c] → Js.isTrimmed c = false).

(** The text of the element that the nickname is read from. *)
Definition nicknameText (element : DomElement) : jsstring :=
  default []
    (Dom.textContent <$>
       Dom.querySelector
         (Dom.mkSelector (Dom.byTag "span")
            [Dom.mkCompound None None (Some (str "review-meta")) None])
         element).

(** A page with its header, an answered and an unanswered review. *)
Definition reviewsPage : Forest :=
  [headerNode [htmlElem "div" "hasPopOver" []];
   nodeOf aliceReviewLater;
   nodeOf bobReview].

(** The same page with a review whose rating is drawn in SVG. *)
Definition reviewsPageWithSvg : Forest :=
  reviewsPage ++ [nodeOf svgRatedContainer].

(** A world whose snapshot holds [aliceReview] with an analysis and a
    generated response attached. *)
Definition annotatedAlice : Review :=
  mkReview (str "R3JlYXQlMjBhcHAl") (str "Great app overall") 0 (str "Love it")
    (str "alice") false aliceReview
    (Some (mkAnalysis (str "positive") (str "praise") (str "en") []))
    (Some (str "Thank you!")).

Definition annotatedWorld : World :=
  mkWorld (mkState {[str "R3JlYXQlMjBhcHAl" := annotatedAlice]} 1 1 false)
    [nodeOf aliceReview] ∅ [] [].


(** The review containers of a document. *)
Definition containers (doc : Forest) : list DomElement :=
  Dom.docQuerySelectorAll CONFIG.SELECTORS.reviewContainer doc.

(** No element that carries the widget's id has a review container in or
    on it. *)
Definition widgetsHoldNoReview (doc : Forest) : Prop :=
  ∀ c, Dom.getElementById "reviewllama-counter" doc = Some c →
       countNode isContainer (nodeOf c) = 0%nat.

(** A code unit, and a code unit that is no surrogate. *)
Definition isCodeUnit (u : Z) : Prop := 0 ≤ u < 65536.
Definition isSurrogate (u : Z) : Prop := 55296 ≤ u ≤ 57343.

(** The characters of base64 text: letters, digits, [+], [/] and the
    padding [=]. *)
Definition isBase64Char (c : Z) : Prop :=
  (65 ≤ c ≤ 90) ∨ (97 ≤ c ≤ 122) ∨ (48 ≤ c ≤ 57) ∨ c = 43 ∨ c = 47 ∨ c = 61.

(** * The background service worker: key, analysis and replies *)

Module Worker.

Inductive Sentiment : Type := Positive | Negative | Neutral.

Inductive Category : Type :=
  | General | Bug | Feature | Praise | Complaint | Question | Suggestion.

Inductive Language : Type := Cs | En.

Definition sentimentName (s : Sentiment) : jsstring :=
  match s with
  | Positive => str "positive"
  | Negative => str "negative"
  | Neutral => str "neutral"
  end.

Definition categoryName (c : Category) : jsstring :=
  match c with
  | General => str "general"
  | Bug => str "bug"
  | Feature => str "feature"
  | Praise => str "praise"
  | Complaint => str "complaint"
  | Question => str "question"
  | Suggestion => str "suggestion"
  end.

Definition languageName (l : Language) : jsstring :=
  match l with
  | Cs => str "cs"
  | En => str "en"
  end.

(** The fields of a review that the handlers read. *)
Record ReviewMsg : Type := mkReviewMsg {
  m_id : jsstring;
  m_title : jsstring;
  m_rating : Z;
  m_content : jsstring;
  m_nickname : jsstring
}.

Record AnalysisResult : Type := mkAnalysisResult {
  r_id : jsstring;
  r_sentiment : Sentiment;
  r_category : Category;
  r_language : Language
}.

(** [extensionState]; the object [reviews] is used as a map from ids. *)
Record ExtensionState : Type := mkExtensionState {
  apiKey : option jsstring;
  reviews : gmap jsstring AnalysisResult;
  isProcessing : bool
}.

(** [!!extensionState.apiKey]: [null] and the empty string are falsy. *)
Definition hasKey (s : ExtensionState) : bool :=
  match apiKey s with
  | Some (_ :: _) => true
  | _ => false
  end.

Inductive Console : Type :=
  | ConsoleLog (msg : string)
  | ConsoleError (msg : string).

(** The worker with what it shares: the value of [chrome.storage.local]
    under [apiKey], the keys whose [storage.local.set] has not settled
    yet, the badges and the console. *)
Record WorkerWorld : Type := mkWorkerWorld {
  extensionState : ExtensionState;
  local : option jsstring;
  pending : list jsstring;
  badges : Background.Badges;
  console : list Console
}.

Definition withExtensionState (g : ExtensionState → ExtensionState)
    (w : WorkerWorld) : WorkerWorld :=
  mkWorkerWorld (g (extensionState w)) (local w) (pending w) (badges w)
    (console w).

Definition say (c : Console) (w : WorkerWorld) : WorkerWorld :=
  mkWorkerWorld (extensionState w) (local w) (pending w) (badges w)
    (console w ++ [c]).

Definition setApiKey (k : jsstring) (s : ExtensionState) : ExtensionState :=
  mkExtensionState (Some k) (reviews s) (isProcessing s).

(** [loadApiKey], given what [chrome.storage.local.get] settles with. *)
Definition loadApiKey (result : Completion (option jsstring))
    (w : WorkerWorld) : WorkerWorld :=
  match result with
  | Normal (Some (c :: k)) =>
      say (ConsoleLog "API key loaded")
        (withExtensionState (setApiKey (c :: k)) w)
  | Normal _ => w
  | Throw _ => say (ConsoleError "Error loading API key:") w
  end.

(** [saveApiKey] from its [await] on, given what
    [chrome.storage.local.set] settles with. *)
Definition saveApiKey (apiKey : jsstring) (set : Completion ())
    (w : WorkerWorld) : WorkerWorld :=
  match set with
  | Normal _ =>
      let w :=
        mkWorkerWorld (extensionState w) (Some apiKey) (pending w) (badges w)
          (console w) in
      say (ConsoleLog "API key saved") (withExtensionState (setApiKey apiKey) w)
  | Throw _ => say (ConsoleError "Error saving API key:") w
  end.

(** The result of an [async] function. *)
Inductive Settled (A : Type) : Type :=
  | Fulfilled (a : A)
  | RejectedWith (message : jsstring).
Arguments Fulfilled {A} a.
Arguments RejectedWith {A} message.

Section Lower.
(** [String.prototype.toLowerCase], left open. *)
Variable toLowerCase : jsstring → jsstring.

(** je, na, že, ale, když, jak, nebo, který *)
Definition czechWords : list jsstring :=
  [str "je"; str "na"; [382; 101]; str "ale"; str "kdy" ++ [382]; str "jak";
   str "nebo"; str "kter" ++ [253]].

Definition detectLanguage (text : jsstring) : Language :=
  let lowerText := toLowerCase text in
  let czechCount :=
    foldl
      (λ czechCount word,
         if Js.includes lowerText (str " " ++ word ++ str " ")
         then czechCount + 1 else czechCount)
      0 czechWords in
  if 2 <=? czechCount then Cs else En.

(** The callback that builds [mockAnalysis]. *)
Definition mockAnalysisOf (review : ReviewMsg) : AnalysisResult :=
  let sentiment :=
    if 4 <=? m_rating review then Positive
    else if m_rating review <=? 2 then Negative
    else Neutral in
  let content := toLowerCase (m_title review ++ str " " ++ m_content review) in
  let has := λ word, Js.includes content (str word) in
  let category :=
    if has "bug" || has "crash" || has "error" then Bug
    else if has "feature" || has "add" || has "want" then Feature
    else if has "love" || has "great" || has "excellent" then Praise
    else if has "hate" || has "terrible" || has "awful" then Complaint
    else if has "?" || has "how" then Question
    else if has "should" || has "could" then Suggestion
    else General in
  mkAnalysisResult (m_id review) sentiment category
    (detectLanguage (m_content review)).

Definition cacheAnalysis (s : ExtensionState) (analysis : AnalysisResult)
  : ExtensionState :=
  mkExtensionState (apiKey s) (<[r_id analysis := analysis]> (reviews s))
    (isProcessing s).

Definition setProcessing (b : bool) (s : ExtensionState) : ExtensionState :=
  mkExtensionState (apiKey s) (reviews s) b.

Definition handleReviewAnalysis (reviews : list ReviewMsg) (s : ExtensionState)
  : Settled (list AnalysisResult) * ExtensionState :=
  if negb (hasKey s) then (RejectedWith (str "API key not configured"), s)
  else if isProcessing s then
    (RejectedWith (str "Analysis already in progress"), s)
  else
    let s := setProcessing true s in
    let mockAnalysis := mockAnalysisOf <$> reviews in
    let s := foldl cacheAnalysis s mockAnalysis in
    (Fulfilled mockAnalysis, setProcessing false s).

(** *** [handleResponseGeneration] *)

Definition positiveTemplates (rating : Z) : list jsstring :=
  [str "Thank you so much for your wonderful " ++ Js.toString rating
   ++ str "-star review! We're thrilled to hear that you're enjoying the app.";
   str "We're delighted by your positive feedback! Your " ++ Js.toString rating
   ++ str "-star rating motivates our team to keep improving.";
   str "Thank you for taking the time to share your experience! We're so happy you love the app."].

Definition negativeTemplates : list jsstring :=
  [str "Thank you for your feedback. We're sorry to hear about your experience and take your concerns seriously.";
   str "We apologize for the issues you've encountered. Your feedback helps us identify areas for improvement.";
   str "Thank you for bringing this to our attention. We're working hard to address these concerns."].

Definition neutralTemplates (rating : Z) : list jsstring :=
  [str "Thank you for your " ++ Js.toString rating
   ++ str "-star review and honest feedback. We value your input.";
   str "We appreciate you taking the time to share your thoughts about the app.";
   str "Thanks for your review! Your feedback helps us understand how we can better serve our users."].

Definition bugTemplates : list jsstring :=
  [str "Thank you for reporting this issue. Our development team is investigating the problem you described.";
   str "We apologize for the technical difficulties. We're working on a fix for this bug.";
   str "Thanks for the detailed bug report. We'll address this in our next update."].

Definition featureTemplates : list jsstring :=
  [str "Thanks for the feature suggestion! We'll share this with our product team for consideration.";
   str "Great idea! We're always looking for ways to enhance the app based on user feedback.";
   str "We appreciate your feature request and will consider it for future updates."].

(** [templates[analysis.category]] and [templates[analysis.sentiment]] *)
Definition templatesOfCategory (c : Category) : option (list jsstring) :=
  match c with
  | Bug => Some bugTemplates
  | Feature => Some featureTemplates
  | _ => None
  end.

Definition templatesOfSentiment (rating : Z) (s : Sentiment)
  : option (list jsstring) :=
  match s with
  | Positive => Some (positiveTemplates rating)
  | Negative => Some negativeTemplates
  | Neutral => Some (neutralTemplates rating)
  end.

(** The analysis that a response is built on: the cached one, or the one
    made up from the rating. *)
Inductive UsedAnalysis : Type :=
  | Cached (a : AnalysisResult)
  | MadeUp (sentiment : Sentiment) (category : Category).

Definition usedSentiment (a : UsedAnalysis) : Sentiment :=
  match a with
  | Cached a => r_sentiment a
  | MadeUp s _ => s
  end.

Definition usedCategory (a : UsedAnalysis) : Category :=
  match a with
  | Cached a => r_category a
  | MadeUp _ c => c
  end.

Record Generated : Type := mkGenerated {
  response : jsstring;
  analysis : UsedAnalysis;
  generated : bool
}.

(** [draw] stands for [Math.random()]: the template at index [draw] modulo
    the number of templates is taken. *)
Definition handleResponseGeneration (review : ReviewMsg) (draw : nat)
    (s : ExtensionState) : Settled Generated :=
  if negb (hasKey s) then RejectedWith (str "API key not configured")
  else
    let analysis :=
      match reviews s !! m_id review with
      | Some a => Cached a
      | None =>
          MadeUp
            (if 4 <=? m_rating review then Positive
             else if m_rating review <=? 2 then Negative
             else Neutral)
            General
      end in
    let responseTemplates :=
      default (neutralTemplates (m_rating review))
        (match templatesOfCategory (usedCategory analysis) with
         | Some t => Some t
         | None => templatesOfSentiment (m_rating review) (usedSentiment analysis)
         end) in
    let response :=
      default []
        (responseTemplates !! (draw `mod` length responseTemplates)%nat) in
    let response :=
      match m_nickname review with
      | _ :: _ =>
          str "Hi " ++ m_nickname review ++ str ", "
          ++ toLowerCase (take 1 response) ++ drop 1 response
      | [] => response
      end in
    let response :=
      match m_title review with
      | _ :: _ =>
          response ++ str " We noted your comment about " ++ [34]
          ++ m_title review ++ [34; 46]
      | [] => response
      end in
    let response :=
      response ++
      match usedSentiment analysis with
      | Positive => str " Thank you for being a valued user!"
      | Negative => str " We hope to improve your experience with future updates."
      | Neutral => str " Your input is valuable to us."
      end in
    Fulfilled (mkGenerated response analysis true).

(** *** The message listener *)

Inductive Request : Type :=
  | UPDATE_BADGE (data : Background.BadgeData)
  | SAVE_API_KEY (apiKey : jsstring)
  | GET_API_KEY
  | ANALYZE_REVIEWS (data : list ReviewMsg)
  | GENERATE_RESPONSE (review : ReviewMsg)
  | Other (type : jsstring).

Definition typeOf (request : Request) : jsstring :=
  match request with
  | UPDATE_BADGE _ => str "UPDATE_BADGE"
  | SAVE_API_KEY _ => str "SAVE_API_KEY"
  | GET_API_KEY => str "GET_API_KEY"
  | ANALYZE_REVIEWS _ => str "ANALYZE_REVIEWS"
  | GENERATE_RESPONSE _ => str "GENERATE_RESPONSE"
  | Other type => type
  end.

(** The labels of the [switch]. *)
Definition handledTypes : list jsstring :=
  [str "UPDATE_BADGE"; str "SAVE_API_KEY"; str "GET_API_KEY";
   str "ANALYZE_REVIEWS"; str "GENERATE_RESPONSE"].

(** [Other] carries the types that the [switch] has no label for. *)
Definition wellTyped (request : Request) : Prop :=
  match request with
  | Other type => type ∉ handledTypes
  | _ => True
  end.

Inductive Reply : Type :=
  | Done
  | ApiKeyIs (apiKey : option jsstring)
  | Analysed (data : list AnalysisResult)
  | Generation (data : Generated)
  | Failure (error : jsstring).

Definition succeeded (r : Reply) : bool :=
  match r with
  | Failure _ | ApiKeyIs _ => false
  | _ => true
  end.

(** The listener up to the reply it sends. [SAVE_API_KEY] only starts
    [saveApiKey]: the key waits in [pending] for the storage to settle. *)
Definition onMessage (request : Request) (tabId : option Z) (draw : nat)
    (w : WorkerWorld) : Reply * WorkerWorld :=
  let w := say (ConsoleLog "Message received:") w in
  match request with
  | UPDATE_BADGE data =>
      (Done,
       mkWorkerWorld (extensionState w) (local w) (pending w)
         (Background.handleBadgeUpdate data tabId (badges w)) (console w))
  | SAVE_API_KEY apiKey =>
      (Done,
       mkWorkerWorld (extensionState w) (local w) (pending w ++ [apiKey])
         (badges w) (console w))
  | GET_API_KEY => (ApiKeyIs (apiKey (extensionState w)), w)
  | ANALYZE_REVIEWS data =>
      match handleReviewAnalysis data (extensionState w) with
      | (Fulfilled result, s) => (Analysed result, withExtensionState (λ _, s) w)
      | (RejectedWith message, s) =>
          (Failure message, withExtensionState (λ _, s) w)
      end
  | GENERATE_RESPONSE review =>
      match handleResponseGeneration review draw (extensionState w) with
      | Fulfilled result => (Generation result, w)
      | RejectedWith message => (Failure message, w)
      end
  | Other _ => (Failure (str "Unknown message type"), w)
  end.

(** The [i]-th pending [storage.local.set] settles: [saveApiKey] goes on. *)
Definition settle (i : nat) (set : Completion ()) (w : WorkerWorld)
  : WorkerWorld :=
  match pending w !! i with
  | Some apiKey =>
      saveApiKey apiKey set
        (mkWorkerWorld (extensionState w) (local w) (delete i (pending w))
           (badges w) (console w))
  | None => w
  end.

(** What happens to the worker. *)
Inductive Event : Type :=
  | Message (request : Request) (tabId : option Z) (draw : nat)
  | Settles (i : nat) (set : Completion ())
  | Loads (result : Completion (option jsstring)).

Definition step (w : WorkerWorld) (ev : Event) : WorkerWorld :=
  match ev with
  | Message request tabId draw => (onMessage request tabId draw w).2
  | Settles i set => settle i set w
  | Loads result => loadApiKey result w
  end.

Definition replyOf (w : WorkerWorld) (ev : Event) : option Reply :=
  match ev with
  | Message request tabId draw => Some (onMessage request tabId draw w).1
  | _ => None
  end.

(** The replies of a run, in order. *)
Fixpoint replies (w : WorkerWorld) (evs : list Event) : list Reply :=
  match evs with
  | [] => []
  | ev :: evs =>
      match replyOf w ev with
      | Some r => r :: replies (step w ev) evs
      | None => replies (step w ev) evs
      end
  end.

End Lower.

(** The worker as the script starts it. *)
Definition initial : WorkerWorld :=
  mkWorkerWorld (mkExtensionState None ∅ false) None []
    (λ _, Background.mkBadge [] []) [].

End Worker.

(** *** The content script and the worker *)

(** A message of the content script as the worker receives it. *)
Definition wire (m : Message) : Worker.Request :=
  match m with
  | UPDATE_BADGE total unanswered =>
      Worker.UPDATE_BADGE (Background.mkBadgeData total unanswered)
  | BATCH_ANALYZE_REVIEWS _ => Worker.Other (str "BATCH_ANALYZE_REVIEWS")
  end.

(** What [analyzeAllReviews] reads of a reply: [success], and in [data]
    the array [reviews], which no reply of the worker has. *)
Definition asResponse (r : Worker.Reply) : Response :=
  mkResponse (Worker.succeeded r) None.

(** The records of a scan that have no response. *)
Definition unansweredScanned (doc : Forest) : list Review :=
  base.filter (λ r, hasResponse r = false) (scanned doc).

(** The worker after the messages of a content-script run in tab [tabId]
    have reached it. *)
Definition deliverAll (toLowerCase : jsstring → jsstring) (tabId : option Z)
    (es : list Effect) (ww : Worker.WorkerWorld) : Worker.WorkerWorld :=
  foldl
    (λ ww e,
       match e with
       | SendMessage m => (Worker.onMessage toLowerCase (wire m) tabId 0 ww).2
       | _ => ww
       end)
    ww es.

(** A worker that holds a key, and a run in which a key is saved and two
    analyses are asked for. *)
Definition keyedState : Worker.ExtensionState :=
  Worker.mkExtensionState (Some (str "sk-test")) ∅ false.

Definition crashReport : Worker.ReviewMsg :=
  Worker.mkReviewMsg (str "Q3Jhc2hlcw") (str "Crashes") 1
    (str "The app crashes on launch") (str "bob").

Definition praise : Worker.ReviewMsg :=
  Worker.mkReviewMsg (str "R3JlYXQ") (str "Great") 5 (str "Love it") [].

(** The worker's state after it has analysed two reviews. *)
Definition analysedState : Worker.ExtensionState :=
  (Worker.handleReviewAnalysis asciiLower [crashReport; praise] keyedState).2.

Definition sampleEvents : list Worker.Event :=
  [Worker.Message (Worker.ANALYZE_REVIEWS [praise]) (Some 12) 0%nat;
   Worker.Message (Worker.SAVE_API_KEY (str "sk-test")) None 0%nat;
   Worker.Settles 0 (Normal ());
   Worker.Message (Worker.ANALYZE_REVIEWS [crashReport; praise]) (Some 12) 0%nat;
   Worker.Message (Worker.ANALYZE_REVIEWS [praise]) (Some 12) 0%nat].

(** The Czech words that stand between spaces in [lowerText]. *)
Definition czechHits (lowerText : jsstring) : list jsstring :=
  base.filter (λ word, Js.includes lowerText (str " " ++ word ++ str " ") = true)
    Worker.czechWords.

(** * The popup *)

Module Popup.

(** What [chrome.storage.local] holds under the keys of the popup. *)
Record Settings : Type := mkSettings {
  apiKey : option jsstring;
  autoAnalyze : option bool;
  autoFill : option bool
}.

Inductive StatusType : Type := StatusSuccess | StatusError.

(** [statusDiv]: its text, the type in its class name, and whether it is
    displayed. *)
Record StatusDiv : Type := mkStatusDiv {
  message : jsstring;
  type : option StatusType;
  displayed : bool
}.

(** The elements of the popup that the script reads and writes;
    [hideAt] holds the times at which the pending timers of [showStatus]
    are due. *)
Record View : Type := mkView {
  apiKeyInput : jsstring;
  autoAnalyzeToggle : bool;
  autoFillToggle : bool;
  statusDiv : StatusDiv;
  totalReviews : jsstring;
  unansweredReviews : jsstring;
  debugInfo : jsstring;
  hideAt : list Z
}.

Definition showStatus (message : string) (type : StatusType) (now : Z)
    (v : View) : View :=
  mkView (apiKeyInput v) (autoAnalyzeToggle v) (autoFillToggle v)
    (mkStatusDiv (str message) (Some type) true)
    (totalReviews v) (unansweredReviews v) (debugInfo v)
    (hideAt v ++ [now + 3000]).

(** The timers of [showStatus] that are due at [now] run. *)
Definition runTimers (now : Z) (v : View) : View :=
  let due := base.filter (λ t, t ≤ now) (hideAt v) in
  mkView (apiKeyInput v) (autoAnalyzeToggle v) (autoFillToggle v)
    (if bool_decide (due = []) then statusDiv v
     else mkStatusDiv (message (statusDiv v)) (type (statusDiv v)) false)
    (totalReviews v) (unansweredReviews v) (debugInfo v)
    (base.filter (λ t, ¬ t ≤ now) (hideAt v)).

(** [loadSettings], given what [chrome.storage.local.get] settles with. *)
Definition loadSettings (result : Completion Settings) (now : Z) (v : View)
  : View :=
  match result with
  | Normal result =>
      mkView
        (match apiKey result with
         | Some (c :: k) => c :: k
         | _ => apiKeyInput v
         end)
        (if autoAnalyze result is Some false then false else true)
        (if autoFill result is Some false then false else true)
        (statusDiv v) (totalReviews v) (unansweredReviews v) (debugInfo v)
        (hideAt v)
  | Throw _ => showStatus "Error loading settings" StatusError now v
  end.

(** [saveSettings], given what [chrome.storage.local.set] settles with:
    the view, the storage and the messages sent to the worker. *)
Definition saveSettings (set : Completion ()) (now : Z) (v : View)
    (stored : Settings) : View * Settings * list Worker.Request :=
  let apiKey := Js.trim (apiKeyInput v) in
  if bool_decide (apiKey = []) && negb (bool_decide (apiKeyInput v = [])) then
    (showStatus "Please enter a valid API key" StatusError now v, stored, [])
  else
    match set with
    | Normal _ =>
        (showStatus "Settings saved successfully!" StatusSuccess now v,
         mkSettings (Some apiKey) (Some (autoAnalyzeToggle v))
           (Some (autoFillToggle v)),
         [Worker.SAVE_API_KEY apiKey])
    | Throw _ => (showStatus "Error saving settings" StatusError now v, stored, [])
    end.

(** *** [updateStats] *)

Record Tab : Type := mkTab {
  tabId : Z;
  url : option jsstring
}.

(** What the callback of [chrome.tabs.sendMessage] finds: [lastError], or
    the response, which is [undefined] or what the content script sent. *)
Inductive StatsReply : Type :=
  | LastError
  | Replied (response : option StatsResponse).

Definition withDebugInfo (d : jsstring) (v : View) : View :=
  mkView (apiKeyInput v) (autoAnalyzeToggle v) (autoFillToggle v) (statusDiv v)
    (totalReviews v) (unansweredReviews v) d (hideAt v).

Definition withCounts (total unanswered : jsstring) (v : View) : View :=
  mkView (apiKeyInput v) (autoAnalyzeToggle v) (autoFillToggle v) (statusDiv v)
    total unanswered (debugInfo v) (hideAt v).

(** [n || '0'] assigned to [textContent]. *)
Definition countText (n : Z) : jsstring :=
  if n =? 0 then str "0" else Js.toString n.

(** [updateStats], given what [chrome.tabs.query] settles with and what the
    callback finds. The check mark, the cross and the arrow are U+2713,
    U+2717 and U+2192. *)
Definition updateStats (query : Worker.Settled (option Tab))
    (reply : StatsReply) (v : View) : View :=
  match query with
  | Worker.Fulfilled tab =>
      let tabUrl :=
        match tab with
        | Some (mkTab _ (Some (c :: u))) => Some (c :: u)
        | _ => None
        end in
      let v :=
        match tabUrl with
        | Some url =>
            let shortUrl :=
              if (60 <? length url)%nat then Js.substring0 60 url ++ str "..."
              else url in
            withDebugInfo (str "Current: " ++ shortUrl) v
        | None => v
        end in
      if (if tabUrl is Some url
          then Js.includes url (str "appstoreconnect.apple.com") else false)
      then
        let v :=
          withDebugInfo (debugInfo v ++ [10; 10003] ++ str " On App Store Connect")
            v in
        match reply with
        | LastError =>
            let v :=
              withDebugInfo
                (debugInfo v ++ [10; 10007] ++ str " Content script not loaded")
                v in
            let v :=
              withDebugInfo
                (debugInfo v ++ [10; 8594]
                 ++ str " Check: Are you on Ratings & Reviews page?")
                v in
            withCounts (str "-") (str "-") v
        | Replied response =>
            let v :=
              withDebugInfo
                (debugInfo v ++ [10; 10003] ++ str " Content script active") v in
            match response with
            | Some (mkStatsResponse true total unanswered) =>
                withCounts (countText total) (countText unanswered) v
            | _ => withCounts (str "-") (str "-") v
            end
        end
      else
        let v :=
          withDebugInfo
            (debugInfo v ++ [10; 8594] ++ str " Not on App Store Connect") v in
        withCounts (str "-") (str "-") v
  | Worker.RejectedWith message =>
      withDebugInfo (str "Error: " ++ message) v
  end.

End Popup.

(** A popup as it opens, before anything is loaded. *)
Definition blankPopup : Popup.View :=
  Popup.mkView [] false false (Popup.mkStatusDiv [] None false) (str "-")
    (str "-") [] [].

Definition noSettings : Popup.Settings := Popup.mkSettings None None None.

(** The popup with a key typed in, padded with blanks. *)
Definition typedPopup : Popup.View :=
  Popup.mkView (str "  sk-test ") true false (Popup.mkStatusDiv [] None false)
    (str "-") (str "-") [] [].

Definition reviewsTab : Popup.Tab :=
  Popup.mkTab 12
    (Some (str "https://appstoreconnect.apple.com/apps/1/distribution/reviews")).

(** The worker after the popup's messages have reached it. *)
Definition deliverToWorker (toLowerCase : jsstring → jsstring)
    (sent : list Worker.Request) (ww : Worker.WorkerWorld) : Worker.WorkerWorld :=
  foldl (λ ww request, (Worker.onMessage toLowerCase request None 0 ww).2) ww sent.


(** * The reply modal *)

Module Modal.

(** [for (let char of text)]: the string by code points; a high surrogate
    and the low surrogate after it make one. *)
Fixpoint codePoints (text : jsstring) : list jsstring :=
  match text with
  | [] => []
  | c :: rest =>
      match rest with
      | d :: rest' =>
          if Js.isHighSurrogate c && Js.isLowSurrogate d
          then [c; d] :: codePoints rest'
          else [c] :: codePoints rest
      | [] => [[c]]
      end
  end.

(** A [setTimeout] of the reply path; review data is held by reference. *)
Inductive Task : Type :=
  | AutoFill (reviewData : nat)
  | Retry (reviewData : nat)
  | Generate (reviewData : nat) (textarea : DomElement).

(** What the script does to the page and shows to the user. *)
Inductive Did : Type :=
  | Said (entry : LogEntry)
  | ClickOn (element : DomElement)
  | FocusOn (element : DomElement)
  | ExecCommand (command : string) (value : jsstring)
  | Dispatch (element : DomElement) (event : string)
  | SetValue (element : DomElement) (text : jsstring)
  | Alert (text : jsstring).

(** The page as the reply path sees it: the document, the review data
    objects that the click listener has made, [state.reviews], what the
    click handler of the generate button holds, the pending timers and
    the calls of [generateAIResponse] that await their response. *)
Record Page : Type := mkPage {
  document : Forest;
  heap : list Review;
  reviews : gmap jsstring Review;
  handler : option (nat * DomElement);
  timers : list Task;
  generating : list (nat * DomElement);
  did : list Did
}.

Definition does (ds : list Did) (w : Page) : Page :=
  mkPage (document w) (heap w) (reviews w) (handler w) (timers w)
    (generating w) (did w ++ ds).

Definition say (entry : LogEntry) (w : Page) : Page :=
  does (Said <$> debug entry) w.

Definition setTimeout (task : Task) (w : Page) : Page :=
  mkPage (document w) (heap w) (reviews w) (handler w) (timers w ++ [task])
    (generating w) (did w).

(** The capture listener of [interceptReplyButtons]. *)
Definition elementAt (p : Path) (doc : Forest) : option DomElement :=
  head (base.filter (λ d, path d = p) (Dom.elements [] doc)).

(** [target.closest(s)]: the target if it matches, else the nearest
    element above it that does. *)
Definition closest (s : Dom.Selector) (target : DomElement) (doc : Forest)
  : option DomElement :=
  if Dom.matches s target then Some target
  else
    head
      (omap
         (λ k, d ← elementAt (take k (path target)) doc;
               if Dom.matches s d then Some d else None)
         (reverse (seq 1 (length (path target) - 1)))).

Definition onClick (target : DomElement) (w : Page) : Page :=
  if Dom.matches (Dom.byClass "reply-link") target
     || Dom.matches (Dom.byClass "edit-link") target
  then
    let w := say (Info "Reply/Edit button clicked") w in
    match closest CONFIG.SELECTORS.reviewContainer target (document w) with
    | Some reviewContainer =>
        let '(reviewData, log) := extractReviewData reviewContainer in
        let w := does (Said <$> log) w in
        match reviewData with
        | Some reviewData =>
            let w := say (Info "Review data:") w in
            setTimeout (AutoFill (length (heap w)))
              (mkPage (document w) (heap w ++ [reviewData]) (reviews w)
                 (handler w) (timers w) (generating w) (did w))
        | None => w
        end
    | None => w
    end
  else w.

(** [insertTextIntoModal]; [element.click()] runs the capture listener. *)
Definition insertTextIntoModal (element : DomElement) (text : jsstring)
    (w : Page) : Page :=
  if bool_decide (is_Some (Dom.getAttribute (str "contenteditable") (info element)))
  then
    let w := onClick element (does [ClickOn element] w) in
    does
      ([FocusOn element; ExecCommand "selectAll" []; ExecCommand "delete" []]
       ++ (ExecCommand "insertText" <$> codePoints text)
       ++ [Dispatch element "input"; Dispatch element "change";
           Dispatch element "blur"])
      w
  else
    does [SetValue element text; Dispatch element "input";
          Dispatch element "change"] w.

(** [.modal-dialog div[contenteditable="true"]] *)
Definition editable (d : DomElement) : bool :=
  bool_decide (localName (info d) = str "div")
  && bool_decide
       (Dom.getAttribute (str "contenteditable") (info d) = Some (str "true"))
  && Dom.matchesChain [Dom.mkCompound None None (Some (str "modal-dialog")) None]
       (ancestors d).

Definition editableDivs (doc : Forest) : list DomElement :=
  base.filter (λ d, editable d = true) (Dom.elements [] doc).

(** The element that [createElement], the class name and [innerHTML]
    build. *)
Definition buttonContainer : Node :=
  htmlElem "div" "reviewllama-generate-container"
    [TextNode (nl 6);
     Element
       (mkElem HTML (str "button")
          [(str "id", str "reviewllama-generate-btn");
           (str "class", str "reviewllama-generate-btn")])
       [TextNode (nl 8 ++ str "Generate AI Response" ++ nl 6)];
     TextNode (nl 4)].

(** The path of [element.parentElement]; the roots of the forest hang
    under an element of their own. *)
Definition parentPath (element : DomElement) : Path :=
  take (length (path element) - 1) (path element).

Definition addGenerateButton (textarea : DomElement) (reviewData : nat)
    (w : Page) : Completion () * Page :=
  if Dom.getElementById "reviewllama-generate-btn" (document w) is Some _
  then (Normal (), w)
  else
    let doc :=
      Dom.appendChild (parentPath textarea) buttonContainer (document w) in
    let w :=
      mkPage doc (heap w) (reviews w) (handler w) (timers w) (generating w)
        (did w) in
    match Dom.getElementById "reviewllama-generate-btn" doc with
    | Some _ =>
        (Normal (),
         mkPage (document w) (heap w) (reviews w) (Some (reviewData, textarea))
           (timers w) (generating w) (did w))
    | None => (Throw TypeError, w)
    end.

(** [autoFillResponse]; [visible] tells whether an element has an
    [offsetParent]. The lines that only describe the modal in the console
    are left out. An exception ends the call. *)
Definition autoFillResponse (visible : DomElement → bool) (reviewData : nat)
    (w : Page) : Page :=
  let allEditableDivs := editableDivs (document w) in
  let '(modalTextarea, w) :=
    match find visible allEditableDivs with
    | Some div => (Some div, say (Info "Found visible contenteditable div") w)
    | None =>
        match last allEditableDivs with
        | Some div =>
            (Some div,
             say (Info "No visible div found, using last contenteditable div") w)
        | None => (None, w)
        end
    end in
  match modalTextarea with
  | Some modalTextarea =>
      match addGenerateButton modalTextarea reviewData w with
      | (Throw _, w) => w
      | (Normal _, w) =>
          let w :=
            match heap w !! reviewData ≫= generatedResponse with
            | Some (c :: text) =>
                insertTextIntoModal modalTextarea (c :: text)
                  (say (Info "Using cached AI response") w)
            | _ =>
                setTimeout (Generate reviewData modalTextarea)
                  (say (Info "Auto-generating AI response...") w)
            end in
          say (Info "Auto-fill initiated") w
      end
  | None =>
      setTimeout (Retry reviewData)
        (say (Info "Modal contenteditable div not found, retrying...") w)
  end.

(** The retry that [autoFillResponse] schedules. *)
Definition retry (visible : DomElement → bool) (reviewData : nat) (w : Page)
  : Page :=
  if head (editableDivs (document w)) is Some _
  then autoFillResponse visible reviewData w
  else w.

(** [generateAIResponse] up to its first [await]: without the button the
    call ends in a [TypeError]. What it writes on the button is left
    out. *)
Definition generateAIResponse (reviewData : nat) (textarea : DomElement)
    (w : Page) : Page :=
  let w := say (Info "Generating AI response for:") w in
  match Dom.getElementById "reviewllama-generate-btn" (document w) with
  | Some _ =>
      mkPage (document w) (heap w) (reviews w) (handler w) (timers w)
        (generating w ++ [(reviewData, textarea)]) (did w)
  | None => w
  end.

(** The response to [GENERATE_AI_RESPONSE] as the script reads it. *)
Record GenReply : Type := mkGenReply {
  g_success : bool;
  g_response : jsstring;
  g_error : jsstring
}.

Definition cacheResponse (reviewData : nat) (text : jsstring) (w : Page) : Page :=
  match heap w !! reviewData with
  | Some r =>
      let r :=
        mkReview (id r) (title r) (rating r) (content r) (nickname r)
          (hasResponse r) (element r) (analysis r) (Some text) in
      mkPage (document w) (<[reviewData := r]> (heap w)) (<[id r := r]> (reviews w))
        (handler w) (timers w) (generating w) (did w)
  | None => w
  end.

(** [generateAIResponse] from the response of the worker on. *)
Definition generated (response : Worker.Settled GenReply) (reviewData : nat)
    (textarea : DomElement) (w : Page) : Page :=
  match response with
  | Worker.Fulfilled response =>
      if g_success response then
        let w := say (Info "AI response received:") w in
        let w := insertTextIntoModal textarea (g_response response) w in
        cacheResponse reviewData (g_response response) w
      else
        let w := say (Info "AI generation failed:") w in
        does [Alert (str "Error generating response: " ++ g_error response)] w
  | Worker.RejectedWith message =>
      let w := say (Info "Error in AI generation:") w in
      does [Alert (str "Error: " ++ message)] w
  end.

(** What happens on the page. *)
Inductive Event : Type :=
  | Click (target : DomElement)
  | Fire (i : nat) (visible : DomElement → bool)
  | ClickGenerate
  | Settle (i : nat) (response : Worker.Settled GenReply)
  | PageSets (doc : Forest).

Definition fire (task : Task) (visible : DomElement → bool) (w : Page) : Page :=
  match task with
  | AutoFill reviewData => autoFillResponse visible reviewData w
  | Retry reviewData => retry visible reviewData w
  | Generate reviewData textarea => generateAIResponse reviewData textarea w
  end.

Definition step (w : Page) (ev : Event) : Page :=
  match ev with
  | Click target => onClick target w
  | Fire i visible =>
      match timers w !! i with
      | Some task =>
          fire task visible
            (mkPage (document w) (heap w) (reviews w) (handler w)
               (delete i (timers w)) (generating w) (did w))
      | None => w
      end
  | ClickGenerate =>
      match Dom.getElementById "reviewllama-generate-btn" (document w), handler w with
      | Some _, Some (reviewData, textarea) =>
          generateAIResponse reviewData textarea w
      | _, _ => w
      end
  | Settle i response =>
      match generating w !! i with
      | Some (reviewData, textarea) =>
          generated response reviewData textarea
            (mkPage (document w) (heap w) (reviews w) (handler w) (timers w)
               (delete i (generating w)) (did w))
      | None => w
      end
  | PageSets doc =>
      mkPage doc (heap w) (reviews w) (handler w) (timers w) (generating w)
        (did w)
  end.

(** The review data that a pending [autoFillResponse] holds. *)
Definition fillRef (task : Task) : option nat :=
  match task with
  | AutoFill r | Retry r => Some r
  | Generate _ _ => None
  end.

(** The review data and the text area that a generation holds or will
    hold. *)
Definition genUse (task : Task) : option (nat * DomElement) :=
  match task with
  | Generate r t => Some (r, t)
  | _ => None
  end.

Definition genUses (w : Page) : list (nat * DomElement) :=
  omap genUse (timers w) ++ generating w ++ option_list (handler w).

Definition usedCache (d : Did) : Prop :=
  d = Said (Info "Using cached AI response").

Definition isInsertion (d : Did) : bool :=
  match d with
  | ExecCommand _ _ | SetValue _ _ => true
  | _ => false
  end.

Definition isSetValue (d : Did) : bool :=
  match d with
  | SetValue _ _ => true
  | _ => false
  end.

(** A page on which the reply path has nothing under way. *)
Definition atRest (w : Page) : Prop :=
  timers w = [] ∧ generating w = [] ∧ handler w = None.

(** The invariant of the reply path. *)
Definition wf (w : Page) : Prop :=
  NoDup (omap fillRef (timers w))
  ∧ (∀ r, r ∈ omap fillRef (timers w) →
       (r < length (heap w))%nat
       ∧ heap w !! r ≫= generatedResponse = None
       ∧ r ∉ (genUses w).*1)
  ∧ (∀ r t, (r, t) ∈ genUses w →
       (r < length (heap w))%nat
       ∧ is_Some (Dom.getAttribute (str "contenteditable") (info t))).

End Modal.

(** The response of the worker to the content script's request for a
    generated answer, as the script reads it. *)
Definition asGenReply (r : Worker.Reply) : Modal.GenReply :=
  Modal.mkGenReply (Worker.succeeded r)
    (if r is Worker.Generation g then Worker.response g else [])
    (if r is Worker.Failure error then error else []).

Definition workerGenReply (toLowerCase : jsstring → jsstring)
    (ww : Worker.WorkerWorld) (tabId : option Z) (draw : nat)
  : Worker.Settled Modal.GenReply :=
  Worker.Fulfilled
    (asGenReply
       (Worker.onMessage toLowerCase (Worker.Other (str "GENERATE_AI_RESPONSE"))
          tabId draw ww).1).

(** What the reply path did between two pages. *)
Definition newlyDid (w w' : Modal.Page) : list Modal.Did :=
  drop (length (Modal.did w)) (Modal.did w').

Definition harmless (d : Modal.Did) : Prop :=
  ¬ Modal.usedCache d ∧ Modal.isSetValue d = false.

Definition unknownAlert : jsstring :=
  str "Error generating response: Unknown message type".

Definition fruitless (d : Modal.Did) : Prop :=
  ¬ Modal.usedCache d ∧ Modal.isInsertion d = false
  ∧ ∀ text, d = Modal.Alert text → text = unknownAlert.

(** An event in which every response to a generation request is the one
    that the worker gives. *)
Definition fromWorker (toLowerCase : jsstring → jsstring) (ev : Modal.Event)
  : Prop :=
  match ev with
  | Modal.Settle _ response =>
      ∃ ww tabId draw, response = workerGenReply toLowerCase ww tabId draw
  | _ => True
  end.

Definition isRetry (task : Modal.Task) : bool :=
  match task with
  | Modal.Retry _ => true
  | _ => false
  end.

Definition isButton (inf : ElemInfo) : bool :=
  Dom.hasId (str "reviewllama-generate-btn") inf.

(** A modal whose first editable div is hidden, with a reply link in a
    review below it. *)
Definition modalNode : Node :=
  htmlElem "div" "modal-dialog"
    [htmlElem "div" "modal-body"
       [Element
          (mkElem HTML (str "div")
             [(str "contenteditable", str "true"); (str "class", str "ng-hide")])
          [];
        Element (mkElem HTML (str "div") [(str "contenteditable", str "true")])
          []]].

Definition replyLinkNode : Node := htmlElem "a" "reply-link" [TextNode (str "Reply")].

Definition pageWithModal : Forest :=
  [modalNode;
   Element containerInfo (children aliceReview ++ [replyLinkNode])].

Definition replyLink : DomElement :=
  mkDomElement [1%nat; 3%nat] [containerInfo]
    (mkElem HTML (str "a") [(str "class", str "reply-link")])
    [TextNode (str "Reply")].

Definition modalPage (doc : Forest) : Modal.Page :=
  Modal.mkPage doc [] ∅ None [] [] [].

(** A click on the reply link, the timer of [autoFillResponse], the timer
    of the generation, and the answer of the worker. *)
Definition replyRun : list Modal.Event :=
  [Modal.Click replyLink;
   Modal.Fire 0 (λ d, bool_decide (Dom.getAttribute (str "class") (info d) = None));
   Modal.Fire 0 (λ _, true);
   Modal.Settle 0 (workerGenReply asciiLower Worker.initial (Some 12) 0)].

(** The strings that [insertText] commands carry. *)
Definition typedChunks (ds : list Modal.Did) : list jsstring :=
  omap (λ d, match d with
             | Modal.ExecCommand command value =>
                 if String.eqb command "insertText" then Some value else None
             | _ => None
             end) ds.

Definition buttonCount (doc : Forest) : nat :=
  length (base.filter (λ d, isButton (info d) = true) (Dom.elements [] doc)).

(** The second editable div of [pageWithModal]. *)
Definition activeDiv : DomElement :=
  mkDomElement [0%nat; 0%nat; 1%nat]
    [mkElem HTML (str "div") [(str "class", str "modal-body")];
     mkElem HTML (str "div") [(str "class", str "modal-dialog")]]
    (mkElem HTML (str "div") [(str "contenteditable", str "true")]) [].

(** * Start-up: [waitForReviews] *)

Module Startup.

(** The counter of attempts, whether the interval is still set, how often
    [initialize] has been called, and the console. *)
Record Wait : Type := mkWait {
  attempts : Z;
  checking : bool;
  initialized : nat;
  console : list LogEntry
}.

Definition waitForReviews : Wait :=
  mkWait 0 true 0
    (debug (Info "waitForReviews() started - checking every 500ms...")).

(** The callback of the interval, on the document as it is then. *)
Definition check (doc : Forest) (s : Wait) : Wait :=
  let attempts := attempts s + 1 in
  let reviewContainer :=
    Dom.docQuerySelector CONFIG.SELECTORS.reviewContainer doc in
  let reviewsDiv := Dom.docQuerySelector (Dom.byId "reviews-container") doc in
  let console := console s ++ debug (Info "Attempt") in
  if bool_decide (is_Some reviewContainer) || bool_decide (is_Some reviewsDiv)
  then
    mkWait attempts false (S (initialized s))
      (console ++ debug (Info "Found reviews! Initializing..."))
  else mkWait attempts (checking s) (initialized s) console.

(** The callback of the 30 s timeout. *)
Definition stop (s : Wait) : Wait :=
  mkWait (attempts s) false (initialized s)
    (console s ++ debug (Info "Stopped checking after attempts (30 seconds)")).

(** The interval comes round with the document as it is then, or the
    timeout runs. A cleared interval does not call back. *)
Inductive Event : Type :=
  | Tick (doc : Forest)
  | Timeout.

Definition step (s : Wait) (ev : Event) : Wait :=
  match ev with
  | Tick doc => if checking s then check doc s else s
  | Timeout => stop s
  end.

(** A tick on which no review container and no [#reviews-container] is
    in the document, or the timeout. *)
Definition nothingYet (ev : Event) : Prop :=
  match ev with
  | Tick doc =>
      Dom.docQuerySelector CONFIG.SELECTORS.reviewContainer doc = None
      ∧ Dom.docQuerySelector (Dom.byId "reviews-container") doc = None
  | Timeout => True
  end.

Definition isTick (ev : Event) : bool :=
  match ev with
  | Tick _ => true
  | Timeout => false
  end.

End Startup.

(** Sixty ticks on an empty page, the timeout, and then a tick on a page
    with reviews. *)
Definition lateReviews : list Startup.Event :=
  replicate 60 (Startup.Tick []) ++ [Startup.Timeout; Startup.Tick reviewsPage].






(** * Properties *)

(** ** Strings *)

Lemma startsWith_spec (s p : jsstring) :
  Js.startsWith s p = true ↔ ∃ post, s = p ++ post.
Proof.
  revert s; induction p as [|b p IH]; intros [|a s]; simpl.
  - split; [eauto | done].
  - split; [eauto | done].
  - split; [done | intros [post [=]]].
  - rewrite andb_true_iff, Z.eqb_eq, IH. split.
    + intros [-> [post ->]]. eauto.
    + intros [post [= -> ->]]. eauto.
Qed.

Example encodeURIComponent_escapes :
  Js.encodeURIComponent (str "Great app!" ++ [enDash; 233])
  = Normal (str "Great%20app!%E2%80%93%C3%A9").
Proof. reflexivity. Qed.

Example encodeURIComponent_lone_surrogate :
  Js.encodeURIComponent (str "ok" ++ [56832]) = Throw URIError.
Proof. reflexivity. Qed.

Example btoa_pads : Js.btoa (str "Great%20app") = Normal (str "R3JlYXQlMjBhcHA=").
Proof. reflexivity. Qed.

Example trim_both_ends :
  Js.trim ([10; 32; 32] ++ str "Five stars" ++ [160; 9]) = str "Five stars".
Proof. reflexivity. Qed.

Example matchBy_lazy :
  matchBy (str "Posted by Ann " ++ [enDash] ++ str " Bo " ++ [enDash] ++ str " May 2")
  = Some (str "Ann").
Proof. reflexivity. Qed.

Example matchBy_needs_dash : matchBy (str "by Ann - May 2") = None.
Proof. reflexivity. Qed.

Example matchCount_leftmost :
  matchCount (str "stars count-x count-3 count-5") = Some 51.
Proof. reflexivity. Qed.

Example toString_decimal_digits : Js.toString 1204 = str "1204".
Proof. reflexivity. Qed.

(** [includes] holds exactly of the substrings. *)
Lemma includes_spec (s p : jsstring) :
  Js.includes s p = true ↔ ∃ pre post, s = pre ++ p ++ post.
Proof.
  induction s as [|a s IH]; cbn [Js.includes].
  - rewrite orb_false_r, startsWith_spec. split.
    + intros [post ->]. by exists [], post.
    + intros [pre [post H]]. symmetry in H.
      apply app_eq_nil in H as [-> H]. eauto.
  - rewrite orb_true_iff, startsWith_spec, IH. split.
    + intros [[post ->] | [pre [post ->]]].
      * by exists [], post.
      * by exists (a :: pre), post.
    + intros [[|c pre] [post H]].
      * left. eauto.
      * right. injection H as -> ->. eauto.
Qed.

Lemma toString_decimal (n : Z) :
  0 < n →
  ∃ s, Js.toString n = str s ∧ decimalValue s = Some n.
Proof.
  intros Hn. exists (NilZero.string_of_int (Z.to_int n)). split; [done|].
  unfold decimalValue. rewrite NilZero.isi.
  - simpl. by rewrite DecimalZ.of_to.
  - destruct n; try done. simpl. intros [= H].
    by apply DecimalPos.Unsigned.to_uint_nonnil in H.
  - destruct n; done.
Qed.

(** ** The badge *)

Section Badge.
Import Background.

(** C10. [handleBadgeUpdate] with an unanswered count [u]: for [u > 0]
    (a count is a safe integer) the tab's badge text becomes the decimal
    string of [u] and its colour the red [#FF3B30]; for [u = 0] the text
    becomes empty; the outcome is the same whatever the total is, and the
    badges of the other tabs stay as they are. *)
Theorem handleBadgeUpdate_shows_unanswered :
  ∀ (data : BadgeData) (tabId : option Z) (b : Badges),
    let b' := handleBadgeUpdate data tabId b in
    (0 < unanswered data ≤ 9007199254740991 →
       text (b' tabId) = Js.toString (unanswered data)
       ∧ (∃ s, text (b' tabId) = str s
               ∧ decimalValue s = Some (unanswered data))
       ∧ color (b' tabId) = str "#FF3B30")
    ∧ (unanswered data = 0 → text (b' tabId) = [])
    ∧ (∀ total', handleBadgeUpdate (mkBadgeData total' (unanswered data)) tabId b = b')
    ∧ (∀ t, t ≠ tabId → b' t = b t).
Proof.
  intros data tabId b b'. subst b'. unfold handleBadgeUpdate.
  split; [|split; [|split]].
  - intros [Hpos _]. pose proof Hpos as Hlt. apply Z.ltb_lt in Hlt. rewrite Hlt.
    unfold setBadgeBackgroundColor, setBadgeText.
    rewrite !decide_True by done. simpl.
    split; [done|]. split; [|done]. by apply toString_decimal.
  - intros ->. simpl. unfold setBadgeText. by rewrite decide_True.
  - done.
  - intros t Hne. destruct (0 <? unanswered data);
      unfold setBadgeBackgroundColor, setBadgeText;
      by rewrite !decide_False.
Qed.

Lemma handleBadgeUpdate_shows_unanswered_witness :
  text (handleBadgeUpdate (mkBadgeData 7 3) (Some 12) sampleBadges (Some 12))
  = str "3"
  ∧ color (handleBadgeUpdate (mkBadgeData 7 3) (Some 12) sampleBadges (Some 12))
    = str "#FF3B30"
  ∧ text (handleBadgeUpdate (mkBadgeData 7 0) (Some 12) sampleBadges (Some 12))
    = [].
Proof.
  pose proof (handleBadgeUpdate_shows_unanswered (mkBadgeData 7 3) (Some 12)
                sampleBadges) as (H3 & _).
  pose proof (handleBadgeUpdate_shows_unanswered (mkBadgeData 7 0) (Some 12)
                sampleBadges) as (_ & H0 & _).
  destruct H3 as (Ht & _ & Hc); [simpl; lia|].
  split; [exact Ht|]. split; [exact Hc|]. apply H0. reflexivity.
Defined.
End Badge.

(** ** The analysis cache *)

Lemma trace_logw (entry : LogEntry) (w : World) :
  trace (logw entry w) = trace w ++ [Log entry].
Proof. done. Qed.

Lemma applyAnalysisResults_trace (d : AnalysisData) (w : World) :
  ∃ es, trace (applyAnalysisResults d w) = trace w ++ es
        ∧ existsb isAnalysisRequest es = false.
Proof.
  destruct d as [items|]; simpl.
  - eexists. rewrite <- !app_assoc. split; [reflexivity|]. done.
  - eexists. split; [reflexivity|]. done.
Qed.

Lemma applyAnalysisResults_storage (d : AnalysisData) (w : World) :
  storage (applyAnalysisResults d w) = storage w.
Proof. by destruct d. Qed.

Section Cache.
Variables (pathname : jsstring) (now now' : Z) (response : Completion Response).
Variable w : World.

Let key := cacheKey pathname.
Let w' := analyzeAllReviews pathname now response now' w.

Lemma analyze_hit (entry : CacheEntry) :
  storage w !! key = Some entry →
  now - timestamp entry < 24 * 60 * 60 * 1000 →
  w' = applyAnalysisResults (data entry)
         (logw (Info "Using cached analysis")
            (emit [StorageGet key] (logw (Info "Starting batch analysis...") w))).
Proof.
  intros Hk Hfresh. subst w'. unfold analyzeAllReviews. simpl.
  fold key. rewrite Hk. unfold fresh.
  apply Z.ltb_lt in Hfresh. by rewrite Hfresh.
Qed.

Lemma analyze_hit_no_request (entry : CacheEntry) :
  storage w !! key = Some entry →
  now - timestamp entry < 24 * 60 * 60 * 1000 →
  existsb isAnalysisRequest (added w w') = false.
Proof.
  intros Hk Hfresh. rewrite (analyze_hit entry Hk Hfresh).
  destruct (applyAnalysisResults_trace (data entry)
              (logw (Info "Using cached analysis")
                 (emit [StorageGet key]
                    (logw (Info "Starting batch analysis...") w))))
    as (es & Htr & Hes).
  unfold added. rewrite Htr. simpl. rewrite <- !app_assoc.
  rewrite drop_app_length. simpl. exact Hes.
Qed.

Lemma analyze_miss_request :
  (∀ entry, storage w !! key = Some entry →
            ¬ now - timestamp entry < 24 * 60 * 60 * 1000) →
  existsb isAnalysisRequest (added w w') = true.
Proof.
  intros Hmiss. subst w'. unfold analyzeAllReviews. simpl. fold key.
  assert ((if storage w !! key is Some entry then fresh now entry else false)
          = false) as ->.
  { destruct (storage w !! key) as [entry|] eqn:Hk; [|done].
    unfold fresh. apply Z.ltb_ge. specialize (Hmiss entry eq_refl). lia. }
  unfold added.
  destruct response as [[[] d]|e]; simpl.
  - destruct (applyAnalysisResults_trace d
      (emit [StorageSet key (mkCacheEntry now' d)]
         (withStorage (<[key:=mkCacheEntry now' d]> (storage w))
            (logw (Info "Batch analysis successful")
               (emit [SendMessage (BATCH_ANALYZE_REVIEWS
                                     (map_to_list (reviews (state w))).*2)]
                  (emit [StorageGet key]
                     (logw (Info "Starting batch analysis...") w)))))))
      as (es & Htr & _).
    rewrite Htr. simpl. rewrite <- !app_assoc. rewrite drop_app_length.
    done.
  - rewrite <- !app_assoc. rewrite drop_app_length. done.
  - rewrite <- !app_assoc. rewrite drop_app_length. done.
Qed.
End Cache.

(** C6. The cached analysis is used exactly when the entry's age, the
    clock minus its timestamp, is below 24 hours. A run that finds such an
    entry applies its data and sends no analysis request and leaves the
    store alone; a run that finds no entry, or one of that age or older,
    sends the request. An entry stamped with the current time is used; one
    stamped 25 hours earlier is not. *)
Theorem analysis_cache_freshness :
  ∀ (pathname : jsstring) (now now' : Z) (response : Completion Response)
    (w : World),
    let key := cacheKey pathname in
    let w' := analyzeAllReviews pathname now response now' w in
    (existsb isAnalysisRequest (added w w') = false
     ↔ ∃ entry, storage w !! key = Some entry
                ∧ now - timestamp entry < 24 * 60 * 60 * 1000)
    ∧ (∀ entry,
         storage w !! key = Some entry →
         now - timestamp entry < 24 * 60 * 60 * 1000 →
         w' = applyAnalysisResults (data entry)
                (logw (Info "Using cached analysis")
                   (emit [StorageGet key]
                      (logw (Info "Starting batch analysis...") w)))
         ∧ storage w' = storage w)
    ∧ (∀ entry,
         storage w !! key = Some entry → timestamp entry = now →
         existsb isAnalysisRequest (added w w') = false)
    ∧ (∀ entry,
         storage w !! key = Some entry →
         timestamp entry = now - 25 * 60 * 60 * 1000 →
         existsb isAnalysisRequest (added w w') = true).
Proof.
  intros pathname now now' response w key w'. subst key w'.
  split; [|split; [|split]].
  - split.
    + intros Hno.
      destruct (storage w !! cacheKey pathname) as [entry|] eqn:Hk.
      * destruct (decide (now - timestamp entry < 24 * 60 * 60 * 1000))
          as [Hf|Hf]; [by eauto|].
        rewrite (analyze_miss_request pathname now now' response w) in Hno;
          [done|].
        intros e He. rewrite Hk in He. by injection He as <-.
      * rewrite (analyze_miss_request pathname now now' response w) in Hno;
          [done|].
        intros e He. by rewrite Hk in He.
    + intros (entry & Hk & Hf). by eapply analyze_hit_no_request.
  - intros entry Hk Hf.
    rewrite (analyze_hit pathname now now' response w entry Hk Hf).
    split; [done|]. by rewrite applyAnalysisResults_storage.
  - intros entry Hk Hts. eapply analyze_hit_no_request; [exact Hk|]. lia.
  - intros entry Hk Hts. apply analyze_miss_request.
    intros e He. rewrite Hk in He. injection He as <-. lia.
Qed.

Lemma analysis_cache_freshness_witness :
  existsb isAnalysisRequest (added sampleStored (sampleRun 5000)) = false
  ∧ existsb isAnalysisRequest
      (added sampleStored (sampleRun (5000 + 25 * 60 * 60 * 1000))) = true
  ∧ existsb isAnalysisRequest
      (added sampleStored (sampleRun (5000 + 24 * 60 * 60 * 1000 - 1))) = false
  ∧ existsb isAnalysisRequest
      (added sampleStored (sampleRun (5000 + 24 * 60 * 60 * 1000))) = true.
Proof.
  assert (Hk : storage sampleStored !! cacheKey (str "/apps/1/reviews")
               = Some (mkCacheEntry 5000 (Some []))).
  { unfold sampleStored. simpl. apply lookup_singleton_eq. }
  split; [|split; [|split]].
  - pose proof (analysis_cache_freshness (str "/apps/1/reviews") 5000 5000
                  (Normal (mkResponse true (Some []))) sampleStored)
      as (_ & _ & Hnow & _).
    exact (Hnow _ Hk eq_refl).
  - pose proof (analysis_cache_freshness (str "/apps/1/reviews")
                  (5000 + 25 * 60 * 60 * 1000) (5000 + 25 * 60 * 60 * 1000)
                  (Normal (mkResponse true (Some []))) sampleStored)
      as (_ & _ & _ & Hold).
    apply (Hold _ Hk). simpl. lia.
  - pose proof (analysis_cache_freshness (str "/apps/1/reviews")
                  (5000 + 24 * 60 * 60 * 1000 - 1) (5000 + 24 * 60 * 60 * 1000 - 1)
                  (Normal (mkResponse true (Some []))) sampleStored)
      as (Hiff & _).
    apply Hiff. eexists. split; [exact Hk|]. simpl. lia.
  - pose proof (analysis_cache_freshness (str "/apps/1/reviews")
                  (5000 + 24 * 60 * 60 * 1000) (5000 + 24 * 60 * 60 * 1000)
                  (Normal (mkResponse true (Some []))) sampleStored)
      as (Hiff & _).
    apply not_false_is_true. intros Hno. apply Hiff in Hno.
    destruct Hno as (entry & He & Hf). rewrite Hk in He.
    injection He as <-. simpl in Hf. lia.
Defined.

(** ** The extractor *)

Lemma extracted_fields (e : DomElement) (r : Review) :
  extracted e = Some r →
  reviewId (title r) (nickname r) (content r) = Normal (id r)
  ∧ rating r = (if ratingClass e ≫= matchCount is Some d then parseDigit d else 0)
  ∧ hasResponse r
    = bool_decide (is_Some (Dom.querySelector CONFIG.SELECTORS.devResponse e))
  ∧ element r = e ∧ analysis r = None ∧ generatedResponse r = None.
Proof.
  unfold extracted, extractReviewData, extractTry, ratingClass.
  destruct (Dom.querySelector CONFIG.SELECTORS.reviewRating e) as [st|]; simpl.
  - destruct (Dom.className (info st)) as [cls|]; simpl; [|done].
    match goal with
    | |- context [reviewId ?t ?n ?c] => destruct (reviewId t n c) as [i|] eqn:Hid
    end; simpl; [|done].
    intros [= <-]. simpl. by rewrite Hid.
  - match goal with
    | |- context [reviewId ?t ?n ?c] => destruct (reviewId t n c) as [i|] eqn:Hid
    end; simpl; [|done].
    intros [= <-]. simpl. by rewrite Hid.
Qed.

(** The log of every extraction that gives no record ends in the caught
    error. *)
Lemma extract_failure_logged (e : DomElement) :
  extracted e = None →
  ∃ log err,
    (extractTry e).1 = Throw err
    ∧ (extractReviewData e).2
      = log ++ [Caught "Error extracting review data:" err].
Proof.
  unfold extracted, extractReviewData.
  destruct (extractTry e) as [[r|err] log]; simpl; [done|].
  intros _. by exists log, err.
Qed.

(** *** The rating *)

Lemma countAt_Some (s : jsstring) (d : Z) :
  countAt s = Some d ↔ isDigit d = true ∧ ∃ post, s = str "count-" ++ d :: post.
Proof.
  unfold countAt. split.
  - destruct (Js.startsWith s (str "count-")) eqn:Hs; [|done].
    apply startsWith_spec in Hs as [post ->].
    rewrite drop_app_length'; [|done].
    destruct post as [|c post]; [done|].
    destruct (isDigit c) eqn:Hc; [|done].
    intros [= <-]. eauto.
  - intros [Hd [post ->]].
    assert (Js.startsWith (str "count-" ++ d :: post) (str "count-") = true)
      as -> by (apply startsWith_spec; eauto).
    rewrite drop_app_length'; [|done]. by rewrite Hd.
Qed.


Lemma matchCount_None (s : jsstring) :
  matchCount s = None →
  ∀ pre d post, s = pre ++ str "count-" ++ d :: post → isDigit d = false.
Proof.
  induction s as [|c s IH]; intros Hm pre d post Heq.
  - destruct pre; done.
  - cbn [matchCount] in Hm. destruct (countAt (c :: s)) as [d'|] eqn:Hc; [done|].
    destruct pre as [|c' pre].
    + destruct (isDigit d) eqn:Hd; [|done].
      assert (countAt (c :: s) = Some d) as Hs.
      { apply countAt_Some. split; [done|]. exists post. exact Heq. }
      congruence.
    + injection Heq as -> ->. by eapply IH.
Qed.





(** *** The scan loop *)

Lemma scanElement_state (w : World) (e : DomElement) :
  state (scanElement w e) = scanState (state w) e.
Proof.
  unfold scanElement, scanState, extracted.
  destruct (extractReviewData e) as [[r|] log]; done.
Qed.

Lemma scanElement_rest (w : World) (e : DomElement) :
  document (scanElement w e) = document w
  ∧ storage (scanElement w e) = storage w
  ∧ timers (scanElement w e) = timers w
  ∧ trace (scanElement w e) = trace w ++ (Log <$> (extractReviewData e).2).
Proof.
  unfold scanElement.
  destruct (extractReviewData e) as [[r|] log]; done.
Qed.

Lemma foldl_scanElement_state (l : list DomElement) (w : World) :
  state (foldl scanElement w l) = foldl scanState (state w) l.
Proof.
  revert w; induction l as [|e l IH]; intros w; simpl; [done|].
  by rewrite IH, scanElement_state.
Qed.

Lemma scanState_failure (s : State) (e : DomElement) :
  extracted e = None → scanState s e = s.
Proof. unfold scanState. by intros ->. Qed.

(** *** Failures and bare containers *)

Lemma bare_extraction (e : DomElement) :
  Forall (λ s, Dom.querySelector s e = None) extractorSelectors →
  extractReviewData e
  = (Some (mkReview [] [] 0 [] [] false e None None), [Info "Extracted review:"]).
Proof.
  unfold extractorSelectors. rewrite !Forall_cons.
  intros (H1 & H2 & H3 & H4 & H5 & H6 & H7 & H8 & _).
  unfold extractReviewData, extractTry, trimmedText.
  by rewrite H1, H2, H3, H4, H5, H6, H7, H8.
Qed.

(** C5. [extractReviewData] always returns: either a record, or, when its
    [try] block throws, no record and a log that ends in the caught error.
    The scan loop leaves the state as it was at such an element and goes on
    with the elements after it. A container in which none of the
    extractor's selectors finds anything gives the record with empty
    title, content and nickname, rating 0 and no response. *)
Theorem extraction_never_propagates :
  (∀ e : DomElement,
     (∃ r log, extractReviewData e = (Some r, log))
     ∨ (∃ err log,
          (extractTry e).1 = Throw err
          ∧ extractReviewData e
            = (None, log ++ [Caught "Error extracting review data:" err])))
  ∧ (∀ (w : World) (e : DomElement),
       extracted e = None →
       state (scanElement w e) = state w
       ∧ document (scanElement w e) = document w
       ∧ trace (scanElement w e) = trace w ++ (Log <$> (extractReviewData e).2))
  ∧ (∀ (w : World) (before after : list DomElement) (e : DomElement),
       extracted e = None →
       state (foldl scanElement w (before ++ e :: after))
       = state (foldl scanElement w (before ++ after)))
  ∧ (∀ e : DomElement,
       Forall (λ s, Dom.querySelector s e = None) extractorSelectors →
       extractReviewData e
       = (Some (mkReview [] [] 0 [] [] false e None None),
          [Info "Extracted review:"])).
Proof.
  split; [|split; [|split]].
  - intros e. unfold extractReviewData.
    destruct (extractTry e) as [[r|err] log]; simpl.
    + left. eauto.
    + right. by exists err, log.
  - intros w e He. rewrite scanElement_state, scanState_failure by done.
    by destruct (scanElement_rest w e) as (? & _ & _ & ?).
  - intros w before after e He.
    rewrite !foldl_scanElement_state, !foldl_app. simpl.
    by rewrite scanState_failure.
  - apply bare_extraction.
Qed.

Lemma extraction_never_propagates_witness :
  extractReviewData svgRatedContainer
  = (None, [Caught "Error extracting review data:" TypeError])
  ∧ extractReviewData brokenTitleContainer
    = (None, [Info "Extracted review:";
              Caught "Error extracting review data:" URIError])
  ∧ state (foldl scanElement (emptyWorld [])
             [aliceReview; svgRatedContainer; bobReview])
    = state (foldl scanElement (emptyWorld []) [aliceReview; bobReview])
  ∧ extractReviewData bareContainer
    = (Some (mkReview [] [] 0 [] [] false bareContainer None None),
       [Info "Extracted review:"]).
Proof.
  destruct extraction_never_propagates as (_ & _ & Hskip & Hbare).
  split; [reflexivity|]. split; [reflexivity|]. split.
  - apply (Hskip (emptyWorld []) [aliceReview] [bobReview] svgRatedContainer).
    reflexivity.
  - apply Hbare. unfold extractorSelectors.
    repeat constructor.
Defined.

(** *** The identifier *)

(** C7. The id of an extracted record is a function of its title, nickname
    and content alone: two extractions, of whatever elements and whenever
    made, that agree on the three give the same id, and the id is the value
    of the id expression on the three. *)
Theorem id_determined_by_triple :
  ∀ (e1 e2 : DomElement) (r1 r2 : Review),
    extracted e1 = Some r1 → extracted e2 = Some r2 →
    title r1 = title r2 → nickname r1 = nickname r2 → content r1 = content r2 →
    id r1 = id r2
    ∧ reviewId (title r1) (nickname r1) (content r1) = Normal (id r1).
Proof.
  intros e1 e2 r1 r2 H1 H2 Ht Hn Hc.
  apply extracted_fields in H1 as (Hid1 & _).
  apply extracted_fields in H2 as (Hid2 & _).
  split; [|done]. rewrite <- Ht, <- Hn, <- Hc in Hid2. congruence.
Qed.

Lemma id_determined_by_triple_witness :
  ∃ r1 r2,
    extracted aliceReview = Some r1 ∧ extracted aliceReviewLater = Some r2
    ∧ hasResponse r1 ≠ hasResponse r2 ∧ rating r1 ≠ rating r2
    ∧ id r1 = id r2.
Proof.
  eexists _, _. split; [reflexivity|]. split; [reflexivity|].
  split; [done|]. split; [done|].
  apply (id_determined_by_triple aliceReview aliceReviewLater _ _
           eq_refl eq_refl eq_refl eq_refl eq_refl).
Defined.

(** The first sixteen characters of a base64 text are fixed by the first
    twelve bytes. *)
Lemma take_eq_cases {A} (n : nat) (l k : list A) :
  take n l = take n k → l = k ∨ (n ≤ length l ∧ n ≤ length k)%nat.
Proof.
  intros H.
  destruct (decide (n ≤ length l)%nat) as [Hl|Hl];
    destruct (decide (n ≤ length k)%nat) as [Hk|Hk]; [by right| | |].
  - apply (f_equal length) in H. rewrite !length_take in H. lia.
  - apply (f_equal length) in H. rewrite !length_take in H. lia.
  - left. rewrite !take_ge in H by lia. done.
Qed.

Lemma b64encode_prefix (bs bs' : list Z) :
  take 12 bs = take 12 bs' →
  take 16 (Js.b64encode bs) = take 16 (Js.b64encode bs').
Proof.
  intros H. destruct (take_eq_cases _ _ _ H) as [->|[Hl Hk]]; [done|].
  do 12 (destruct bs as [|? bs]; [simpl in Hl; lia|]).
  do 12 (destruct bs' as [|? bs']; [simpl in Hk; lia|]).
  injection H as -> -> -> -> -> -> -> -> -> -> -> ->. reflexivity.
Qed.

(** The id looks at no more than the first twelve characters of the
    percent-encoding of title, nickname and content put end to end. *)
Lemma reviewId_prefix (t1 n1 c1 t2 n2 c2 e1 e2 i1 i2 : jsstring) :
  Js.encodeURIComponent (t1 ++ n1 ++ c1) = Normal e1 →
  Js.encodeURIComponent (t2 ++ n2 ++ c2) = Normal e2 →
  take 12 e1 = take 12 e2 →
  reviewId t1 n1 c1 = Normal i1 → reviewId t2 n2 c2 = Normal i2 →
  i1 = i2.
Proof.
  unfold reviewId. intros -> -> Hp. simpl. unfold Js.btoa.
  destruct (forallb _ e1); [|done]. destruct (forallb _ e2); [|done].
  simpl. intros [= <-] [= <-]. by apply b64encode_prefix.
Qed.

(** C2, at a failing input: the records of two different reviews under the
    same title, by different authors and with different texts, get the
    same id; so do two triples that split the same text differently. *)
Theorem reviewId_collides :
  (∃ r1 r2,
     extracted aliceReview = Some r1 ∧ extracted bobReview = Some r2
     ∧ title r1 = title r2 ∧ nickname r1 ≠ nickname r2 ∧ content r1 ≠ content r2
     ∧ id r1 = id r2)
  ∧ reviewId (str "Great app overall") (str "alice") (str "Love it")
    = reviewId (str "Great app overall") (str "bob") (str "Crashes on launch")
  ∧ reviewId (str "ab") (str "c") [] = reviewId (str "a") (str "bc") [].
Proof.
  split; [|split; reflexivity].
  eexists _, _. split; [reflexivity|]. split; [reflexivity|].
  split; [reflexivity|]. split; [done|]. split; [done|]. reflexivity.
Qed.

(** ** The scan *)

Lemma injectReviewCounter_frame (w : World) :
  state (injectReviewCounter w).2 = state w
  ∧ storage (injectReviewCounter w).2 = storage w
  ∧ timers (injectReviewCounter w).2 = timers w
  ∧ ∃ es, trace (injectReviewCounter w).2 = trace w ++ es
          ∧ List.filter isScanStart es = [].
Proof.
  unfold injectReviewCounter.
  destruct (Dom.getElementById _ (document w)) as [c|]; simpl;
    (match goal with
     | |- context [Dom.docQuerySelector ?s ?d] =>
         destruct (Dom.docQuerySelector s d) as [h|]
     end; simpl;
     [ destruct (Dom.querySelector _ h) as [m|]; simpl;
       [ destruct (Dom.insertBefore _ _ _ _); simpl | ]
     | ]);
    repeat split; try done;
    first [ by exists []; rewrite app_nil_r
          | by eexists; split; [reflexivity|] ].
Qed.

Lemma updateUI_frame (w : World) :
  state (updateUI w).2 = state w
  ∧ storage (updateUI w).2 = storage w
  ∧ timers (updateUI w).2 = timers w
  ∧ ∃ es, trace (updateUI w).2 = trace w ++ es
          ∧ List.filter isScanStart es = [].
Proof.
  unfold updateUI.
  destruct (injectReviewCounter_frame
              (emit [SendMessage (UPDATE_BADGE (totalReviews (state w))
                                    (unansweredReviews (state w)))] w))
    as (Hs & Hst & Ht & es & Htr & Hes).
  rewrite Hs, Hst, Ht, Htr. repeat split; try done.
  exists (SendMessage (UPDATE_BADGE (totalReviews (state w))
                         (unansweredReviews (state w))) :: es).
  simpl. split; [by rewrite <- app_assoc | done].
Qed.

Lemma scanReviews_state (w : World) :
  state (scanReviews w).2
  = foldl scanState (mkState ∅ 0 0 (isProcessing (state w)))
      (Dom.docQuerySelectorAll CONFIG.SELECTORS.reviewContainer (document w)).
Proof.
  unfold scanReviews.
  match goal with
  | |- context [updateUI ?x] =>
      pose proof (updateUI_frame x) as (Hs & _); destruct (updateUI x) as [[[]|err] u]
  end; simpl in *.
  - destruct (0 <? totalReviews (state u)); simpl;
      by rewrite Hs, foldl_scanElement_state.
  - by rewrite Hs, foldl_scanElement_state.
Qed.

Lemma foldl_scanState_counts (l : list DomElement) (s : State) :
  totalReviews (foldl scanState s l)
  = totalReviews s + Z.of_nat (length (omap extracted l))
  ∧ unansweredReviews (foldl scanState s l)
    = unansweredReviews s
      + Z.of_nat (length (base.filter (λ r, hasResponse r = false)
                            (omap extracted l)))
  ∧ reviews (foldl scanState s l)
    = foldl (λ m r, <[id r := r]> m) (reviews s) (omap extracted l)
  ∧ isProcessing (foldl scanState s l) = isProcessing s.
Proof.
  revert s; induction l as [|e l IH]; intros s; simpl.
  - repeat split; first [done | lia].
  - destruct (IH (scanState s e)) as (Ht & Hu & Hr & Hp).
    rewrite Ht, Hu, Hr, Hp. unfold scanState.
    destruct (extracted e) as [r|]; simpl; [|done].
    change (list_omap _ _ extracted l) with (omap extracted l).
    rewrite filter_cons. destruct (hasResponse r) eqn:Hh; case_decide; try done.
    + repeat split; first [done | lia].
    + rewrite length_cons. repeat split; first [done | lia].
Qed.

(** Inserting records with fresh, pairwise different ids adds one entry
    each. *)
Lemma insert_all_sizes (recs : list Review) (m : gmap jsstring Review) :
  NoDup (id <$> recs) →
  (∀ r, r ∈ recs → m !! id r = None) →
  size (foldl (λ m r, <[id r := r]> m) m recs) = (size m + length recs)%nat
  ∧ unansweredIn (foldl (λ m r, <[id r := r]> m) m recs)
    = (unansweredIn m
       + length (base.filter (λ r, hasResponse r = false) recs))%nat.
Proof.
  revert m; induction recs as [|r recs IH]; intros m Hnd Hfresh; simpl.
  - split; lia.
  - rewrite fmap_cons in Hnd. apply NoDup_cons in Hnd as [Hr Hnd].
    assert (m !! id r = None) as Hm by (apply Hfresh; left).
    destruct (IH (<[id r := r]> m) Hnd) as (Hsz & Hun).
    { intros r' Hin. rewrite lookup_insert_ne.
      - apply Hfresh. by right.
      - intros Heq. apply Hr. rewrite Heq. by apply list_elem_of_fmap_2. }
    rewrite Hsz, Hun, map_size_insert_None by done.
    split; [lia|]. unfold unansweredIn. rewrite filter_cons.
    destruct (hasResponse r) eqn:Hh.
    + rewrite decide_False by done.
      rewrite map_filter_insert_False by (unfold unansweredEntry; simpl; congruence).
      rewrite delete_id by done. lia.
    + rewrite decide_True by done.
      rewrite map_filter_insert_True by done.
      rewrite map_size_insert_None; [simpl; lia|].
      by apply map_lookup_filter_None_2; left.
Qed.

(** C1 (as amended). Right after a scan the total is the number of
    containers whose extraction gave a record and the unanswered count is
    the number of those records without a response; when the ids of these
    records are pairwise different, the total is the number of entries of
    the snapshot and the unanswered count is the number of its entries
    with [hasResponse = false]. *)
Theorem scan_counts :
  ∀ w : World,
    let s' := state (scanReviews w).2 in
    let recs := scanned (document w) in
    totalReviews s' = Z.of_nat (length recs)
    ∧ unansweredReviews s'
      = Z.of_nat (length (base.filter (λ r, hasResponse r = false) recs))
    ∧ (NoDup (id <$> recs) →
       totalReviews s' = Z.of_nat (size (reviews s'))
       ∧ unansweredReviews s' = Z.of_nat (unansweredIn (reviews s'))).
Proof.
  intros w s' recs. subst s' recs. rewrite scanReviews_state. unfold scanned.
  destruct (foldl_scanState_counts
              (Dom.docQuerySelectorAll CONFIG.SELECTORS.reviewContainer (document w))
              (mkState ∅ 0 0 (isProcessing (state w))))
    as (Ht & Hu & Hr & _).
  rewrite Ht, Hu, Hr. simpl. split; [done|]. split; [done|].
  intros Hnd.
  destruct (insert_all_sizes _ ∅ Hnd) as (Hsz & Hun).
  { intros r _. apply lookup_empty. }
  rewrite Hsz, Hun. unfold unansweredIn.
  rewrite map_filter_empty, map_size_empty. done.
Qed.

Lemma scan_counts_witness :
  NoDup (id <$> scanned aliceAndBobShort)
  ∧ totalReviews (state (scanReviews (emptyWorld aliceAndBobShort)).2) = 2
  ∧ size (reviews (state (scanReviews (emptyWorld aliceAndBobShort)).2)) = 2%nat
  ∧ unansweredReviews (state (scanReviews (emptyWorld aliceAndBobShort)).2) = 1
  ∧ unansweredIn (reviews (state (scanReviews (emptyWorld aliceAndBobShort)).2))
    = 1%nat.
Proof.
  assert (Hnd : NoDup (id <$> scanned aliceAndBobShort)).
  { apply (bool_decide_unpack _). by vm_compute. }
  destruct (scan_counts (emptyWorld aliceAndBobShort)) as (Ht & Hu & Hmap).
  destruct (Hmap Hnd) as (Hsz & Hun).
  split; [exact Hnd|].
  assert (totalReviews (state (scanReviews (emptyWorld aliceAndBobShort)).2) = 2)
    as Ht2 by (rewrite Ht; reflexivity).
  assert (unansweredReviews (state (scanReviews (emptyWorld aliceAndBobShort)).2) = 1)
    as Hu2 by (rewrite Hu; reflexivity).
  split; [exact Ht2|]. split; [lia|]. split; [exact Hu2|]. lia.
Defined.

(** The claim as it stands fails on a document that shows one review
    twice: the scan counts two reviews, both unanswered, and the snapshot
    has one entry. *)
Lemma scan_counts_duplicate_id :
  ¬ (∀ w : World,
       totalReviews (state (scanReviews w).2)
       = Z.of_nat (size (reviews (state (scanReviews w).2)))
       ∧ unansweredReviews (state (scanReviews w).2)
         = Z.of_nat (unansweredIn (reviews (state (scanReviews w).2)))).
Proof.
  intros H. destruct (H (emptyWorld twiceAlice)) as [Ht _].
  vm_compute in Ht. discriminate Ht.
Qed.

(** ** The knowledge-base matcher *)

Section SortFacts.
Context {A : Type} (key : A → Z).

Let byKeyDesc (a b : A) : Z := key b - key a.

Lemma sortInsert_perm (x : A) (l : list A) :
  sortInsert byKeyDesc x l ≡ₚ x :: l.
Proof.
  induction l as [|y l IH]; simpl; [done|].
  destruct (byKeyDesc x y <=? 0); [done|].
  rewrite IH. apply Permutation_swap.
Qed.

Lemma arraySort_perm (l : list A) : arraySort byKeyDesc l ≡ₚ l.
Proof.
  induction l as [|x l IH]; simpl; [done|].
  by rewrite sortInsert_perm, IH.
Qed.

Lemma sortInsert_sorted (x : A) (l : list A) :
  StronglySorted (λ a b, key b ≤ key a) l →
  StronglySorted (λ a b, key b ≤ key a) (sortInsert byKeyDesc x l).
Proof.
  induction 1 as [|y l Hs IH Hy]; simpl.
  - repeat constructor.
  - destruct (byKeyDesc x y <=? 0) eqn:Hc; unfold byKeyDesc in Hc.
    + apply Z.leb_le in Hc. constructor; [by constructor|].
      constructor; [lia|].
      eapply Forall_impl; [exact Hy|]. simpl. intros; lia.
    + apply Z.leb_gt in Hc. constructor; [done|].
      rewrite sortInsert_perm. constructor; [lia|done].
Qed.

Lemma arraySort_sorted (l : list A) :
  StronglySorted (λ a b, key b ≤ key a) (arraySort byKeyDesc l).
Proof.
  induction l as [|x l IH]; simpl; [constructor|].
  by apply sortInsert_sorted.
Qed.

(** Stability: entries with equal keys keep their order. *)
Lemma sortInsert_stable (k : Z) (x : A) (l : list A) :
  base.filter (λ a, key a = k) (sortInsert byKeyDesc x l)
  = base.filter (λ a, key a = k) (x :: l).
Proof.
  induction l as [|y l IH]; simpl; [done|].
  destruct (byKeyDesc x y <=? 0) eqn:Hc; [done|].
  apply Z.leb_gt in Hc. unfold byKeyDesc in Hc.
  rewrite (filter_cons _ y), IH, !filter_cons.
  repeat case_decide; try done; lia.
Qed.

Lemma arraySort_stable (k : Z) (l : list A) :
  base.filter (λ a, key a = k) (arraySort byKeyDesc l)
  = base.filter (λ a, key a = k) l.
Proof.
  induction l as [|x l IH]; simpl; [done|].
  by rewrite sortInsert_stable, !filter_cons, IH.
Qed.
End SortFacts.

Section KnowledgeBaseFacts.
Variable toLowerCase : jsstring → jsstring.

Let keywordHits := keywordHits toLowerCase.

Lemma scoreItem_hits (reviewText : jsstring) (item : Trouble) :
  scoreItem toLowerCase reviewText item = keywordHits reviewText item.
Proof.
  unfold scoreItem, keywordHits.
  assert (∀ l z,
            foldl (λ score keyword,
                     if Js.includes reviewText (toLowerCase keyword)
                     then score + 1 else score) z l
            = z + Z.of_nat
                    (length
                       (base.filter
                          (λ kw, Js.includes reviewText (toLowerCase kw) = true)
                          l))) as H.
  { induction l as [|kw l IH]; intros z; simpl; [lia|].
    rewrite IH, filter_cons.
    destruct (Js.includes reviewText (toLowerCase kw)); case_decide;
      try done; simpl; lia. }
  by rewrite H.
Qed.

Lemma scoreTroubles_candidates (reviewText : jsstring) (troubles : list Trouble) :
  scoreTroubles toLowerCase reviewText troubles
  = (λ item, mkKBMatch (t_id item) (keywordHits reviewText item) item)
    <$> base.filter (λ item, 0 < keywordHits reviewText item) troubles.
Proof.
  unfold scoreTroubles.
  assert (∀ l acc,
            foldl (λ scores item,
                     let score := scoreItem toLowerCase reviewText item in
                     if 0 <? score
                     then scores ++ [mkKBMatch (t_id item) score item]
                     else scores) acc l
            = acc ++ ((λ item, mkKBMatch (t_id item)
                                 (keywordHits reviewText item) item)
                      <$> base.filter (λ item, 0 < keywordHits reviewText item)
                            l)) as H.
  { induction l as [|item l IH]; intros acc; simpl.
    - by rewrite app_nil_r.
    - rewrite IH, filter_cons, scoreItem_hits.
      destruct (0 <? keywordHits reviewText item) eqn:Hs.
      + apply Z.ltb_lt in Hs. rewrite decide_True by done.
        by rewrite <- app_assoc.
      + apply Z.ltb_ge in Hs. rewrite decide_False by lia. done. }
  by rewrite H.
Qed.
End KnowledgeBaseFacts.

(** C3. The matcher scores every entry with the number of its keywords
    that occur, in lower case, as substrings of the lower-cased title,
    space, content of the review; it drops the entries with score 0, ranks
    the others by descending score with equal scores in knowledge-base
    order, and returns the first three of the ranking. Keywords
    [invoice], [payment] against "I can't find my invoice" give score 1,
    and an entry without a hit is left out. *)
Theorem matchKnowledgeBase_ranks :
  ∀ (toLowerCase : jsstring → jsstring) (troubles : list Trouble)
    (review : Review),
    let candidates := kbCandidates toLowerCase review troubles in
    let result := (matchKnowledgeBase toLowerCase (Normal troubles) review).1 in
    (∃ ranked,
       result = take 3 ranked
       ∧ ranked ≡ₚ candidates
       ∧ StronglySorted (λ a b, score b ≤ score a) ranked
       ∧ ∀ k, base.filter (λ m, score m = k) ranked
              = base.filter (λ m, score m = k) candidates)
    ∧ (length result ≤ 3)%nat
    ∧ (∀ m, m ∈ result →
         0 < score m ∧ item m ∈ troubles ∧ m_id m = t_id (item m)
         ∧ score m
           = keywordHits toLowerCase
               (toLowerCase (title review ++ str " " ++ content review))
               (item m))
    ∧ (matchKnowledgeBase asciiLower (Normal [syncTrouble; invoiceTrouble])
         invoiceReview).1
      = [mkKBMatch (str "billing") 1 invoiceTrouble].
Proof.
  intros toLowerCase troubles review candidates result.
  assert (result
          = take 3 (arraySort (λ a b, score b - score a) candidates)) as Hres.
  { subst result candidates. unfold matchKnowledgeBase, kbCandidates. simpl.
    by rewrite scoreTroubles_candidates. }
  split; [|split; [|split]].
  - exists (arraySort (λ a b, score b - score a) candidates).
    split; [done|]. split; [apply (arraySort_perm score)|].
    split; [apply (arraySort_sorted score)|].
    intros k. apply (arraySort_stable score).
  - rewrite Hres, length_take. lia.
  - intros m Hm. rewrite Hres in Hm.
    apply (subseteq_take 3) in Hm.
    rewrite (arraySort_perm score) in Hm.
    subst candidates. unfold kbCandidates in Hm. simpl in Hm.
    apply list_elem_of_fmap in Hm as (it & -> & Hit).
    apply list_elem_of_filter in Hit as [Hpos Hin]. done.
  - reflexivity.
Qed.

Lemma matchKnowledgeBase_ranks_witness :
  (matchKnowledgeBase asciiLower (Normal [syncTrouble; invoiceTrouble])
     invoiceReview).1
  = [mkKBMatch (str "billing") 1 invoiceTrouble]
  ∧ kbCandidates asciiLower invoiceReview [syncTrouble; invoiceTrouble]
    = [mkKBMatch (str "billing") 1 invoiceTrouble].
Proof.
  destruct (matchKnowledgeBase_ranks asciiLower [syncTrouble; invoiceTrouble]
              invoiceReview) as (_ & _ & _ & Hex).
  split; [exact Hex | reflexivity].
Defined.

(** ** The observer *)

Lemma extract_log_no_scan (e : DomElement) :
  List.filter isScanStart (Log <$> (extractReviewData e).2) = [].
Proof.
  unfold extractReviewData, extractTry.
  destruct (Dom.querySelector CONFIG.SELECTORS.reviewRating e) as [st|]; simpl.
  - destruct (Dom.className (info st)) as [cls|]; simpl; [|done].
    match goal with
    | |- context [reviewId ?t ?n ?c] => by destruct (reviewId t n c)
    end.
  - match goal with
    | |- context [reviewId ?t ?n ?c] => by destruct (reviewId t n c)
    end.
Qed.

Lemma foldl_scanElement_frame (l : list DomElement) (w : World) :
  timers (foldl scanElement w l) = timers w
  ∧ ∃ es, trace (foldl scanElement w l) = trace w ++ es
          ∧ List.filter isScanStart es = [].
Proof.
  revert w; induction l as [|e l IH]; intros w; simpl.
  - split; [done|]. exists []. by rewrite app_nil_r.
  - destruct (IH (scanElement w e)) as (Ht & es & Htr & Hes).
    destruct (scanElement_rest w e) as (_ & _ & Ht' & Htr').
    rewrite Ht, Ht', Htr, Htr'. split; [done|].
    exists ((Log <$> (extractReviewData e).2) ++ es).
    rewrite <- app_assoc. split; [done|].
    by rewrite List.filter_app, extract_log_no_scan, Hes.
Qed.

Lemma scanReviews_frame (w : World) :
  timers (scanReviews w).2 = timers w
  ∧ isProcessing (state (scanReviews w).2) = isProcessing (state w)
  ∧ scanCount (scanReviews w).2 = S (scanCount w).
Proof.
  split; [|split].
  - unfold scanReviews.
    match goal with
    | |- context [updateUI ?x] =>
        pose proof (updateUI_frame x) as (_ & _ & Ht & _);
        destruct (updateUI x) as [[[]|err] u]
    end; simpl in *.
    + destruct (0 <? totalReviews (state u)); simpl; rewrite Ht;
        match goal with
        | |- context [foldl scanElement ?x ?l] =>
            by destruct (foldl_scanElement_frame l x) as (-> & _)
        end.
    + rewrite Ht.
      match goal with
      | |- context [foldl scanElement ?x ?l] =>
          by destruct (foldl_scanElement_frame l x) as (-> & _)
      end.
  - rewrite scanReviews_state.
    by destruct (foldl_scanState_counts
                   (Dom.docQuerySelectorAll CONFIG.SELECTORS.reviewContainer
                      (document w))
                   (mkState ∅ 0 0 (isProcessing (state w)))) as (_ & _ & _ & ->).
  - unfold scanCount, scanReviews.
    match goal with
    | |- context [updateUI ?x] =>
        pose proof (updateUI_frame x) as (_ & _ & _ & es & Htr & Hes);
        destruct (updateUI x) as [[[]|err] u]
    end; simpl in *.
    + assert (length (List.filter isScanStart (trace u))
              = S (length (List.filter isScanStart (trace w)))) as Hu.
      { rewrite Htr.
        match goal with
        | |- context [foldl scanElement ?x ?l] =>
            destruct (foldl_scanElement_frame l x) as (_ & es' & -> & Hes')
        end.
        simpl. rewrite !List.filter_app, Hes, Hes'. simpl.
        rewrite !app_nil_r, length_app. simpl. lia. }
      destruct (0 <? totalReviews (state u)); simpl; [|done].
      rewrite List.filter_app, length_app. simpl. lia.
    + rewrite Htr.
      match goal with
      | |- context [foldl scanElement ?x ?l] =>
          destruct (foldl_scanElement_frame l x) as (_ & es' & -> & Hes')
      end.
      simpl. rewrite !List.filter_app, Hes, Hes'. simpl.
      rewrite !app_nil_r, length_app. simpl. lia.
Qed.

Lemma world_eta (w : World) :
  mkWorld (state w) (document w) (storage w) (timers w) (trace w) = w.
Proof. by destruct w. Qed.

Lemma runTimers_idle (t : Z) (w : World) : timers w = [] → runTimers t w = w.
Proof.
  intros Ht. unfold runTimers, withTimers. destruct w; simpl in *.
  by subst.
Qed.

Lemma runTimers_early (t : Z) (tm : Timer) (w : World) :
  timers w = [tm] → t < due tm → runTimers t w = w.
Proof.
  intros Ht Hdue. unfold runTimers, withTimers. destruct w; simpl in *.
  subst. rewrite !filter_cons, !filter_nil.
  repeat case_decide; first [lia | done].
Qed.

Lemma runTimers_due (t : Z) (tm : Timer) (w : World) :
  timers w = [tm] → due tm ≤ t →
  runTimers t w = timerCallback tm (withTimers [] w).
Proof.
  intros Ht Hdue. unfold runTimers. rewrite Ht.
  rewrite !filter_cons, !filter_nil.
  repeat case_decide; first [lia | done].
Qed.

(** While the flag is up and the timer is not yet due, a delivery changes
    nothing. *)
Lemma deliver_in_window (w : World) (tm : Timer) (ev : Z * list MutationRecord) :
  isProcessing (state w) = true → timers w = [tm] → ev.1 < due tm →
  deliver w ev = w.
Proof.
  intros Hp Ht Hdue. unfold deliver.
  rewrite (runTimers_early _ tm) by done.
  unfold observerCallback. by rewrite Hp.
Qed.

Lemma deliver_all_in_window (w : World) (tm : Timer)
    (evs : list (Z * list MutationRecord)) :
  isProcessing (state w) = true → timers w = [tm] →
  Forall (λ ev, ev.1 < due tm) evs →
  foldl deliver w evs = w.
Proof.
  intros Hp Ht Hall. induction Hall as [|ev evs Hev _ IH]; simpl; [done|].
  by rewrite (deliver_in_window w tm).
Qed.

Lemma timerCallback_scans (tm : Timer) (w : World) :
  timers w = [] → hasNewReviews (mutations tm) = true →
  scanCount (timerCallback tm w) = S (scanCount w)
  ∧ isProcessing (state (timerCallback tm w)) = false
  ∧ timers (timerCallback tm w) = [].
Proof.
  intros Ht Hnew. unfold timerCallback. rewrite Hnew.
  match goal with
  | |- context [scanReviews ?x] =>
      destruct (scanReviews_frame x) as (Ht' & Hp & Hc)
  end.
  rewrite Ht', Hp, Hc. simpl. split; [|done].
  unfold scanCount. simpl. rewrite List.filter_app. simpl.
  by rewrite app_nil_r.
Qed.

(** C4. With the observer at rest (flag down, no timer pending), a burst
    of mutation batches, the first at [t0] and all before [t0 + 500], each
    adding a review container, is followed by exactly one rescan: none
    while the window is open, and one when the timer set by the first
    batch runs, after which the observer is at rest again. While the flag
    is up and the timer pending, a further batch neither scans nor sets a
    timer. *)
Theorem burst_gives_one_rescan :
  (∀ (w : World) (t0 T : Z) (first : list MutationRecord)
     (rest : list (Z * list MutationRecord)),
     isProcessing (state w) = false → timers w = [] →
     hasNewReviews first = true →
     Forall (λ ev, t0 ≤ ev.1 < t0 + 500 ∧ hasNewReviews ev.2 = true) rest →
     t0 + 500 ≤ T →
     let during := foldl deliver w ((t0, first) :: rest) in
     let after := runTimers T during in
     scanCount during = scanCount w
     ∧ scanCount after = S (scanCount w)
     ∧ isProcessing (state after) = false
     ∧ timers after = [])
  ∧ (∀ (w : World) (tm : Timer) (ev : Z * list MutationRecord),
       isProcessing (state w) = true → timers w = [tm] → ev.1 < due tm →
       deliver w ev = w).
Proof.
  split; [|apply deliver_in_window].
  intros w t0 T first rest Hidle Hnone Hfirst Hrest HT during after.
  set (w1 := deliver w (t0, first)).
  assert (w1 = withTimers [mkTimer (t0 + 500) first]
                 (withState
                    (λ s, mkState (reviews s) (totalReviews s)
                            (unansweredReviews s) true) w)) as Hw1.
  { subst w1. unfold deliver. simpl. rewrite runTimers_idle by done.
    unfold observerCallback. rewrite Hidle. simpl. by rewrite Hnone. }
  assert (during = w1) as Hduring.
  { subst during. simpl. fold w1.
    apply (deliver_all_in_window w1 (mkTimer (t0 + 500) first)).
    - by rewrite Hw1.
    - by rewrite Hw1.
    - eapply Forall_impl; [exact Hrest|]. simpl. intros ev [Hev _]. lia. }
  subst after. rewrite Hduring.
  split; [by rewrite Hw1|].
  rewrite (runTimers_due T (mkTimer (t0 + 500) first));
    [|by rewrite Hw1|simpl; lia].
  destruct (timerCallback_scans (mkTimer (t0 + 500) first) (withTimers [] w1))
    as (Hc & Hp & Ht); [done|done|].
  rewrite Hc, Hp, Ht. by rewrite Hw1.
Qed.

Lemma burst_gives_one_rescan_witness :
  scanCount (foldl deliver (emptyWorld []) sampleBurst) = 0%nat
  ∧ scanCount (runTimers 1500 (foldl deliver (emptyWorld []) sampleBurst))
    = 1%nat.
Proof.
  destruct burst_gives_one_rescan as (Hburst & _).
  destruct (Hburst (emptyWorld []) 1000 1500 (addition (nodeOf aliceReview))
              [(1120, addition (nodeOf bobReview));
               (1499, addition (nodeOf aliceReviewLater))])
    as (Hduring & Hafter & _).
  - reflexivity.
  - reflexivity.
  - reflexivity.
  - repeat constructor; simpl; lia.
  - lia.
  - split; [exact Hduring | exact Hafter].
Defined.

(** ** The DOM *)

Lemma Node_ind (Q : Node → Prop) :
  (∀ d, Q (TextNode d)) →
  (∀ inf ch, Forall Q ch → Q (Element inf ch)) →
  ∀ n, Q n.
Proof.
  intros Ht He. fix IH 1. intros [d|inf ch]; [apply Ht|].
  apply He. induction ch as [|c ch IHch]; constructor; [apply IH | exact IHch].
Qed.

Lemma nodeElements_Element (ancs : list ElemInfo) (inf : ElemInfo) (ch : Forest) :
  Dom.nodeElements ancs (Element inf ch)
  = mkDomElement [] ancs inf ch :: Dom.elementsFrom (inf :: ancs) 0 ch.
Proof.
  simpl. f_equal. generalize 0%nat.
  induction ch as [|c ch IH]; intros i; simpl; [done|]. by rewrite IH.
Qed.

Lemma elementsFrom_cons (ancs : list ElemInfo) (i : nat) (c : Node) (f : Forest) :
  Dom.elementsFrom ancs i (c :: f)
  = (Dom.below i <$> Dom.nodeElements ancs c) ++ Dom.elementsFrom ancs (S i) f.
Proof. reflexivity. Qed.

Lemma elementsFrom_app (ancs : list ElemInfo) (i : nat) (f1 f2 : Forest) :
  Dom.elementsFrom ancs i (f1 ++ f2)
  = Dom.elementsFrom ancs i f1 ++ Dom.elementsFrom ancs (i + length f1) f2.
Proof.
  revert i; induction f1 as [|c f1 IH]; intros i; simpl.
  - by rewrite Nat.add_0_r.
  - rewrite IH, <- app_assoc. do 3 f_equal. lia.
Qed.

Section CountFacts.
Variable P : ElemInfo → bool.

Lemma countNode_Element (inf : ElemInfo) (ch : Forest) :
  countNode P (Element inf ch)
  = ((if P inf then 1 else 0) + countForest P ch)%nat.
Proof.
  reflexivity.
Qed.

Lemma countForest_app (f1 f2 : Forest) :
  countForest P (f1 ++ f2) = (countForest P f1 + countForest P f2)%nat.
Proof. induction f1 as [|c f1 IH]; simpl; [done|]. rewrite IH. lia. Qed.

Lemma filter_below_length (i : nat) (l : list DomElement) :
  length (base.filter (λ d, P (info d) = true) (Dom.below i <$> l))
  = length (base.filter (λ d, P (info d) = true) l).
Proof.
  induction l as [|d l IH]; [done|].
  rewrite fmap_cons, !filter_cons. cbn [Dom.below info].
  case_decide; cbn [length]; by rewrite IH.
Qed.

Lemma nodeElements_count (n : Node) :
  ∀ ancs,
    length (base.filter (λ d, P (info d) = true) (Dom.nodeElements ancs n))
    = countNode P n.
Proof.
  induction n as [d|inf ch IH] using Node_ind; intros ancs; [done|].
  rewrite nodeElements_Element, countNode_Element, filter_cons. simpl.
  assert (∀ i,
            length (base.filter (λ d, P (info d) = true)
                      (Dom.elementsFrom (inf :: ancs) i ch))
            = countForest P ch) as Hch.
  { induction IH as [|c ch Hc _ IHch]; intros i; simpl; [done|].
    by rewrite filter_app, length_app, filter_below_length, Hc, IHch. }
  destruct (P inf); case_decide; try done; simpl; by rewrite Hch.
Qed.

(** The elements that satisfy [P] are as many as [countForest] says. *)
Lemma elementsFrom_count (ancs : list ElemInfo) (i : nat) (f : Forest) :
  length (base.filter (λ d, P (info d) = true) (Dom.elementsFrom ancs i f))
  = countForest P f.
Proof.
  revert i; induction f as [|c f IH]; intros i; simpl; [done|].
  by rewrite filter_app, length_app, filter_below_length,
       nodeElements_count, IH.
Qed.

Lemma countForest_delete (f : Forest) (i : nat) (n : Node) :
  f !! i = Some n →
  (countForest P (delete i f) + countNode P n)%nat = countForest P f.
Proof.
  revert i; induction f as [|c f IH]; intros [|i] Hi; simpl in *; try done.
  - injection Hi as ->. lia.
  - rewrite <- (IH i Hi). lia.
Qed.

Lemma countForest_alter (h : Node → Node) (f : Forest) (i : nat) (n : Node) :
  f !! i = Some n →
  (countForest P (alter h i f) + countNode P n)%nat
  = (countForest P f + countNode P (h n))%nat.
Proof.
  revert i; induction f as [|c f IH]; intros [|i] Hi; simpl in *; try done.
  - injection Hi as ->. lia.
  - specialize (IH i Hi).
    change (list_alter h i f) with (alter h i f). lia.
Qed.

Lemma countNode_onChildren (g : Forest → Forest) (inf : ElemInfo) (ch : Forest) :
  countNode P (Dom.onChildren g (Element inf ch))
  = ((if P inf then 1 else 0) + countForest P (g ch))%nat.
Proof. reflexivity. Qed.

Lemma countForest_removeNode (p : Path) :
  ∀ (f : Forest) (n : Node),
    nodeAt p f = Some n →
    (countForest P (Dom.removeNode p f) + countNode P n)%nat = countForest P f.
Proof.
  induction p as [|i p IH]; intros f n Hn; [done|].
  destruct p as [|j p'].
  - simpl in Hn. destruct (f !! i) as [m|] eqn:Hi; [|done].
    simpl in Hn. injection Hn as ->. by apply countForest_delete.
  - change (Dom.removeNode (i :: j :: p') f)
      with (alter (Dom.onChildren (Dom.removeNode (j :: p'))) i f).
    simpl in Hn. destruct (f !! i) as [m|] eqn:Hi; [|done].
    simpl in Hn. destruct m as [d|inf ch]; [done|].
    pose proof (countForest_alter (Dom.onChildren (Dom.removeNode (j :: p')))
                  f i _ Hi) as Ha.
    rewrite countNode_onChildren, countNode_Element in Ha.
    specialize (IH ch n Hn). lia.
Qed.

Lemma countForest_atForest (g : Forest → Forest) (k : nat) (p : Path) :
  (∀ ch, countForest P (g ch) = (countForest P ch + k)%nat) →
  ∀ (f ch : Forest),
    childrenAt p f = Some ch →
    countForest P (Dom.atForest p g f) = (countForest P f + k)%nat.
Proof.
  intros Hg. induction p as [|i p IH]; intros f ch Hch; simpl in *.
  - apply Hg.
  - destruct (f !! i) as [[d|inf c]|] eqn:Hi; try done.
    pose proof (countForest_alter (Dom.onChildren (Dom.atForest p g))
                  f i _ Hi) as Ha.
    rewrite countNode_onChildren, countNode_Element in Ha.
    specialize (IH c ch Hch). lia.
Qed.
End CountFacts.

(** *** Paths of elements *)

Lemma subnode_Element (q : Path) (inf : ElemInfo) (ch : Forest) :
  q ≠ [] → subnode q (Element inf ch) = nodeAt q ch.
Proof. by destruct q. Qed.

Lemma elementsFrom_subnode_aux (f : Forest) :
  Forall (λ n, ∀ ancs d, d ∈ Dom.nodeElements ancs n →
                         subnode (path d) n = Some (nodeOf d)) f →
  ∀ ancs i d,
    d ∈ Dom.elementsFrom ancs i f →
    ∃ j rest, path d = (i + j)%nat :: rest
              ∧ f !! j ≫= subnode rest = Some (nodeOf d).
Proof.
  induction 1 as [|c f Hc _ IH]; intros ancs i d Hd; simpl in Hd.
  - by apply elem_of_nil in Hd.
  - apply elem_of_app in Hd as [Hd|Hd].
    + apply list_elem_of_fmap in Hd as (d' & -> & Hd').
      exists 0%nat, (path d'). split; [simpl; f_equal; lia|].
      change (nodeOf (Dom.below i d')) with (nodeOf d').
      simpl. by apply (Hc ancs).
    + destruct (IH ancs (S i) d Hd) as (j & rest & Hp & Hn).
      exists (S j), rest. split; [rewrite Hp; f_equal; lia | done].
Qed.

Lemma nodeElements_subnode (n : Node) :
  ∀ ancs d, d ∈ Dom.nodeElements ancs n → subnode (path d) n = Some (nodeOf d).
Proof.
  induction n as [t|inf ch IH] using Node_ind; intros ancs d Hd.
  - by apply elem_of_nil in Hd.
  - rewrite nodeElements_Element in Hd.
    apply elem_of_cons in Hd as [->|Hd]; [done|].
    destruct (elementsFrom_subnode_aux ch IH _ _ _ Hd) as (j & rest & Hp & Hn).
    rewrite Hp. exact Hn.
Qed.

(** An element that a query returns sits at its path. *)
Lemma elements_nodeAt (ancs : list ElemInfo) (f : Forest) (d : DomElement) :
  d ∈ Dom.elements ancs f → nodeAt (path d) f = Some (nodeOf d).
Proof.
  intros Hd.
  destruct (elementsFrom_subnode_aux f) with (ancs := ancs) (i := 0%nat) (d := d)
    as (j & rest & Hp & Hn); [|done|].
  - apply Forall_forall. intros n _. apply nodeElements_subnode.
  - rewrite Hp. exact Hn.
Qed.

Lemma childrenAt_nodeAt (p : Path) :
  ∀ (f : Forest) (inf : ElemInfo) (ch : Forest),
    nodeAt p f = Some (Element inf ch) → childrenAt p f = Some ch.
Proof.
  induction p as [|i p IH]; intros f inf ch Hn; [done|].
  simpl in *. destruct (f !! i) as [m|]; [|done]. simpl in Hn.
  destruct p as [|j p'].
  - simpl in Hn. by injection Hn as ->.
  - destruct m as [t|inf' c']; [done|]. by apply (IH c' inf).
Qed.

(** An element at a path is among the elements of the forest. *)
Lemma elementsFrom_of_nodeAt (rest : Path) :
  ∀ (j : nat) (f : Forest) (ancs : list ElemInfo) (i : nat)
    (inf : ElemInfo) (ch : Forest),
    f !! j ≫= subnode rest = Some (Element inf ch) →
    ∃ d, d ∈ Dom.elementsFrom ancs i f
         ∧ path d = (i + j)%nat :: rest ∧ info d = inf ∧ children d = ch.
Proof.
  induction rest as [|k rest IH]; intros j f ancs i inf ch Hn;
    destruct (f !! j) as [m|] eqn:Hj; try done; simpl in Hn.
  - injection Hn as ->.
    exists (mkDomElement ((i + j)%nat :: []) ancs inf ch). split; [|done].
    rewrite <- (take_drop_middle f j _ Hj), elementsFrom_app.
    apply elem_of_app. right. rewrite elementsFrom_cons.
    apply elem_of_app. left.
    rewrite length_take_le by (apply lookup_lt_Some in Hj; lia).
    apply list_elem_of_fmap. exists (mkDomElement [] ancs inf ch).
    split; [done|]. rewrite nodeElements_Element. by left.
  - destruct m as [t|inf' ch']; [done|].
    destruct (IH k ch' (inf' :: ancs) 0%nat inf ch Hn) as (d & Hd & Hp & Hi & Hc).
    exists (Dom.below (i + j) d). split; [|by rewrite <- Hi, <- Hc; simpl; rewrite Hp].
    rewrite <- (take_drop_middle f j _ Hj), elementsFrom_app.
    apply elem_of_app. right. rewrite elementsFrom_cons.
    apply elem_of_app. left.
    rewrite length_take_le by (apply lookup_lt_Some in Hj; lia).
    apply list_elem_of_fmap. exists d. split; [done|].
    rewrite nodeElements_Element. by right.
Qed.

Lemma nodeAt_atForest (g : Forest → Forest) (k : nat) (n : Node) (p : Path) :
  ∀ (f ch : Forest),
    childrenAt p f = Some ch → g ch !! k = Some n →
    nodeAt (p ++ [k]) (Dom.atForest p g f) = Some n.
Proof.
  induction p as [|i p IH]; intros f ch Hch Hk; simpl in *.
  - injection Hch as ->. by rewrite Hk.
  - destruct (f !! i) as [[t|inf c]|] eqn:Hi; try done.
    rewrite list_lookup_alter, Hi. simpl.
    rewrite decide_True by done. simpl.
    rewrite subnode_Element by (by destruct p).
    by apply (IH c ch).
Qed.

Lemma elements_of_nodeAt (ancs : list ElemInfo) (p : Path) (f : Forest)
    (inf : ElemInfo) (ch : Forest) :
  nodeAt p f = Some (Element inf ch) →
  ∃ d, d ∈ Dom.elements ancs f ∧ path d = p ∧ info d = inf ∧ children d = ch.
Proof.
  destruct p as [|j rest]; [done|]. intros Hn.
  by apply (elementsFrom_of_nodeAt rest j f ancs 0%nat).
Qed.

(** ** The counter widget *)

Lemma counterCount_countForest (doc : Forest) :
  counterCount doc = countForest isCounter doc.
Proof. apply elementsFrom_count. Qed.

Lemma countNode_counterDiv (st : State) : countNode isCounter (counterDiv st) = 1%nat.
Proof. reflexivity. Qed.

Lemma head_elem_of {A} (l : list A) (x : A) : head l = Some x → x ∈ l.
Proof. destruct l; [done|]. intros [= ->]. by left. Qed.

Lemma counter_removed (doc : Forest) (c : DomElement) :
  Dom.getElementById "reviewllama-counter" doc = Some c →
  (counterCount (Dom.removeNode (path c) doc) < counterCount doc)%nat.
Proof.
  intros Hc. apply head_elem_of in Hc.
  apply list_elem_of_filter in Hc as [Hid Hin].
  apply elements_nodeAt in Hin.
  rewrite !counterCount_countForest.
  pose proof (countForest_removeNode isCounter _ _ _ Hin) as Hr.
  unfold nodeOf in Hr. rewrite countNode_Element in Hr.
  change (Dom.hasId (str "reviewllama-counter") (info c) = true) in Hid.
  fold (isCounter (info c)) in Hid. rewrite Hid in Hr. lia.
Qed.

Lemma counter_absent (doc : Forest) :
  Dom.getElementById "reviewllama-counter" doc = None → counterCount doc = 0%nat.
Proof.
  unfold Dom.getElementById, counterCount, counterWidgets, isCounter.
  by destruct (base.filter _ (Dom.elements [] doc)).
Qed.

(** Putting the widget among the children of an element of the document
    adds one widget, and the widget is among the elements afterwards. *)
Lemma widget_inserted (g : Forest → Forest) (st : State) (doc : Forest)
    (h : DomElement) (k : nat) :
  h ∈ Dom.elements [] doc →
  (∀ ch, countForest isCounter (g ch) = (countForest isCounter ch + 1)%nat) →
  g (children h) !! k = Some (counterDiv st) →
  counterCount (Dom.atForest (path h) g doc) = S (counterCount doc)
  ∧ ∃ d, d ∈ counterWidgets (Dom.atForest (path h) g doc)
         ∧ nodeOf d = counterDiv st.
Proof.
  intros Hh Hg Hk.
  apply elements_nodeAt in Hh. apply childrenAt_nodeAt in Hh.
  split.
  - rewrite !counterCount_countForest.
    rewrite (countForest_atForest isCounter g 1 (path h) Hg doc _ Hh). lia.
  - pose proof (nodeAt_atForest g k _ (path h) doc _ Hh Hk) as Hn.
    apply (elements_of_nodeAt []) in Hn as (d & Hd & _ & Hi & Hc).
    exists d. split.
    + apply list_elem_of_filter. split; [by rewrite Hi|done].
    + unfold nodeOf. by rewrite Hi, Hc.
Qed.

Lemma countForest_insertAt (k : nat) (st : State) (ch : Forest) :
  countForest isCounter (Dom.insertAt k (counterDiv st) ch)
  = (countForest isCounter ch + 1)%nat.
Proof.
  unfold Dom.insertAt. rewrite countForest_app.
  rewrite <- (take_drop k ch) at 3. rewrite countForest_app.
  cbn [countForest]. rewrite countNode_counterDiv. lia.
Qed.

Lemma countForest_append (st : State) (ch : Forest) :
  countForest isCounter (ch ++ [counterDiv st])
  = (countForest isCounter ch + 1)%nat.
Proof.
  rewrite countForest_app. cbn [countForest]. rewrite countNode_counterDiv. lia.
Qed.

Lemma single_widget (doc : Forest) (d : DomElement) :
  counterCount doc = 1%nat → d ∈ counterWidgets doc → counterWidgets doc = [d].
Proof.
  unfold counterCount. destruct (counterWidgets doc) as [|x [|y l]]; try done.
  intros _ Hd. apply list_elem_of_singleton in Hd. by subst.
Qed.

(** One call, on a document with at most one widget. *)
Lemma injectReviewCounter_once (w : World) :
  (counterCount (document w) ≤ 1)%nat →
  state (injectReviewCounter w).2 = state w
  ∧ (counterCount (document (injectReviewCounter w).2) ≤ 1)%nat
  ∧ ((injectReviewCounter w).1 = Normal () →
     is_Some (Dom.docQuerySelector CONFIG.SELECTORS.reviewsHeader
                (document (injectReviewCounter w).2)) →
     ∃ d, counterWidgets (document (injectReviewCounter w).2) = [d]
          ∧ nodeOf d = counterDiv (state w)).
Proof.
  intros Hle. unfold injectReviewCounter.
  set (w0 := match Dom.getElementById "reviewllama-counter" (document w) with
             | Some c => withDocument (Dom.removeNode (path c) (document w)) w
             | None => w
             end).
  assert (state w0 = state w ∧ counterCount (document w0) = 0%nat) as [Hst H0].
  { subst w0.
    destruct (Dom.getElementById "reviewllama-counter" (document w)) as [c|] eqn:Hc.
    - split; [done|]. apply counter_removed in Hc. simpl. lia.
    - split; [done|]. by apply counter_absent. }
  clearbody w0.
  destruct (Dom.docQuerySelector CONFIG.SELECTORS.reviewsHeader (document w0))
    as [h|] eqn:Hh; simpl.
  - assert (h ∈ Dom.elements [] (document w0)) as Hin.
    { apply head_elem_of in Hh. by apply list_elem_of_filter in Hh as [_ ?]. }
    destruct (Dom.querySelector (Dom.byClass "hasPopOver") h) as [m|]; simpl.
    + destruct (path m) as [|k [|k' r]]; simpl.
      * split; [done|]. split; [lia|]. done.
      * destruct (widget_inserted (Dom.insertAt k (counterDiv (state w0)))
                    (state w0) (document w0) h (length (take k (children h))) Hin)
          as (Hcnt & d & Hd & Hnode).
        { intros ch. apply countForest_insertAt. }
        { by apply list_lookup_middle. }
        rewrite H0 in Hcnt. split; [done|]. split; [lia|].
        intros _ _. exists d. split; [by apply single_widget|by rewrite <- Hst].
      * split; [done|]. split; [lia|]. done.
    + destruct (widget_inserted (λ ch, ch ++ [counterDiv (state w0)])
                  (state w0) (document w0) h (length (children h)) Hin)
        as (Hcnt & d & Hd & Hnode).
      { intros ch. apply countForest_append. }
      { by apply list_lookup_middle. }
      unfold Dom.appendChild.
      rewrite H0 in Hcnt. split; [done|]. split; [lia|].
      intros _ _. exists d. split; [by apply single_widget|by rewrite <- Hst].
  - split; [done|]. split; [lia|]. intros _ [x Hx]. congruence.
Qed.

(** C9 (as amended). On a document with at most one element of id
    [reviewllama-counter], two calls of [injectReviewCounter], with
    whatever change of the counts between them, leave at most one such
    element after each call; and when the second call returns and the
    document then has the reviews header, there is exactly one, and it is
    the widget built from the counts at the second call. *)
Theorem injectReviewCounter_twice :
  ∀ (w : World) (update : State → State),
    (counterCount (document w) ≤ 1)%nat →
    let w1 := withState update (injectReviewCounter w).2 in
    let r2 := injectReviewCounter w1 in
    (counterCount (document w1) ≤ 1)%nat
    ∧ (counterCount (document r2.2) ≤ 1)%nat
    ∧ (r2.1 = Normal () →
       is_Some (Dom.docQuerySelector CONFIG.SELECTORS.reviewsHeader
                  (document r2.2)) →
       ∃ d, counterWidgets (document r2.2) = [d]
            ∧ nodeOf d = counterDiv (state w1)
            ∧ state r2.2 = state w1).
Proof.
  intros w update Hle w1 r2.
  destruct (injectReviewCounter_once w Hle) as (_ & Hle1 & _).
  assert (counterCount (document w1) ≤ 1)%nat as Hle1' by done.
  destruct (injectReviewCounter_once w1 Hle1') as (Hst & Hle2 & Hone).
  split; [done|]. split; [done|].
  intros Hret Hhdr. destruct (Hone Hret Hhdr) as (d & Hd & Hnode).
  by exists d.
Qed.

Lemma injectReviewCounter_twice_witness :
  (counterCount pageWithHeader ≤ 1)%nat
  ∧ ∃ d,
      counterWidgets
        (document
           (injectReviewCounter
              (withState (λ _, mkState ∅ 12 5 false)
                 (injectReviewCounter (worldOf pageWithHeader 11 5)).2)).2)
      = [d]
      ∧ nodeOf d = counterDiv (mkState ∅ 12 5 false).
Proof.
  assert (Hle : (counterCount (document (worldOf pageWithHeader 11 5)) ≤ 1)%nat).
  { vm_compute. lia. }
  split; [exact Hle|].
  destruct (injectReviewCounter_twice (worldOf pageWithHeader 11 5)
              (λ _, mkState ∅ 12 5 false) Hle) as (_ & _ & Hone).
  destruct Hone as (d & Hd & Hnode & _).
  - reflexivity.
  - vm_compute. eauto.
  - exists d. split; [exact Hd | exact Hnode].
Defined.

(** The claim as it stands fails on a page where two elements already
    carry the id: each call removes the first and adds one. *)
Lemma injectReviewCounter_two_widgets_stay :
  ¬ (∀ w : World,
       (counterCount
          (document (injectReviewCounter (injectReviewCounter w).2).2) ≤ 1)%nat).
Proof.
  intros H. specialize (H (worldOf pageWithTwoWidgets 3 1)).
  vm_compute in H. lia.
Qed.

(** [insertBefore] throws when the first menu under the header is not a
    child of the header; the old widget is gone by then and none is put in. *)
Lemma injectReviewCounter_nested_menu :
  (injectReviewCounter (worldOf pageWithNestedMenu 3 1)).1 = Throw NotFoundError
  ∧ counterCount (document (injectReviewCounter (worldOf pageWithNestedMenu 3 1)).2)
    = 0%nat.
Proof. split; reflexivity. Qed.

(** * Further properties *)

(** ** What a scan sends and keeps *)

Lemma badgeUpdates_app (es1 es2 : list Effect) :
  badgeUpdates (es1 ++ es2) = badgeUpdates es1 ++ badgeUpdates es2.
Proof. apply omap_app. Qed.

Lemma badgeUpdates_logs (l : list LogEntry) : badgeUpdates (Log <$> l) = [].
Proof. induction l as [|x l IH]; [done|]. exact IH. Qed.

Lemma injectReviewCounter_logs (w : World) :
  ∃ l, trace (injectReviewCounter w).2 = trace w ++ (Log <$> l).
Proof.
  unfold injectReviewCounter.
  destruct (Dom.getElementById _ (document w)) as [c|]; simpl;
    (match goal with
     | |- context [Dom.docQuerySelector ?s ?d] =>
         destruct (Dom.docQuerySelector s d) as [h|]
     end; simpl;
     [ destruct (Dom.querySelector _ h) as [m|]; simpl;
       [ destruct (Dom.insertBefore _ _ _ _); simpl | ]
     | ]);
    first [ by exists []; rewrite app_nil_r
          | by exists [Info "Reviews header not found"] ].
Qed.

Lemma foldl_scanElement_logs (l : list DomElement) (w : World) :
  document (foldl scanElement w l) = document w
  ∧ ∃ logs, trace (foldl scanElement w l) = trace w ++ (Log <$> logs).
Proof.
  revert w; induction l as [|e l IH]; intros w; simpl.
  - split; [done|]. exists []. by rewrite app_nil_r.
  - destruct (IH (scanElement w e)) as (Hd & logs & Htr).
    destruct (scanElement_rest w e) as (Hd' & _ & _ & Htr').
    rewrite Hd, Hd', Htr, Htr'. split; [done|].
    exists ((extractReviewData e).2 ++ logs).
    by rewrite fmap_app, app_assoc.
Qed.

(** The trace of a scan: logs, one badge update with the counts the scan
    ends with, logs, and the start of the analysis when there are reviews. *)
Lemma scanReviews_trace (w : World) :
  ∃ l1 l2 tail,
    trace (scanReviews w).2
    = trace w ++ (Log <$> l1)
      ++ [SendMessage (UPDATE_BADGE (totalReviews (state (scanReviews w).2))
                         (unansweredReviews (state (scanReviews w).2)))]
      ++ (Log <$> l2) ++ tail
    ∧ (tail = [] ∨ tail = [CallAnalyzeAllReviews]).
Proof.
  unfold scanReviews.
  match goal with
  | |- context [updateUI ?x] => set (wm := x)
  end.
  assert (∃ l1, trace wm = trace w ++ (Log <$> l1)) as [l1 Hl1].
  { subst wm.
    match goal with
    | |- context [foldl scanElement ?x ?l] =>
        destruct (foldl_scanElement_logs l x) as (_ & logs & Hlogs)
    end.
    exists ([Info "Starting scanReviews()..."; Info "Found elements matching"]
            ++ logs ++ [Info "Found reviews (unanswered)"]).
    rewrite trace_logw, Hlogs. simpl.
    rewrite !fmap_app, <- !app_assoc. done. }
  pose proof (updateUI_frame wm) as (Hs & _ & _ & _).
  assert (∃ l2, trace (updateUI wm).2
                = trace wm ++ [SendMessage (UPDATE_BADGE (totalReviews (state wm))
                                              (unansweredReviews (state wm)))]
                  ++ (Log <$> l2)) as [l2 Hl2].
  { unfold updateUI.
    match goal with
    | |- context [injectReviewCounter ?x] =>
        destruct (injectReviewCounter_logs x) as [l2 H2]
    end.
    exists l2. rewrite H2. simpl. by rewrite <- app_assoc. }
  clearbody wm.
  destruct (updateUI wm) as [[[]|err] u]; simpl in *.
  - destruct (0 <? totalReviews (state u)); simpl; rewrite Hs, Hl2, Hl1.
    + exists l1, l2, [CallAnalyzeAllReviews].
      split; [by rewrite <- !app_assoc | by right].
    + exists l1, l2, []. split; [by rewrite <- !app_assoc, app_nil_r | by left].
  - rewrite Hs, Hl2, Hl1. exists l1, l2, [].
    split; [by rewrite <- !app_assoc, app_nil_r | by left].
Qed.

(** X1. A scan sends exactly one badge update, and its payload is the pair
    of counts the scan ends with, which is also what the listener answers
    to [GET_STATS] afterwards. *)
Theorem scan_sends_one_badge_update :
  ∀ w : World,
    let w' := (scanReviews w).2 in
    badgeUpdates (added w w')
    = [(totalReviews (state w'), unansweredReviews (state w'))]
    ∧ onMessage GET_STATS w'
      = Some (mkStatsResponse true (totalReviews (state w'))
                (unansweredReviews (state w')))
    ∧ totalReviews (state w') = Z.of_nat (length (scanned (document w))).
Proof.
  intros w w'. subst w'. split; [|split; [done|]].
  - destruct (scanReviews_trace w) as (l1 & l2 & tail & Htr & Htail).
    unfold added. rewrite Htr, drop_app_length.
    rewrite !badgeUpdates_app, !badgeUpdates_logs. simpl.
    by destruct Htail as [-> | ->].
  - rewrite scanReviews_state.
    by destruct (foldl_scanState_counts
                   (Dom.docQuerySelectorAll CONFIG.SELECTORS.reviewContainer
                      (document w))
                   (mkState ∅ 0 0 (isProcessing (state w)))) as (-> & _).
Qed.

Lemma scanReviews_reviews (w : World) :
  reviews (state (scanReviews w).2)
  = foldl (λ m r, <[id r := r]> m) ∅ (scanned (document w)).
Proof.
  rewrite scanReviews_state. unfold scanned.
  by destruct (foldl_scanState_counts
                 (Dom.docQuerySelectorAll CONFIG.SELECTORS.reviewContainer
                    (document w))
                 (mkState ∅ 0 0 (isProcessing (state w)))) as (_ & _ & -> & _).
Qed.

Lemma foldl_insert_lookup (recs : list Review) :
  ∀ (m : gmap jsstring Review) (k : jsstring) (r : Review),
    foldl (λ m r, <[id r := r]> m) m recs !! k = Some r →
    (r ∈ recs ∧ id r = k) ∨ m !! k = Some r.
Proof.
  induction recs as [|x recs IH]; intros m k r H; simpl in H; [by right|].
  apply IH in H as [[Hin Hid]|H].
  - left. split; [by right | done].
  - destruct (decide (id x = k)) as [Heq|Hne].
    + rewrite Heq, lookup_insert_eq in H. injection H as <-.
      left. split; [by left | done].
    + rewrite lookup_insert_ne in H by done. by right.
Qed.

Lemma foldl_insert_covers (recs : list Review) :
  ∀ (m : gmap jsstring Review) (k : jsstring),
    (k ∈ id <$> recs ∨ is_Some (m !! k)) →
    is_Some (foldl (λ m r, <[id r := r]> m) m recs !! k).
Proof.
  induction recs as [|x recs IH]; intros m k H; simpl.
  - destruct H as [H|H]; [by apply elem_of_nil in H | done].
  - apply IH. rewrite fmap_cons in H.
    destruct H as [H|H].
    + apply elem_of_cons in H as [->|H]; [|by left].
      right. rewrite lookup_insert_eq. eauto.
    + right. destruct (decide (id x = k)) as [<-|Hne].
      * rewrite lookup_insert_eq. eauto.
      * by rewrite lookup_insert_ne.
Qed.

(** X2. A scan rebuilds the snapshot from the document alone: whatever
    the state was, every entry afterwards is stored under its own id, is
    the record of a container of the scanned document, and carries neither
    an analysis nor a generated response; and every extracted record's id
    is a key of the snapshot. *)
Theorem scan_rebuilds_snapshot :
  ∀ w : World,
    let m := reviews (state (scanReviews w).2) in
    (∀ k r, m !! k = Some r →
       id r = k ∧ r ∈ scanned (document w) ∧ analysis r = None
       ∧ generatedResponse r = None
       ∧ element r ∈ Dom.docQuerySelectorAll CONFIG.SELECTORS.reviewContainer
                       (document w))
    ∧ (∀ r, r ∈ scanned (document w) → is_Some (m !! id r))
    ∧ (∀ w2, document w2 = document w → reviews (state (scanReviews w2).2) = m).
Proof.
  intros w m. subst m. rewrite scanReviews_reviews.
  split; [|split].
  - intros k r H. apply foldl_insert_lookup in H as [[Hin Hid]|H].
    + pose proof Hin as Hin'. unfold scanned in Hin'.
      apply list_elem_of_omap in Hin' as (e & He & Hr).
      apply extracted_fields in Hr as (_ & _ & _ & Hel & Ha & Hg).
      repeat split; try done. by rewrite Hel.
    + by rewrite lookup_empty in H.
  - intros r Hr. apply foldl_insert_covers. left. by apply list_elem_of_fmap_2.
  - intros w2 Hd. by rewrite scanReviews_reviews, Hd.
Qed.

(** ** [applyAnalysisResults] *)






Lemma scan_rebuilds_snapshot_witness :
  reviews (state annotatedWorld) !! str "R3JlYXQlMjBhcHAl" = Some annotatedAlice
  ∧ ∃ r, reviews (state (scanReviews annotatedWorld).2) !! str "R3JlYXQlMjBhcHAl"
         = Some r
         ∧ analysis r = None ∧ generatedResponse r = None.
Proof.
  split; [reflexivity|].
  destruct (scan_rebuilds_snapshot annotatedWorld) as (Hentry & Hkeys & _).
  destruct (Hkeys (default annotatedAlice (extracted aliceReview)))
    as [r Hr].
  { vm_compute. left. }
  exists r. split; [exact Hr|].
  destruct (Hentry _ _ Hr) as (_ & _ & Ha & Hg & _). by split.
Defined.

(** ** The safety poll *)

Lemma matches_byClass (c : string) (d : DomElement) :
  Dom.matches (Dom.byClass c) d = Dom.hasClass (str c) (info d).
Proof.
  unfold Dom.matches, Dom.byClass, Dom.matchesCompound. simpl.
  rewrite andb_true_r. by destruct (ancestors d); rewrite andb_true_r.
Qed.

Lemma containers_count (doc : Forest) :
  length (containers doc) = countForest isContainer doc.
Proof.
  unfold containers, Dom.docQuerySelectorAll, Dom.elements.
  rewrite <- (elementsFrom_count isContainer [] 0 doc).
  f_equal. apply list_filter_iff. intros d.
  unfold CONFIG.SELECTORS.reviewContainer. by rewrite matches_byClass.
Qed.

Lemma countNode_counterDiv_container (st : State) :
  countNode isContainer (counterDiv st) = 0%nat.
Proof. reflexivity. Qed.

Lemma injectReviewCounter_containers (w : World) :
  widgetsHoldNoReview (document w) →
  countForest isContainer (document (injectReviewCounter w).2)
  = countForest isContainer (document w).
Proof.
  intros Hw. unfold injectReviewCounter.
  set (w0 := match Dom.getElementById "reviewllama-counter" (document w) with
             | Some c => withDocument (Dom.removeNode (path c) (document w)) w
             | None => w
             end).
  assert (countForest isContainer (document w0)
          = countForest isContainer (document w)) as H0.
  { subst w0.
    destruct (Dom.getElementById "reviewllama-counter" (document w)) as [c|] eqn:Hc;
      [|done].
    specialize (Hw c Hc). apply head_elem_of in Hc.
    apply list_elem_of_filter in Hc as [_ Hin]. apply elements_nodeAt in Hin.
    pose proof (countForest_removeNode isContainer _ _ _ Hin) as Hr.
    simpl. lia. }
  clearbody w0. rewrite <- H0.
  destruct (Dom.docQuerySelector CONFIG.SELECTORS.reviewsHeader (document w0))
    as [h|] eqn:Hh; simpl; [|done].
  assert (childrenAt (path h) (document w0) = Some (children h)) as Hch.
  { apply head_elem_of in Hh. apply list_elem_of_filter in Hh as [_ Hin].
    apply elements_nodeAt in Hin. by apply childrenAt_nodeAt in Hin. }
  destruct (Dom.querySelector (Dom.byClass "hasPopOver") h) as [m|]; simpl.
  - destruct (path m) as [|k [|k' r]]; simpl; [done| |done].
    rewrite (countForest_atForest isContainer _ 0 (path h)) with (ch := children h);
      [lia| |done].
    intros ch. unfold Dom.insertAt. rewrite countForest_app.
    rewrite <- (take_drop k ch) at 3. rewrite countForest_app.
    cbn [countForest]. rewrite countNode_counterDiv_container. lia.
  - unfold Dom.appendChild.
    rewrite (countForest_atForest isContainer _ 0 (path h)) with (ch := children h);
      [lia| |done].
    intros ch. rewrite countForest_app. cbn [countForest].
    rewrite countNode_counterDiv_container. lia.
Qed.

Lemma scanReviews_document (w : World) :
  ∃ wm, document wm = document w
        ∧ document (scanReviews w).2 = document (injectReviewCounter wm).2.
Proof.
  unfold scanReviews, updateUI.
  match goal with
  | |- context [injectReviewCounter ?x] => exists x
  end.
  split.
  - simpl.
    match goal with
    | |- context [foldl scanElement ?x ?l] =>
        by destruct (foldl_scanElement_logs l x) as (-> & _)
    end.
  - match goal with
    | |- context [injectReviewCounter ?x] =>
        destruct (injectReviewCounter x) as [[[]|err] u]
    end; simpl; [|done].
    by destruct (0 <? totalReviews (state u)).
Qed.

Lemma length_omap_le {A B} (f : A → option B) (l : list A) :
  (length (omap f l) ≤ length l)%nat
  ∧ (length (omap f l) = length l ↔ Forall (λ x, is_Some (f x)) l).
Proof.
  induction l as [|x l [IHle IHeq]]; simpl.
  - split; [lia|]. split; [constructor | done].
  - destruct (f x) as [y|] eqn:Hx; simpl;
      change (list_omap A B f l) with (omap f l).
    + split; [lia|]. split.
      * intros H. constructor; [by rewrite Hx; eauto|]. apply IHeq. lia.
      * intros H. apply Forall_cons in H as [_ H]. apply IHeq in H. lia.
    + split; [lia|]. split; [lia|].
      intros H. apply Forall_cons in H as [[y Hy] _]. congruence.
Qed.

(** X4. The poll rescans exactly when the number of review containers
    differs from the total. After a scan (on a page where no element with
    the widget's id holds a review container) the next tick does nothing
    when every container gave a record, and rescans when the extraction of
    some container failed. *)
Theorem poll_rescans_on_mismatch :
  (∀ w : World,
     Z.of_nat (length (containers (document w))) = totalReviews (state w) →
     pollTick w = w)
  ∧ (∀ w : World,
       Z.of_nat (length (containers (document w))) ≠ totalReviews (state w) →
       scanCount (pollTick w) = S (scanCount w))
  ∧ (∀ w : World,
       widgetsHoldNoReview (document w) →
       let w' := (scanReviews w).2 in
       (Forall (λ e, is_Some (extracted e)) (containers (document w)) →
        pollTick w' = w')
       ∧ (¬ Forall (λ e, is_Some (extracted e)) (containers (document w)) →
          scanCount (pollTick w') = S (scanCount w'))).
Proof.
  assert (Hsame : ∀ w : World,
            Z.of_nat (length (containers (document w))) = totalReviews (state w) →
            pollTick w = w).
  { intros w H. unfold pollTick. fold (containers (document w)).
    by rewrite bool_decide_eq_false_2 by (intros ?; done). }
  assert (Hdiff : ∀ w : World,
            Z.of_nat (length (containers (document w))) ≠ totalReviews (state w) →
            scanCount (pollTick w) = S (scanCount w)).
  { intros w H. unfold pollTick. fold (containers (document w)).
    rewrite bool_decide_eq_true_2 by done.
    destruct (scanReviews_frame
                (logw (Info "Review count mismatch, rescanning...") w))
      as (_ & _ & ->).
    unfold scanCount. simpl. rewrite List.filter_app. simpl.
    by rewrite app_nil_r. }
  split; [exact Hsame|]. split; [exact Hdiff|].
  intros w Hw w'.
  assert (length (containers (document w')) = length (containers (document w)))
    as Hcont.
  { subst w'. rewrite !containers_count.
    destruct (scanReviews_document w) as (wm & Hd & ->).
    rewrite injectReviewCounter_containers by (by rewrite Hd). by rewrite Hd. }
  assert (totalReviews (state w')
          = Z.of_nat (length (omap extracted (containers (document w))))) as Htot.
  { subst w'. rewrite scanReviews_state.
    by destruct (foldl_scanState_counts
                   (Dom.docQuerySelectorAll CONFIG.SELECTORS.reviewContainer
                      (document w))
                   (mkState ∅ 0 0 (isProcessing (state w)))) as (-> & _). }
  destruct (length_omap_le extracted (containers (document w))) as [Hle Heq].
  split.
  - intros Hall. apply Hsame. rewrite Hcont, Htot. f_equal.
    symmetry. by apply Heq.
  - intros Hnot. apply Hdiff. rewrite Hcont, Htot.
    intros H. apply Hnot, Heq. lia.
Qed.

Lemma poll_rescans_on_mismatch_witness :
  pollTick (scanReviews (emptyWorld reviewsPage)).2
  = (scanReviews (emptyWorld reviewsPage)).2
  ∧ scanCount (pollTick (scanReviews (emptyWorld reviewsPageWithSvg)).2)
    = S (scanCount (scanReviews (emptyWorld reviewsPageWithSvg)).2).
Proof.
  destruct poll_rescans_on_mismatch as (_ & _ & Hafter).
  split.
  - apply (Hafter (emptyWorld reviewsPage)).
    + intros c Hc. vm_compute in Hc. discriminate Hc.
    + apply (bool_decide_unpack _). by vm_compute.
  - apply (Hafter (emptyWorld reviewsPageWithSvg)).
    + intros c Hc. vm_compute in Hc. discriminate Hc.
    + intros Hall. rewrite Forall_forall in Hall.
      destruct (Hall (mkDomElement [3%nat] [] (info svgRatedContainer)
                        (children svgRatedContainer))) as [r Hr].
      * vm_compute. do 2 right. left.
      * vm_compute in Hr. discriminate Hr.
Defined.

(** ** The id expression *)

Lemma lor_bound (n a b : Z) :
  0 ≤ a < 2 ^ n → 0 ≤ b < 2 ^ n → 0 ≤ Z.lor a b < 2 ^ n.
Proof.
  intros Ha Hb. split; [apply Z.lor_nonneg; lia|].
  assert (0 ≤ Z.lor a b) as Hnn by (apply Z.lor_nonneg; lia).
  destruct (decide (Z.lor a b = 0)) as [->|Hne]; [lia|].
  assert (0 < n) as Hn.
  { destruct (decide (0 < n)) as [|Hn0]; [done|]. exfalso.
    assert (2 ^ n ≤ 1).
    { destruct (decide (n = 0)) as [->|]; [done|].
      rewrite Z.pow_neg_r by lia. lia. }
    assert (a = 0) by lia. assert (b = 0) by lia. subst. by apply Hne. }
  apply Z.log2_lt_pow2; [lia|].
  rewrite Z.log2_lor by lia. apply Z.max_lub_lt.
  - destruct (decide (a = 0)) as [->|]; [done|]. apply Z.log2_lt_pow2; lia.
  - destruct (decide (b = 0)) as [->|]; [done|]. apply Z.log2_lt_pow2; lia.
Qed.

Lemma shiftr_bound (v k m : Z) :
  0 ≤ k → 0 ≤ v < m * 2 ^ k → 0 ≤ Z.shiftr v k < m.
Proof.
  intros Hk Hv. rewrite Z.shiftr_div_pow2 by done.
  assert (0 < 2 ^ k) by (apply Z.pow_pos_nonneg; lia).
  split; [apply Z.div_pos; lia|]. apply Z.div_lt_upper_bound; lia.
Qed.

Lemma land_ones_bound (v n : Z) :
  0 ≤ n → 0 ≤ Z.land v (Z.ones n) < 2 ^ n.
Proof.
  intros Hn. rewrite Z.land_ones by done. apply Z.mod_pos_bound.
  apply Z.pow_pos_nonneg; lia.
Qed.

Lemma percent_ascii (b : Z) :
  0 ≤ b < 256 → Forall (λ c, 0 ≤ c < 128) (Js.percent b).
Proof.
  intros Hb. unfold Js.percent, Js.hexDigit.
  pose proof (shiftr_bound b 4 16 ltac:(lia) ltac:(simpl; lia)).
  pose proof (land_ones_bound b 4 ltac:(lia)) as Hl.
  change (Z.ones 4) with 15 in Hl. change (2 ^ 4) with 16 in Hl.
  repeat constructor; repeat case_match; lia.
Qed.

Lemma utf8_bytes (v : Z) :
  0 ≤ v < 2097152 → Forall (λ b, 0 ≤ b < 256) (Js.utf8 v).
Proof.
  intros Hv. unfold Js.utf8.
  pose proof (land_ones_bound v 6 ltac:(lia)) as H0.
  pose proof (land_ones_bound (Z.shiftr v 6) 6 ltac:(lia)) as H6.
  pose proof (land_ones_bound (Z.shiftr v 12) 6 ltac:(lia)) as H12.
  change (Z.ones 6) with 63 in *. change (2 ^ 6) with 64 in *.
  repeat case_match; repeat constructor;
    try lia;
    try (apply (lor_bound 8); [lia|]);
    try (apply (lor_bound 8); [lia|]);
    first [ lia
          | (pose proof (shiftr_bound v 6 32 ltac:(lia) ltac:(simpl; lia)); lia)
          | (pose proof (shiftr_bound v 12 16 ltac:(lia) ltac:(simpl; lia)); lia)
          | (pose proof (shiftr_bound v 18 8 ltac:(lia) ltac:(simpl; lia)); lia) ].
Qed.

Lemma escapeCodePoint_ascii (v : Z) :
  0 ≤ v < 2097152 → Forall (λ c, 0 ≤ c < 128) (Js.escapeCodePoint v).
Proof.
  intros Hv. unfold Js.escapeCodePoint.
  pose proof (utf8_bytes v Hv) as Hb.
  induction Hb as [|b bs Hb _ IH]; [constructor|].
  rewrite bind_cons. apply Forall_app. split; [by apply percent_ascii | exact IH].
Qed.

Lemma uriUnescaped_ascii (c : Z) : Js.uriUnescaped c = true → 0 ≤ c < 128.
Proof.
  unfold Js.uriUnescaped, Js.isAlnum. rewrite orb_true_iff.
  intros [H|H]; [lia|].
  apply bool_decide_eq_true in H.
  repeat (apply elem_of_cons in H as [->|H]; [lia|]).
  by apply elem_of_nil in H.
Qed.

(** The percent-encoding is made of ASCII characters, and it fails only
    with a [URIError], and only on a text that holds a surrogate. *)
Lemma encodeURIComponent_cases (n : nat) :
  ∀ s : jsstring,
    (length s ≤ n)%nat → Forall isCodeUnit s →
    match Js.encodeURIComponent s with
    | Normal e => Forall (λ c, 0 ≤ c < 128) e
    | Throw err => err = URIError ∧ Exists isSurrogate s
    end.
Proof.
  induction n as [|n IH]; intros s Hlen Hs.
  - destruct s; [constructor | simpl in Hlen; lia].
  - destruct s as [|c rest]; [constructor|].
    apply Forall_cons in Hs as [Hc Hrest]. unfold isCodeUnit in Hc.
    simpl in Hlen. cbn [Js.encodeURIComponent].
    destruct (Js.uriUnescaped c) eqn:Hu.
    { specialize (IH rest ltac:(lia) Hrest).
      destruct (Js.encodeURIComponent rest) as [e|err]; simpl.
      - constructor; [by apply uriUnescaped_ascii | done].
      - destruct IH as [-> IH]. split; [done|]. by apply Exists_cons_tl. }
    destruct (Js.isLowSurrogate c) eqn:Hlow.
    { split; [done|]. apply Exists_cons_hd.
      unfold Js.isLowSurrogate in Hlow. unfold isSurrogate. lia. }
    destruct (Js.isHighSurrogate c) eqn:Hhigh; simpl.
    + assert (isSurrogate c) as Hsur.
      { unfold Js.isHighSurrogate in Hhigh. unfold isSurrogate. lia. }
      destruct rest as [|d rest']; [split; [done|by apply Exists_cons_hd]|].
      destruct (Js.isLowSurrogate d) eqn:Hd;
        [|split; [done|by apply Exists_cons_hd]].
      apply Forall_cons in Hrest as [Hdu Hrest'].
      specialize (IH rest' ltac:(simpl in Hlen; lia) Hrest').
      destruct (Js.encodeURIComponent rest') as [e|err]; simpl.
      * apply Forall_app. split; [|done]. apply escapeCodePoint_ascii.
        unfold Js.isHighSurrogate in Hhigh. unfold Js.isLowSurrogate in Hd. lia.
      * destruct IH as [-> _]. split; [done|]. by apply Exists_cons_hd.
    + specialize (IH rest ltac:(lia) Hrest).
      destruct (Js.encodeURIComponent rest) as [e|err]; simpl.
      * apply Forall_app. split; [|done]. apply escapeCodePoint_ascii. lia.
      * destruct IH as [-> IH]. split; [done|]. by apply Exists_cons_tl.
Qed.

Lemma b64char_alphabet (n : Z) : 0 ≤ n < 64 → isBase64Char (Js.b64char n).
Proof.
  intros Hn. unfold Js.b64char, isBase64Char. repeat case_match; lia.
Qed.

Lemma b64_sextets (a b : Z) :
  0 ≤ a < 256 → 0 ≤ b < 256 →
  0 ≤ Z.shiftr a 2 < 64
  ∧ 0 ≤ Z.shiftl (Z.land a 3) 4 < 64
  ∧ 0 ≤ Z.lor (Z.shiftl (Z.land a 3) 4) (Z.shiftr b 4) < 64
  ∧ 0 ≤ Z.shiftl (Z.land a 15) 2 < 64
  ∧ 0 ≤ Z.lor (Z.shiftl (Z.land a 15) 2) (Z.shiftr b 6) < 64
  ∧ 0 ≤ Z.land a 63 < 64.
Proof.
  intros Ha Hb.
  pose proof (shiftr_bound a 2 64 ltac:(lia) ltac:(simpl; lia)) as H1.
  pose proof (land_ones_bound a 2 ltac:(lia)) as H3.
  pose proof (land_ones_bound a 4 ltac:(lia)) as H15.
  pose proof (land_ones_bound a 6 ltac:(lia)) as H63.
  change (Z.ones 2) with 3 in H3. change (Z.ones 4) with 15 in H15.
  change (Z.ones 6) with 63 in H63.
  change (2 ^ 2) with 4 in H3. change (2 ^ 4) with 16 in H15.
  change (2 ^ 6) with 64 in H63.
  pose proof (shiftr_bound b 4 16 ltac:(lia) ltac:(simpl; lia)) as Hb4.
  pose proof (shiftr_bound b 6 4 ltac:(lia) ltac:(simpl; lia)) as Hb6.
  assert (0 ≤ Z.shiftl (Z.land a 3) 4 < 64) as Hs4.
  { rewrite Z.shiftl_mul_pow2 by lia. change (2 ^ 4) with 16. lia. }
  assert (0 ≤ Z.shiftl (Z.land a 15) 2 < 64) as Hs2.
  { rewrite Z.shiftl_mul_pow2 by lia. change (2 ^ 2) with 4. lia. }
  repeat split; try lia.
  - apply Z.lor_nonneg; lia.
  - apply (lor_bound 6); change (2 ^ 6) with 64; lia.
  - apply Z.lor_nonneg; lia.
  - apply (lor_bound 6); change (2 ^ 6) with 64; lia.
Qed.

Lemma b64encode_alphabet (n : nat) :
  ∀ bs : list Z,
    (length bs ≤ n)%nat → Forall (λ b, 0 ≤ b < 256) bs →
    Forall isBase64Char (Js.b64encode bs).
Proof.
  assert (isBase64Char 61) as Hpad by (unfold isBase64Char; lia).
  induction n as [|n IH]; intros bs Hlen Hbs.
  - destruct bs; [constructor | simpl in Hlen; lia].
  - destruct bs as [|a [|b [|c rest]]]; [constructor| | |].
    + apply Forall_cons in Hbs as [Ha _].
      destruct (b64_sextets a a Ha Ha) as (?&?&?&?&?&?).
      cbn [Js.b64encode].
      repeat (apply Forall_cons_2; [first [by apply b64char_alphabet | done]|]).
      apply Forall_nil_2.
    + apply Forall_cons in Hbs as [Ha Hbs]. apply Forall_cons in Hbs as [Hb _].
      destruct (b64_sextets a b Ha Hb) as (?&?&?&?&?&?).
      destruct (b64_sextets b b Hb Hb) as (?&?&?&?&?&?).
      cbn [Js.b64encode].
      repeat (apply Forall_cons_2; [first [by apply b64char_alphabet | done]|]).
      apply Forall_nil_2.
    + apply Forall_cons in Hbs as [Ha Hbs]. apply Forall_cons in Hbs as [Hb Hbs].
      apply Forall_cons in Hbs as [Hc Hrest].
      destruct (b64_sextets a b Ha Hb) as (?&?&?&?&?&?).
      destruct (b64_sextets b c Hb Hc) as (?&?&?&?&?&?).
      destruct (b64_sextets c c Hc Hc) as (?&?&?&?&?&?).
      cbn [Js.b64encode].
      do 4 (apply Forall_cons_2; [by apply b64char_alphabet|]).
      apply IH; [simpl in Hlen; lia | done].
Qed.

Lemma reviewId_unfold (t n c : jsstring) :
  reviewId t n c
  = match Js.encodeURIComponent (t ++ n ++ c) with
    | Normal e =>
        if forallb (λ c0, (0 <=? c0) && (c0 <=? 255)) e
        then Normal (take 16 (Js.b64encode e))
        else Throw InvalidCharacterError
    | Throw err => Throw err
    end.
Proof.
  unfold reviewId.
  destruct (Js.encodeURIComponent (t ++ n ++ c)) as [e|err]; [|reflexivity].
  change (Normal e ≫= λ e0, b ← Js.btoa e0; Normal (Js.substring0 16 b))
    with (b ← Js.btoa e; Normal (Js.substring0 16 b)).
  unfold Js.btoa. destruct (forallb _ e); reflexivity.
Qed.

(** X5. On texts of code units the id expression fails only with a
    [URIError], and only when title, nickname and content together hold a
    surrogate; otherwise it gives an id of at most 16 characters, all of
    them base64 characters. In particular it never fails on text without
    surrogates. *)
Theorem reviewId_fails_only_on_surrogates :
  ∀ t n c : jsstring,
    Forall isCodeUnit (t ++ n ++ c) →
    match reviewId t n c with
    | Normal i => (length i ≤ 16)%nat ∧ Forall isBase64Char i
    | Throw err => err = URIError ∧ Exists isSurrogate (t ++ n ++ c)
    end
    ∧ (Forall (λ u, ¬ isSurrogate u) (t ++ n ++ c) →
       ∃ i, reviewId t n c = Normal i).
Proof.
  intros t n c Hs.
  assert (match reviewId t n c with
          | Normal i => (length i ≤ 16)%nat ∧ Forall isBase64Char i
          | Throw err => err = URIError ∧ Exists isSurrogate (t ++ n ++ c)
          end) as Hmain.
  { rewrite reviewId_unfold.
    pose proof (encodeURIComponent_cases _ (t ++ n ++ c) (le_n _) Hs) as He.
    destruct (Js.encodeURIComponent (t ++ n ++ c)) as [e|err]; [|done].
    assert (forallb (λ c0, (0 <=? c0) && (c0 <=? 255)) e = true) as ->.
    { apply forallb_forall. intros x Hx. apply list_elem_of_In in Hx.
      rewrite Forall_forall in He. specialize (He x Hx). lia. }
    split.
    - rewrite length_take. lia.
    - apply Forall_take. apply (b64encode_alphabet _ e (le_n _)).
      eapply Forall_impl; [exact He|]. simpl. intros; lia. }
  split; [exact Hmain|].
  intros Hno. destruct (reviewId t n c) as [i|err]; [by eauto|].
  destruct Hmain as [_ Hex]. exfalso.
  apply Exists_exists in Hex as (u & Hu & Hsur).
  rewrite Forall_forall in Hno. by apply (Hno u).
Qed.

Lemma reviewId_fails_only_on_surrogates_witness :
  ∃ i, reviewId (str "Great app") (str "alice") (str "Love it " ++ [233; 8364])
       = Normal i.
Proof.
  destruct (reviewId_fails_only_on_surrogates (str "Great app") (str "alice")
              (str "Love it " ++ [233; 8364])) as [_ Hok].
  - apply (bool_decide_unpack _). by vm_compute.
  - apply Hok. apply (bool_decide_unpack _). by vm_compute.
Defined.

(** ** The text fields of a record *)

Lemma trimStart_head (s : jsstring) (c : Z) (rest : jsstring) :
  Js.trimStart s = c :: rest → Js.isTrimmed c = false.
Proof.
  induction s as [|a s IH]; simpl; [done|].
  destruct (Js.isTrimmed a) eqn:Ha; [exact IH|].
  by intros [= <- _].
Qed.

Lemma trimStart_suffix (s : jsstring) :
  ∃ pre, s = pre ++ Js.trimStart s ∧ Forall (λ c, Js.isTrimmed c = true) pre.
Proof.
  induction s as [|a s (pre & IH & Hpre)]; simpl.
  - by exists [].
  - destruct (Js.isTrimmed a) eqn:Ha.
    + exists (a :: pre). split; [by rewrite IH at 1|by constructor].
    + by exists [].
Qed.

Lemma trimStart_fixed (s : jsstring) :
  (∀ c rest, s = c :: rest → Js.isTrimmed c = false) → Js.trimStart s = s.
Proof.
  destruct s as [|a s]; simpl; [done|].
  intros H. by rewrite (H a s eq_refl).
Qed.

Lemma cleanEnds_nil : cleanEnds [].
Proof. split; intros c l H; [done|]. by destruct l. Qed.

Lemma cleanEnds_trim (s : jsstring) : cleanEnds (Js.trim s).
Proof.
  unfold Js.trim.
  destruct (trimStart_suffix (reverse (Js.trimStart s))) as (pre & Hpre & _).
  split.
  - intros c rest H. apply (f_equal reverse) in H.
    rewrite reverse_involutive, reverse_cons in H. rewrite H in Hpre.
    apply (f_equal reverse) in Hpre.
    rewrite reverse_involutive, !reverse_app, reverse_involutive in Hpre.
    simpl in Hpre. by apply trimStart_head in Hpre.
  - intros c init H. apply (f_equal reverse) in H.
    rewrite reverse_involutive, reverse_app in H. simpl in H.
    by apply trimStart_head in H.
Qed.

Lemma trim_fixed (s : jsstring) : cleanEnds s → Js.trim s = s.
Proof.
  intros [Hh Hl]. unfold Js.trim. rewrite (trimStart_fixed s Hh).
  rewrite trimStart_fixed; [apply reverse_involutive|].
  intros c rest H. apply (f_equal reverse) in H.
  rewrite reverse_involutive, reverse_cons in H. by apply (Hl c (reverse rest)).
Qed.

Lemma trim_idemp (s : jsstring) : Js.trim (Js.trim s) = Js.trim s.
Proof. apply trim_fixed, cleanEnds_trim. Qed.

Lemma cleanEnds_trimmedText (sel : Dom.Selector) (e : DomElement) (s : jsstring) :
  trimmedText sel e = Some s → cleanEnds s.
Proof.
  unfold trimmedText. destruct (Dom.querySelector sel e); simpl; [|done].
  intros [= <-]. apply cleanEnds_trim.
Qed.

Lemma cleanEnds_orElse (a b : option jsstring) :
  (∀ s, a = Some s → cleanEnds s) → (∀ s, b = Some s → cleanEnds s) →
  ∀ s, orElse a b = Some s → cleanEnds s.
Proof. intros Ha Hb s. destruct a as [[|c a]|]; simpl; auto. Qed.

Lemma extracted_texts (e : DomElement) (r : Review) :
  extracted e = Some r →
  title r
  = default []
      (orElse (trimmedText CONFIG.SELECTORS.reviewTitle e)
         (orElse (trimmedText (Dom.tagAttrHas "div" "ng-bind" ".value.title") e)
            (trimmedText (Dom.tagAttrHas "span" "ng-bind" ".value.title") e)))
  ∧ content r
    = default []
        (orElse (trimmedText (Dom.tagAttrHas "div" "ng-bind" ".value.review") e)
           (trimmedText (Dom.byClass "review-body") e))
  ∧ nickname r = default [] (matchBy (nicknameText e)).
Proof.
  unfold extracted, extractReviewData, extractTry, nicknameText.
  destruct (Dom.querySelector CONFIG.SELECTORS.reviewRating e) as [st|]; simpl.
  - destruct (Dom.className (info st)) as [cls|]; simpl; [|done].
    match goal with
    | |- context [reviewId ?t ?n ?c] => destruct (reviewId t n c) as [i|] eqn:Hid
    end; simpl; [|done].
    by intros [= <-].
  - match goal with
    | |- context [reviewId ?t ?n ?c] => destruct (reviewId t n c) as [i|] eqn:Hid
    end; simpl; [|done].
    by intros [= <-].
Qed.

(** The lazy group: what it captures, and that it captures whenever it can. *)
Lemma lazyGroup_sound (s g : jsstring) :
  lazyGroup s = Some g →
  g ≠ [] ∧ Forall (λ c, Js.isLineTerminator c = false) g
  ∧ ∃ post, s = g ++ [32; enDash] ++ post.
Proof.
  revert g; induction s as [|c s IH]; intros g; simpl; [done|].
  destruct (Js.isLineTerminator c) eqn:Hc; [done|].
  destruct (Js.startsWith s [32; enDash]) eqn:Hs.
  - intros [= <-]. apply startsWith_spec in Hs as [post ->].
    split; [done|]. split; [by repeat constructor|]. by exists post.
  - destruct (lazyGroup s) as [g'|]; simpl; [|done].
    intros [= <-]. destruct (IH g' eq_refl) as (_ & Hall & post & ->).
    split; [done|]. split; [by constructor|]. by exists post.
Qed.

Lemma lazyGroup_complete (g post : jsstring) :
  g ≠ [] → Forall (λ c, Js.isLineTerminator c = false) g →
  is_Some (lazyGroup (g ++ [32; enDash] ++ post)).
Proof.
  induction g as [|c g IH]; [done|]. intros _ Hall.
  apply Forall_cons in Hall as [Hc Hall]. destruct g as [|d g].
  - simpl. rewrite Hc. destruct post; by eexists.
  - destruct (IH ltac:(done) Hall) as [g' Hg'].
    change ((c :: d :: g) ++ [32; enDash] ++ post)
      with (c :: ((d :: g) ++ [32; enDash] ++ post)).
    cbn [lazyGroup]. rewrite Hc.
    destruct (Js.startsWith _ _); [by eexists|].
    rewrite Hg'. by eexists.
Qed.

Lemma matchBy_sound (s g : jsstring) :
  matchBy s = Some g →
  g ≠ [] ∧ Forall (λ c, Js.isLineTerminator c = false) g
  ∧ ∃ pre post, s = pre ++ str "by " ++ g ++ [32; enDash] ++ post.
Proof.
  assert (Hat : ∀ s, byAt s = Some g →
            g ≠ [] ∧ Forall (λ c, Js.isLineTerminator c = false) g
            ∧ ∃ post, s = str "by " ++ g ++ [32; enDash] ++ post).
  { intros s0. unfold byAt. destruct (Js.startsWith s0 (str "by ")) eqn:Hs; [|done].
    apply startsWith_spec in Hs as [rest ->]. 
    change (drop 3 (str "by " ++ rest)) with rest.
    intros H. apply lazyGroup_sound in H as (Hne & Hall & post & ->).
    split; [done|]. split; [done|]. by exists post. }
  induction s as [|c s IH]; cbn [matchBy].
  - destruct (byAt []) eqn:Hb; [|done]. intros [= ->].
    destruct (Hat _ Hb) as (Hne & Hall & post & Heq). done.
  - destruct (byAt (c :: s)) eqn:Hb.
    + intros [= ->]. destruct (Hat _ Hb) as (Hne & Hall & post & Heq).
      split; [done|]. split; [done|]. exists [], post. by rewrite Heq.
    + intros H. destruct (IH H) as (Hne & Hall & pre & post & ->).
      split; [done|]. split; [done|]. by exists (c :: pre), post.
Qed.

Lemma matchBy_byAt (s g : jsstring) : byAt s = Some g → matchBy s = Some g.
Proof. intros H. destruct s; cbn [matchBy]; by rewrite H. Qed.

Lemma matchBy_complete (pre g post : jsstring) :
  g ≠ [] → Forall (λ c, Js.isLineTerminator c = false) g →
  is_Some (matchBy (pre ++ str "by " ++ g ++ [32; enDash] ++ post)).
Proof.
  intros Hne Hall. induction pre as [|c pre IH].
  - assert (Hb : is_Some (byAt (str "by " ++ g ++ [32; enDash] ++ post))).
    { unfold byAt.
      rewrite (proj2 (startsWith_spec _ _)) by eauto.
      change (drop 3 (str "by " ++ ?x)) with x.
      by apply lazyGroup_complete. }
    destruct Hb as [g' Hb]. rewrite app_nil_l.
    rewrite (matchBy_byAt _ _ Hb). by eexists.
  - change ((c :: pre) ++ ?x) with (c :: (pre ++ x)). cbn [matchBy].
    destruct (byAt _); [by eexists|]. exact IH.
Qed.

(** X6. The text fields of an extracted record. Title and content neither
    begin nor end with a character that [trim] strips. The nickname holds
    no line terminator; when it is not empty it stands in the meta text
    between [by ] and a space and an en dash; and it is empty exactly when
    the meta text has no such occurrence with a non-empty name free of
    line terminators. *)
Theorem extracted_text_normal_forms :
  ∀ (e : DomElement) (r : Review),
    extracted e = Some r →
    cleanEnds (title r) ∧ cleanEnds (content r)
    ∧ Forall (λ c, Js.isLineTerminator c = false) (nickname r)
    ∧ (nickname r ≠ [] →
       ∃ pre post,
         nicknameText e = pre ++ str "by " ++ nickname r ++ [32; enDash] ++ post)
    ∧ (nickname r = [] ↔
       ∀ pre g post,
         nicknameText e = pre ++ str "by " ++ g ++ [32; enDash] ++ post →
         g = [] ∨ Exists (λ c, Js.isLineTerminator c = true) g).
Proof.
  intros e r He. apply extracted_texts in He as (Ht & Hc & Hn).
  split; [|split; [|split; [|split]]].
  - rewrite Ht. clear Ht Hc Hn.
    destruct (orElse _ _) as [s|] eqn:Ho; simpl; [|apply cleanEnds_nil].
    revert s Ho.
    repeat apply cleanEnds_orElse; apply cleanEnds_trimmedText.
  - rewrite Hc. clear Ht Hc Hn.
    destruct (orElse _ _) as [s|] eqn:Ho; simpl; [|apply cleanEnds_nil].
    revert s Ho.
    repeat apply cleanEnds_orElse; apply cleanEnds_trimmedText.
  - rewrite Hn. destruct (matchBy (nicknameText e)) as [g|] eqn:Hm; cbn [default].
    + by apply matchBy_sound in Hm as (_ & Hall & _).
    + constructor.
  - rewrite Hn. destruct (matchBy (nicknameText e)) as [g|] eqn:Hm; cbn [default].
    + intros _. by apply matchBy_sound in Hm as (_ & _ & Hex).
    + done.
  - rewrite Hn. destruct (matchBy (nicknameText e)) as [g|] eqn:Hm; cbn [default].
    + apply matchBy_sound in Hm as (Hne & Hall & pre & post & Heq).
      split; [done|]. intros H. destruct (H pre g post Heq) as [->|Hex]; [done|].
      apply Exists_exists in Hex as (c & Hc1 & Hc2).
      rewrite Forall_forall in Hall. specialize (Hall c Hc1). congruence.
    + split; [|done]. intros _ pre g post Heq.
      destruct g as [|c g]; [by left|]. right.
      destruct (decide (Forall (λ c, Js.isLineTerminator c = false) (c :: g)))
        as [Hall|Hall].
      * destruct (matchBy_complete pre (c :: g) post ltac:(done) Hall) as [g' Hg'].
        rewrite <- Heq, Hm in Hg'. done.
      * apply not_Forall_Exists in Hall; [|apply _].
        eapply Exists_impl; [exact Hall|]. simpl. intros x Hx.
        by destruct (Js.isLineTerminator x).
Qed.

Lemma extracted_text_normal_forms_witness :
  ∃ r, extracted aliceReviewLater = Some r
       ∧ title r = str "Great app overall" ∧ nickname r = str "alice"
       ∧ cleanEnds (title r).
Proof.
  eexists. split; [reflexivity|]. split; [reflexivity|]. split; [reflexivity|].
  destruct (extracted_text_normal_forms aliceReviewLater _ eq_refl) as (H & _).
  exact H.
Defined.

(** * The background service worker *)

(** ** The worker's key *)

Section WorkerFacts.
Variable toLowerCase : jsstring → jsstring.

Let onMessage := Worker.onMessage toLowerCase.

(** X7. [SAVE_API_KEY] is answered with success at once, before the key
    is stored: until the storage settles the old key is the one that
    [GET_API_KEY] answers. When the write succeeds the key is held and
    stored, and loading from that storage gives a usable key exactly when
    the key is not empty; when the write fails, state and storage stay as
    they were although success was answered. *)
Theorem save_api_key_round_trip :
  ∀ (w : Worker.WorkerWorld) (k : jsstring) (tabId : option Z) (draw : nat)
    (set : Completion ()),
    let w1 := (onMessage (Worker.SAVE_API_KEY k) tabId draw w).2 in
    let w2 := Worker.settle (length (Worker.pending w)) set w1 in
    (onMessage (Worker.SAVE_API_KEY k) tabId draw w).1 = Worker.Done
    ∧ (onMessage Worker.GET_API_KEY tabId draw w1).1
      = Worker.ApiKeyIs (Worker.apiKey (Worker.extensionState w))
    ∧ Worker.local w1 = Worker.local w
    ∧ Worker.pending w2 = Worker.pending w
    ∧ match set with
      | Normal _ =>
          (onMessage Worker.GET_API_KEY tabId draw w2).1
          = Worker.ApiKeyIs (Some k)
          ∧ Worker.local w2 = Some k
          ∧ (Worker.hasKey
               (Worker.extensionState
                  (Worker.loadApiKey (Normal (Worker.local w2)) Worker.initial))
             = bool_decide (k ≠ []))
      | Throw _ =>
          Worker.extensionState w2 = Worker.extensionState w
          ∧ Worker.local w2 = Worker.local w
          ∧ last (Worker.console w2)
            = Some (Worker.ConsoleError "Error saving API key:")
      end.
Proof.
  intros w k tabId draw set w1 w2. subst w1 w2. unfold Worker.settle. simpl.
  rewrite lookup_app_r by lia. rewrite Nat.sub_diag. simpl.
  assert (delete (length (Worker.pending w)) (Worker.pending w ++ [k])
          = Worker.pending w) as Hdel.
  { induction (Worker.pending w) as [|a l IH]; simpl; [done|].
    by rewrite IH. }
  split; [done|]. split; [done|]. split; [done|].
  destruct set as [[]|err]; simpl.
  - split; [exact Hdel|]. split; [done|]. split; [done|].
    by destruct k.
  - split; [exact Hdel|]. split; [done|]. split; [done|].
    by rewrite last_snoc.
Qed.

(** ** Analysis requests *)

Lemma handleReviewAnalysis_idle (data : list Worker.ReviewMsg)
    (s : Worker.ExtensionState) :
  Worker.isProcessing s = false →
  Worker.isProcessing (Worker.handleReviewAnalysis toLowerCase data s).2 = false
  ∧ (Worker.handleReviewAnalysis toLowerCase data s).1
    = if Worker.hasKey s
      then Worker.Fulfilled (Worker.mockAnalysisOf toLowerCase <$> data)
      else Worker.RejectedWith (str "API key not configured").
Proof.
  intros Hp. unfold Worker.handleReviewAnalysis.
  destruct (Worker.hasKey s); simpl; [|done]. by rewrite Hp.
Qed.

Lemma step_idle (w : Worker.WorkerWorld) (ev : Worker.Event) :
  Worker.isProcessing (Worker.extensionState w) = false →
  Worker.isProcessing (Worker.extensionState (Worker.step toLowerCase w ev))
  = false.
Proof.
  intros Hp. destruct ev as [request tabId draw|i set|result]; simpl.
  - destruct request as [bd|k| |rs|review|type]; simpl; try done.
    + destruct (handleReviewAnalysis_idle rs (Worker.extensionState w) Hp)
        as [H _].
      by destruct (Worker.handleReviewAnalysis _ _ _) as [[r|m] s].
    + by destruct (Worker.handleResponseGeneration _ _ _ _).
  - unfold Worker.settle. destruct (Worker.pending w !! i); [|done].
    by destruct set.
  - by destruct result as [[[|c k]|]|].
Qed.

Lemma replyOf_idle (w : Worker.WorkerWorld) (ev : Worker.Event) (r : Worker.Reply) :
  Worker.isProcessing (Worker.extensionState w) = false →
  Worker.replyOf toLowerCase w ev = Some r →
  r ≠ Worker.Failure (str "Analysis already in progress").
Proof.
  intros Hp. destruct ev as [request tabId draw|i set|result]; simpl; [|done..].
  intros [= <-]. destruct request as [bd|k| |rs|review|type]; simpl; try done.
  - destruct (handleReviewAnalysis_idle rs (Worker.extensionState w) Hp)
      as [_ H].
    destruct (Worker.handleReviewAnalysis _ _ _) as [[r|m] s]; simpl in *;
      [done|].
    destruct (Worker.hasKey _); [done|]. by injection H as ->.
  - unfold Worker.handleResponseGeneration.
    by destruct (Worker.hasKey _).
Qed.

(** X8. The worker is never found processing: from a state that is not
    processing, whatever messages arrive and whatever the storage does,
    the flag is down after each event, no reply says that an analysis is
    already in progress, and an analysis request is answered with the
    analysis of each review when a non-empty key is held and with
    [API key not configured] otherwise. *)
Theorem analysis_never_in_progress :
  ∀ (w : Worker.WorkerWorld) (evs : list Worker.Event),
    Worker.isProcessing (Worker.extensionState w) = false →
    let w' := foldl (Worker.step toLowerCase) w evs in
    Worker.isProcessing (Worker.extensionState w') = false
    ∧ (Worker.Failure (str "Analysis already in progress")
       ∉ Worker.replies toLowerCase w evs)
    ∧ ∀ data tabId draw,
        (onMessage (Worker.ANALYZE_REVIEWS data) tabId draw w').1
        = if Worker.hasKey (Worker.extensionState w')
          then Worker.Analysed (Worker.mockAnalysisOf toLowerCase <$> data)
          else Worker.Failure (str "API key not configured").
Proof.
  intros w evs Hp w'. subst w'.
  assert (Hinv : Worker.isProcessing
                   (Worker.extensionState (foldl (Worker.step toLowerCase) w evs))
                 = false).
  { revert w Hp. induction evs as [|ev evs IH]; intros w Hp; simpl; [done|].
    apply IH. by apply step_idle. }
  split; [exact Hinv|]. split.
  - clear Hinv. revert w Hp. induction evs as [|ev evs IH]; intros w Hp; simpl.
    + by intros ?%elem_of_nil.
    + pose proof (step_idle w ev Hp) as Hp'.
      destruct (Worker.replyOf toLowerCase w ev) as [r|] eqn:Hr.
      * apply not_elem_of_cons. split.
        -- intros Heq. by apply (replyOf_idle w ev r Hp Hr).
        -- by apply IH.
      * by apply IH.
  - intros data tabId draw. unfold onMessage. simpl.
    destruct (handleReviewAnalysis_idle data _ Hinv) as [_ H].
    destruct (Worker.handleReviewAnalysis _ _ _) as [[r|m] s]; simpl in *.
    + destruct (Worker.hasKey _); [by injection H as ->|done].
    + destruct (Worker.hasKey _); [done|by injection H as ->].
Qed.

End WorkerFacts.

Section WorkerAnalysis.
Variable toLowerCase : jsstring → jsstring.




End WorkerAnalysis.


Lemma analysis_never_in_progress_witness :
  (Worker.Failure (str "Analysis already in progress")
   ∉ Worker.replies asciiLower Worker.initial sampleEvents)
  ∧ (Worker.succeeded <$> Worker.replies asciiLower Worker.initial sampleEvents)
    = [false; true; true; true].
Proof.
  destruct (analysis_never_in_progress asciiLower Worker.initial sampleEvents
              eq_refl) as (_ & H & _).
  split; [exact H|reflexivity].
Defined.

(** ** The content script and the worker *)

(** X10. The worker has no case for the [BATCH_ANALYZE_REVIEWS] request of
    the content script: it answers [Unknown message type]. With that
    answer [analyzeAllReviews] never writes a cache entry, and unless a
    fresh entry is in the cache it leaves the state as it is and draws no
    labels. *)
Theorem batch_analysis_is_refused :
  ∀ (toLowerCase : jsstring → jsstring) (ww : Worker.WorkerWorld) (cw : World)
    (pathname : jsstring) (now now' : Z) (tabId : option Z) (draw : nat)
    (rs : list Review),
    let request := wire (BATCH_ANALYZE_REVIEWS rs) in
    let reply := (Worker.onMessage toLowerCase request tabId draw ww).1 in
    let cw' :=
      analyzeAllReviews pathname now (Normal (asResponse reply)) now' cw in
    Worker.wellTyped request
    ∧ reply = Worker.Failure (str "Unknown message type")
    ∧ Worker.extensionState
        (Worker.onMessage toLowerCase request tabId draw ww).2
      = Worker.extensionState ww
    ∧ storage cw' = storage cw
    ∧ ((if storage cw !! cacheKey pathname is Some entry
        then fresh now entry else false) = false →
       state cw' = state cw ∧ CallInjectReviewLabels ∉ added cw cw').
Proof.
  intros toLowerCase ww cw pathname now now' tabId draw rs request reply cw'.
  subst request reply cw'. simpl.
  split; [apply (bool_decide_unpack _); by vm_compute|].
  split; [done|]. split; [done|].
  unfold analyzeAllReviews. simpl.
  destruct (if storage cw !! cacheKey pathname is Some entry
            then fresh now entry else false) eqn:Hf.
  - split; [|done]. by rewrite applyAnalysisResults_storage.
  - split; [done|]. intros _. split; [done|].
    unfold added. simpl. rewrite <- !app_assoc, drop_app_length.
    intros Hin. repeat (apply elem_of_cons in Hin as [Hin|Hin]; [done|]).
    by apply elem_of_nil in Hin.
Qed.

Lemma batch_analysis_is_refused_witness :
  state (analyzeAllReviews (str "/reviews") 1000
           (Normal
              (asResponse
                 (Worker.onMessage asciiLower
                    (wire (BATCH_ANALYZE_REVIEWS [annotatedAlice])) (Some 12)
                    0%nat Worker.initial).1))
           2000 annotatedWorld)
  = state annotatedWorld.
Proof.
  destruct (batch_analysis_is_refused asciiLower Worker.initial annotatedWorld
              (str "/reviews") 1000 2000 (Some 12) 0%nat [annotatedAlice])
    as (_ & _ & _ & _ & H).
  apply H. reflexivity.
Defined.

Lemma deliverAll_app (toLowerCase : jsstring → jsstring) (tabId : option Z)
    (es1 es2 : list Effect) (ww : Worker.WorkerWorld) :
  deliverAll toLowerCase tabId (es1 ++ es2) ww
  = deliverAll toLowerCase tabId es2 (deliverAll toLowerCase tabId es1 ww).
Proof. apply foldl_app. Qed.

Lemma deliverAll_logs (toLowerCase : jsstring → jsstring) (tabId : option Z)
    (l : list LogEntry) (ww : Worker.WorkerWorld) :
  deliverAll toLowerCase tabId (Log <$> l) ww = ww.
Proof. induction l as [|e l IH]; [done|exact IH]. Qed.

(** X11. From a scan to the badge: when the one badge update of a scan
    has reached the worker, the badge of the scanned tab shows the number
    of scanned reviews without a response, in red, or nothing when there
    is none; the badges of other tabs and the worker's state are as
    before. *)
Theorem scan_sets_badge :
  ∀ (toLowerCase : jsstring → jsstring) (cw : World) (ww : Worker.WorkerWorld)
    (tabId : option Z),
    let cw' := (scanReviews cw).2 in
    let ww' := deliverAll toLowerCase tabId (added cw cw') ww in
    let u := Z.of_nat (length (unansweredScanned (document cw))) in
    Background.text (Worker.badges ww' tabId)
    = (if 0 <? u then Js.toString u else [])
    ∧ Background.color (Worker.badges ww' tabId)
      = (if 0 <? u then str "#FF3B30"
         else Background.color (Worker.badges ww tabId))
    ∧ (∀ t, t ≠ tabId → Worker.badges ww' t = Worker.badges ww t)
    ∧ Worker.extensionState ww' = Worker.extensionState ww
    ∧ Worker.pending ww' = Worker.pending ww.
Proof.
  intros toLowerCase cw ww tabId cw' ww' u. subst cw' ww' u.
  destruct (scanReviews_trace cw) as (l1 & l2 & tail & Htr & Htail).
  unfold added. rewrite Htr, drop_app_length.
  rewrite !deliverAll_app, !deliverAll_logs.
  assert (deliverAll toLowerCase tabId tail = λ x, x) as ->.
  { by destruct Htail as [-> | ->]. }
  rewrite scanReviews_state.
  destruct (foldl_scanState_counts
              (Dom.docQuerySelectorAll CONFIG.SELECTORS.reviewContainer
                 (document cw))
              (mkState ∅ 0 0 (isProcessing (state cw)))) as (_ & Hu & _).
  simpl in Hu. rewrite Z.add_0_l in Hu.
  fold (scanned (document cw)) in Hu.
  fold (unansweredScanned (document cw)) in Hu.
  simpl. rewrite Hu.
  unfold Background.handleBadgeUpdate. simpl.
  destruct (0 <? Z.of_nat (length (unansweredScanned (document cw))));
    unfold Background.setBadgeBackgroundColor, Background.setBadgeText.
  - rewrite !decide_True by done. simpl.
    repeat split; try done. intros t Hne. by rewrite !decide_False.
  - rewrite !decide_True by done. simpl.
    repeat split; try done. intros t Hne. by rewrite !decide_False.
Qed.

Lemma scan_sets_badge_witness :
  Background.text
    (Worker.badges
       (deliverAll asciiLower (Some 12)
          (added (worldOf reviewsPage 0 0) (scanReviews (worldOf reviewsPage 0 0)).2)
          Worker.initial)
       (Some 12))
  = str "1"
  ∧ Worker.badges
      (deliverAll asciiLower (Some 12)
         (added (worldOf reviewsPage 0 0) (scanReviews (worldOf reviewsPage 0 0)).2)
         Worker.initial)
      (Some 13)
    = Worker.badges Worker.initial (Some 13).
Proof.
  destruct (scan_sets_badge asciiLower (worldOf reviewsPage 0 0) Worker.initial
              (Some 12)) as (Ht & _ & Ho & _).
  split; [exact Ht|]. apply Ho. done.
Defined.

(** ** [detectLanguage] *)

Lemma foldl_count {A} (P : A → bool) (l : list A) (z : Z) :
  foldl (λ n x, if P x then n + 1 else n) z l
  = z + Z.of_nat (length (base.filter (λ x, P x = true) l)).
Proof.
  revert z. induction l as [|x l IH]; intros z; simpl; [lia|].
  rewrite IH, filter_cons.
  destruct (P x); case_decide; simpl; first [lia | done].
Qed.

Lemma detectLanguage_hits (toLowerCase : jsstring → jsstring) (text : jsstring) :
  Worker.detectLanguage toLowerCase text
  = if (2 <=? length (czechHits (toLowerCase text)))%nat
    then Worker.Cs else Worker.En.
Proof.
  unfold Worker.detectLanguage, czechHits.
  rewrite (foldl_count
             (λ word, Js.includes (toLowerCase text) (str " " ++ word ++ str " "))).
  rewrite Z.add_0_l.
  destruct (Nat.leb_spec 2
              (length
                 (base.filter
                    (λ word,
                       Js.includes (toLowerCase text)
                         (str " " ++ word ++ str " ") = true)
                    Worker.czechWords))) as [H|H].
  - by rewrite (proj2 (Z.leb_le _ _)) by lia.
  - by rewrite (proj2 (Z.leb_gt _ _)) by lia.
Qed.

(** X12. [detectLanguage] answers [cs] exactly when at least two different
    words of its list stand between spaces in the lower-cased text:
    further occurrences of one word do not count, and a text whose
    lower-case form has no space is [en]. *)
Theorem detectLanguage_needs_two_words :
  ∀ (toLowerCase : jsstring → jsstring) (text : jsstring),
    (Worker.detectLanguage toLowerCase text = Worker.Cs ↔
     ∃ w1 w2, w1 ≠ w2 ∧ w1 ∈ Worker.czechWords ∧ w2 ∈ Worker.czechWords
              ∧ Js.includes (toLowerCase text) (str " " ++ w1 ++ str " ") = true
              ∧ Js.includes (toLowerCase text) (str " " ++ w2 ++ str " ") = true)
    ∧ (32 ∉ toLowerCase text → Worker.detectLanguage toLowerCase text = Worker.En).
Proof.
  intros toLowerCase text. rewrite detectLanguage_hits.
  assert (Hnd : NoDup (czechHits (toLowerCase text))).
  { apply NoDup_filter. apply (bool_decide_unpack _). by vm_compute. }
  assert (Hin : ∀ w, w ∈ czechHits (toLowerCase text) ↔
                     Js.includes (toLowerCase text) (str " " ++ w ++ str " ") = true
                     ∧ w ∈ Worker.czechWords).
  { intros w. unfold czechHits. by rewrite list_elem_of_filter. }
  split; [split|].
  - destruct (czechHits (toLowerCase text)) as [|a [|b l]] eqn:Hh; [done..|].
    intros _. exists a, b.
    apply NoDup_cons in Hnd as [Hab _].
    assert (a ≠ b) by (intros ->; apply Hab; by left).
    destruct (proj1 (Hin a)) as [? ?]; [by left|].
    destruct (proj1 (Hin b)) as [? ?]; [right; by left|].
    done.
  - intros (w1 & w2 & Hne & H1 & H2 & Hi1 & Hi2).
    assert (w1 ∈ czechHits (toLowerCase text)) as Hw1 by by apply Hin.
    assert (w2 ∈ czechHits (toLowerCase text)) as Hw2 by by apply Hin.
    destruct (czechHits (toLowerCase text)) as [|a [|b l]]; [| |done].
    + by apply elem_of_nil in Hw1.
    + apply list_elem_of_singleton in Hw1, Hw2. congruence.
  - intros Hno.
    destruct (czechHits (toLowerCase text)) as [|a l] eqn:Hh; [done|].
    exfalso. destruct (proj1 (Hin a)) as [Hi _]; [by left|].
    apply includes_spec in Hi as (pre & post & Heq).
    apply Hno. rewrite Heq. apply elem_of_app. right. by left.
Qed.

Lemma detectLanguage_needs_two_words_witness :
  Worker.detectLanguage asciiLower (str "jeden") = Worker.En.
Proof.
  destruct (detectLanguage_needs_two_words asciiLower (str "jeden")) as [_ H].
  apply H. apply (bool_decide_unpack _). by vm_compute.
Defined.

(** ** [handleResponseGeneration] *)



Example generation_for_a_crash_report :
  Worker.response <$>
    match Worker.handleResponseGeneration asciiLower crashReport 1 analysedState with
    | Worker.Fulfilled g => Some g
    | Worker.RejectedWith _ => None
    end
  = Some
      (str "Hi bob, we apologize for the technical difficulties. We're working on a fix for this bug. We noted your comment about "
       ++ [34] ++ str "Crashes" ++ [34]
       ++ str ". We hope to improve your experience with future updates.").
Proof. by vm_compute. Qed.

(** * The popup *)

(** X14. [saveSettings] refuses exactly an input that is not empty but
    all blank, and then neither writes nor sends anything. Otherwise,
    when the storage accepts the write, the key is stored trimmed at both
    ends, the same key is sent to the worker, and loading these settings
    shows the stored toggles and, when the key is not empty, the stored
    key; saving what was loaded stores the same settings again. When the
    write fails nothing is stored or sent. *)
Theorem saveSettings_round_trip :
  ∀ (set : Completion ()) (now now' : Z) (v : Popup.View)
    (stored : Popup.Settings),
    let key := Js.trim (Popup.apiKeyInput v) in
    let r := Popup.saveSettings set now v stored in
    let loaded := Popup.loadSettings (Normal r.1.2) now' v in
    (key = [] ∧ Popup.apiKeyInput v ≠ [] →
     r.1.2 = stored ∧ r.2 = []
     ∧ Popup.type (Popup.statusDiv r.1.1) = Some Popup.StatusError)
    ∧ (¬ (key = [] ∧ Popup.apiKeyInput v ≠ []) →
       match set with
       | Normal _ =>
           r.1.2 = Popup.mkSettings (Some key) (Some (Popup.autoAnalyzeToggle v))
                     (Some (Popup.autoFillToggle v))
           ∧ r.2 = [Worker.SAVE_API_KEY key]
           ∧ cleanEnds key
           ∧ Popup.apiKeyInput loaded = key
           ∧ Popup.autoAnalyzeToggle loaded = Popup.autoAnalyzeToggle v
           ∧ Popup.autoFillToggle loaded = Popup.autoFillToggle v
           ∧ (Popup.saveSettings (Normal ()) now' loaded r.1.2).1.2 = r.1.2
       | Throw _ => r.1.2 = stored ∧ r.2 = []
       end).
Proof.
  intros set now now' v stored key r loaded. subst r loaded.
  unfold Popup.saveSettings. fold key. split.
  - intros [Hk Hv].
    rewrite (bool_decide_eq_true_2 _ Hk), (bool_decide_eq_false_2 _ Hv). done.
  - intros Hok.
    assert (bool_decide (key = []) && negb (bool_decide (Popup.apiKeyInput v = []))
            = false) as Hb.
    { apply andb_false_iff.
      destruct (decide (key = [])) as [Hk|Hk].
      - right. rewrite bool_decide_eq_true_2; [done|].
        destruct (decide (Popup.apiKeyInput v = [])); [done|]. by destruct Hok.
      - left. by rewrite bool_decide_eq_false_2. }
    rewrite Hb. destruct set as [[]|err]; simpl; [|done].
    assert (Hkey : match key with
                   | [] => Popup.apiKeyInput v
                   | c :: k => c :: k
                   end = key).
    { destruct key as [|c k] eqn:Hk; [|done].
      destruct (decide (Popup.apiKeyInput v = [])) as [->|Hne]; [done|].
      by destruct Hok. }
    split; [done|]. split; [done|]. split; [apply cleanEnds_trim|].
    split; [exact Hkey|].
    split; [by destruct (Popup.autoAnalyzeToggle v)|].
    split; [by destruct (Popup.autoFillToggle v)|].
    rewrite Hkey. assert (Js.trim key = key) as -> by apply trim_idemp.
    assert (bool_decide (key = []) && negb (bool_decide (key = [])) = false) as ->.
    { by destruct (bool_decide (key = [])). }
    simpl. by destruct (Popup.autoAnalyzeToggle v), (Popup.autoFillToggle v).
Qed.

Lemma saveSettings_round_trip_witness :
  (Popup.saveSettings (Normal ()) 0 typedPopup noSettings).1.2
  = Popup.mkSettings (Some (str "sk-test")) (Some true) (Some false)
  ∧ (Popup.saveSettings (Normal ()) 0 typedPopup noSettings).2
    = [Worker.SAVE_API_KEY (str "sk-test")].
Proof.
  destruct (saveSettings_round_trip (Normal ()) 0 0 typedPopup noSettings)
    as [_ H].
  destruct H as (H1 & H2 & _).
  - intros [Hk _]. vm_compute in Hk. discriminate Hk.
  - split; [exact H1|exact H2].
Defined.

(** X15. From the popup to the worker: when the popup has saved its
    settings and the worker has handled the message and stored the key,
    the worker holds and has stored the very key that the popup stored,
    and it holds a usable key exactly when the input was not empty. *)
Theorem saved_key_reaches_worker :
  ∀ (toLowerCase : jsstring → jsstring) (now : Z) (v : Popup.View)
    (stored : Popup.Settings) (ww : Worker.WorkerWorld),
    ¬ (Js.trim (Popup.apiKeyInput v) = [] ∧ Popup.apiKeyInput v ≠ []) →
    let r := Popup.saveSettings (Normal ()) now v stored in
    let ww' :=
      Worker.settle (length (Worker.pending ww)) (Normal ())
        (deliverToWorker toLowerCase r.2 ww) in
    Worker.apiKey (Worker.extensionState ww') = Popup.apiKey r.1.2
    ∧ Worker.local ww' = Popup.apiKey r.1.2
    ∧ Worker.pending ww' = Worker.pending ww
    ∧ (Worker.hasKey (Worker.extensionState ww') = true
       ↔ Popup.apiKeyInput v ≠ []).
Proof.
  intros toLowerCase now v stored ww Hok r ww'. subst r ww'.
  unfold Popup.saveSettings.
  assert (bool_decide (Js.trim (Popup.apiKeyInput v) = [])
          && negb (bool_decide (Popup.apiKeyInput v = [])) = false) as ->.
  { apply andb_false_iff.
    destruct (decide (Js.trim (Popup.apiKeyInput v) = [])) as [Hk|Hk].
    - right. rewrite bool_decide_eq_true_2; [done|].
      destruct (decide (Popup.apiKeyInput v = [])); [done|]. by destruct Hok.
    - left. by rewrite bool_decide_eq_false_2. }
  simpl. unfold Worker.settle. simpl.
  rewrite lookup_app_r by lia. rewrite Nat.sub_diag. simpl.
  assert (delete (length (Worker.pending ww))
            (Worker.pending ww ++ [Js.trim (Popup.apiKeyInput v)])
          = Worker.pending ww) as ->.
  { induction (Worker.pending ww) as [|a l IH]; simpl; [done|]. by rewrite IH. }
  split; [done|]. split; [done|]. split; [done|].
  unfold Worker.hasKey. simpl.
  destruct (Js.trim (Popup.apiKeyInput v)) as [|c k] eqn:Hk.
  - split; [done|]. intros Hne. by destruct Hok.
  - split; [|done]. intros _ Hv. by rewrite Hv in Hk.
Qed.

Lemma saved_key_reaches_worker_witness :
  Worker.apiKey
    (Worker.extensionState
       (Worker.settle 0 (Normal ())
          (deliverToWorker asciiLower
             (Popup.saveSettings (Normal ()) 0 typedPopup noSettings).2
             Worker.initial)))
  = Some (str "sk-test").
Proof.
  destruct (saved_key_reaches_worker asciiLower 0 typedPopup noSettings
              Worker.initial) as (H & _).
  - intros [Hk _]. vm_compute in Hk. discriminate Hk.
  - exact H.
Defined.

(** ** [updateStats] *)

Lemma countText_toString (n : Z) : Popup.countText n = Js.toString n.
Proof. unfold Popup.countText. by destruct (Z.eqb_spec n 0) as [->|]. Qed.

(** X16. What the popup shows. On a tab whose URL contains
    [appstoreconnect.apple.com], with the answer of the content script to
    [GET_STATS], the two fields show the decimal forms of the counts of
    the content script's state, after a scan the number of scanned
    records; with [lastError], without an answer, and on every other tab
    they show a dash; when the tab query fails they stay as they are. *)
Theorem updateStats_shows_counts :
  ∀ (v : Popup.View) (id : Z) (u : jsstring) (cw : World),
    (Js.includes u (str "appstoreconnect.apple.com") = true →
     let shown r :=
       Popup.updateStats (Worker.Fulfilled (Some (Popup.mkTab id (Some u)))) r v in
     Popup.totalReviews (shown (Popup.Replied (onMessage GET_STATS cw)))
     = Js.toString (totalReviews (state cw))
     ∧ Popup.unansweredReviews (shown (Popup.Replied (onMessage GET_STATS cw)))
       = Js.toString (unansweredReviews (state cw))
     ∧ Popup.totalReviews
         (shown (Popup.Replied (onMessage GET_STATS (scanReviews cw).2)))
       = Js.toString (Z.of_nat (length (scanned (document cw))))
     ∧ Popup.totalReviews (shown Popup.LastError) = str "-"
     ∧ Popup.unansweredReviews (shown Popup.LastError) = str "-"
     ∧ Popup.totalReviews (shown (Popup.Replied None)) = str "-"
     ∧ Popup.unansweredReviews (shown (Popup.Replied None)) = str "-")
    ∧ (∀ tab r,
         (if tab is Some (Popup.mkTab _ (Some u'))
          then Js.includes u' (str "appstoreconnect.apple.com") else false)
         = false →
         Popup.totalReviews (Popup.updateStats (Worker.Fulfilled tab) r v)
         = str "-"
         ∧ Popup.unansweredReviews (Popup.updateStats (Worker.Fulfilled tab) r v)
           = str "-")
    ∧ (∀ m r,
         Popup.totalReviews (Popup.updateStats (Worker.RejectedWith m) r v)
         = Popup.totalReviews v
         ∧ Popup.unansweredReviews (Popup.updateStats (Worker.RejectedWith m) r v)
           = Popup.unansweredReviews v).
Proof.
  intros v id u cw. split; [|split].
  - intros Hu shown. subst shown. unfold Popup.updateStats.
    assert (u ≠ []) as Hne.
    { intros ->. by vm_compute in Hu. }
    destruct u as [|c u]; [done|]. rewrite Hu. simpl.
    rewrite !countText_toString.
    split; [done|]. split; [done|]. split; [|done].
    rewrite scanReviews_state.
    by destruct (foldl_scanState_counts
                   (Dom.docQuerySelectorAll CONFIG.SELECTORS.reviewContainer
                      (document cw))
                   (mkState ∅ 0 0 (isProcessing (state cw)))) as (-> & _).
  - intros tab r Hno. unfold Popup.updateStats.
    destruct tab as [[i [[|c u']|]]|]; simpl in *; try done.
    by rewrite Hno.
  - done.
Qed.

Lemma updateStats_shows_counts_witness :
  Popup.totalReviews
    (Popup.updateStats (Worker.Fulfilled (Some reviewsTab))
       (Popup.Replied (onMessage GET_STATS (scanReviews (worldOf reviewsPage 0 0)).2))
       blankPopup)
  = str "2".
Proof.
  destruct (updateStats_shows_counts blankPopup 12
              (str "https://appstoreconnect.apple.com/apps/1/distribution/reviews")
              (worldOf reviewsPage 0 0)) as [H _].
  destruct H as (_ & _ & H & _); [by vm_compute|].
  exact H.
Defined.



(** ** [showStatus] *)

(** X18. A status is hidden once 3000 ms have passed since it was shown,
    but nothing cancels the timer of an earlier status: of two statuses
    shown less than 3000 ms apart the second is hidden already when the
    timer of the first runs, while its own timer is still pending. *)
Theorem status_hidden_by_earlier_timer :
  ∀ (v : Popup.View) (m1 m2 : string) (ty1 ty2 : Popup.StatusType)
    (t1 t2 t : Z),
    (t2 + 3000 ≤ t →
     Popup.displayed (Popup.statusDiv (Popup.runTimers t (Popup.showStatus m2 ty2 t2 v)))
     = false)
    ∧ (t1 + 3000 ≤ t < t2 + 3000 →
       let v2 := Popup.showStatus m2 ty2 t2 (Popup.showStatus m1 ty1 t1 v) in
       Popup.statusDiv (Popup.runTimers t v2)
       = Popup.mkStatusDiv (str m2) (Some ty2) false
       ∧ t2 + 3000 ∈ Popup.hideAt (Popup.runTimers t v2)).
Proof.
  intros v m1 m2 ty1 ty2 t1 t2 t. split.
  - intros Ht. unfold Popup.runTimers, Popup.showStatus. simpl.
    rewrite filter_app, filter_cons_True by lia.
    rewrite bool_decide_eq_false_2; [done|].
    intros H. by apply app_eq_nil in H as [_ H].
  - intros [Ht1 Ht2] v2. subst v2.
    unfold Popup.runTimers, Popup.showStatus. simpl.
    rewrite !filter_app, !filter_cons, !filter_nil.
    rewrite (decide_True (P := t1 + 3000 ≤ t)) by done.
    rewrite (decide_False (P := t2 + 3000 ≤ t)) by lia.
    rewrite (decide_False (P := ¬ t1 + 3000 ≤ t)) by tauto.
    rewrite (decide_True (P := ¬ t2 + 3000 ≤ t)) by lia.
    split.
    + rewrite bool_decide_eq_false_2; [done|].
      intros H. apply app_eq_nil in H as [H _].
      by apply app_eq_nil in H as [_ H].
    + rewrite !elem_of_app. right. by left.
Qed.

Lemma status_hidden_by_earlier_timer_witness :
  Popup.statusDiv
    (Popup.runTimers 3000
       (Popup.showStatus "Settings saved successfully!" Popup.StatusSuccess 2500
          (Popup.showStatus "Error saving settings" Popup.StatusError 0 blankPopup)))
  = Popup.mkStatusDiv (str "Settings saved successfully!")
      (Some Popup.StatusSuccess) false.
Proof.
  destruct (status_hidden_by_earlier_timer blankPopup "Error saving settings"
              "Settings saved successfully!" Popup.StatusError
              Popup.StatusSuccess 0 2500 3000) as [_ H].
  destruct H as [H _]; [lia|]. exact H.
Defined.

(** * The reply modal *)

Lemma codePoints_cons (c d : Z) (rest : jsstring) :
  Modal.codePoints (c :: d :: rest)
  = if Js.isHighSurrogate c && Js.isLowSurrogate d
    then [c; d] :: Modal.codePoints rest
    else [c] :: Modal.codePoints (d :: rest).
Proof. reflexivity. Qed.

Lemma codePoints_join (n : nat) :
  ∀ text, (length text ≤ n)%nat → mjoin (Modal.codePoints text) = text.
Proof.
  induction n as [|n IH]; intros text Hn.
  - destruct text; [done|simpl in Hn; lia].
  - destruct text as [|c [|d rest]]; [done..|].
    rewrite codePoints_cons.
    destruct (Js.isHighSurrogate c && Js.isLowSurrogate d).
    + change (mjoin ([c; d] :: ?l)) with (c :: d :: mjoin l).
      f_equal. f_equal. apply IH. simpl in Hn. lia.
    + change (mjoin ([c] :: ?l)) with (c :: mjoin l).
      f_equal. apply IH. simpl in *. lia.
Qed.

Lemma codePoints_chunks (n : nat) :
  ∀ text, (length text ≤ n)%nat →
    Forall (λ ch, (∃ c, ch = [c])
                  ∨ (∃ c d, ch = [c; d] ∧ Js.isHighSurrogate c = true
                            ∧ Js.isLowSurrogate d = true))
      (Modal.codePoints text).
Proof.
  induction n as [|n IH]; intros text Hn.
  - destruct text; [constructor|simpl in Hn; lia].
  - destruct text as [|c [|d rest]].
    + constructor.
    + constructor; [left; eauto|constructor].
    + rewrite codePoints_cons.
      destruct (Js.isHighSurrogate c && Js.isLowSurrogate d) eqn:Hcd.
      * apply andb_true_iff in Hcd as [Hc Hd].
        constructor; [right; by exists c, d|]. apply IH. simpl in Hn. lia.
      * constructor; [left; eauto|]. apply IH. simpl in *. lia.
Qed.

(** A high surrogate is never left alone in front of a low one. *)
Lemma codePoints_pairs (n : nat) :
  ∀ text pre c d post,
    (length text ≤ n)%nat →
    Modal.codePoints text = pre ++ [c] :: [d] :: post →
    Js.isHighSurrogate c && Js.isLowSurrogate d = false.
Proof.
  induction n as [|n IH]; intros text pre c d post Hn.
  - destruct text; [by destruct pre|simpl in Hn; lia].
  - destruct text as [|a [|b rest]].
    + by destruct pre.
    + by destruct pre as [|? [|? ?]].
    + rewrite codePoints_cons.
      destruct (Js.isHighSurrogate a && Js.isLowSurrogate b) eqn:Hab.
      * destruct pre as [|p pre]; [done|]. intros [= _ H].
        apply (IH rest pre c d post); [simpl in Hn; lia|done].
      * destruct pre as [|p pre].
        -- intros [= -> H]. destruct rest as [|e rest].
           ++ simpl in H. by injection H as -> _.
           ++ try rewrite codePoints_cons in H.
              destruct (Js.isHighSurrogate b && Js.isLowSurrogate e);
                [done|]. by injection H as -> _.
        -- intros [= _ H].
           apply (IH (b :: rest) pre c d post); [simpl in *; lia|done].
Qed.

(** ** The invariant of the reply path *)

Lemma fruitless_harmless (d : Modal.Did) : fruitless d → harmless d.
Proof.
  intros (Hu & Hi & _). split; [done|]. by destruct d.
Qed.

Lemma extractReviewData_log (e : DomElement) :
  Forall (λ entry, entry ≠ Info "Using cached AI response")
    (extractReviewData e).2.
Proof.
  unfold extractReviewData, extractTry.
  destruct (Dom.querySelector CONFIG.SELECTORS.reviewRating e) as [st|]; simpl.
  - destruct (Dom.className (info st)) as [cls|]; simpl.
    + match goal with
      | |- context [reviewId ?t ?n ?c] => destruct (reviewId t n c) as [i|]
      end; simpl; repeat constructor; done.
    + repeat constructor; done.
  - match goal with
    | |- context [reviewId ?t ?n ?c] => destruct (reviewId t n c) as [i|]
    end; simpl; repeat constructor; done.
Qed.

Lemma said_fruitless (l : list LogEntry) :
  Forall (λ entry, entry ≠ Info "Using cached AI response") l →
  Forall fruitless (Modal.Said <$> l).
Proof.
  intros H. apply Forall_fmap. eapply Forall_impl; [exact H|].
  intros entry Hne. split; [|split; [done|done]].
  unfold Modal.usedCache. by intros [= ->].
Qed.

Lemma omap_snoc_None {A B} (f : A → option B) (l : list A) (x : A) :
  f x = None → omap f (l ++ [x]) = omap f l.
Proof.
  intros H. rewrite omap_app. simpl. rewrite H. apply app_nil_r.
Qed.

Lemma omap_snoc_Some {A B} (f : A → option B) (l : list A) (x : A) (y : B) :
  f x = Some y → omap f (l ++ [x]) = omap f l ++ [y].
Proof. intros H. rewrite omap_app. simpl. by rewrite H. Qed.

Lemma omap_delete {A B} (f : A → option B) (l : list A) (i : nat) (x : A) :
  l !! i = Some x →
  ∃ l1 l2,
    omap f l = l1 ++ option_list (f x) ++ l2 ∧ omap f (delete i l) = l1 ++ l2.
Proof.
  intros Hi. exists (omap f (take i l)), (omap f (drop (S i) l)).
  rewrite delete_take_drop, omap_app.
  rewrite <- (take_drop_middle l i x Hi) at 1.
  rewrite omap_app. split; [|done]. f_equal. simpl.
  by destruct (f x).
Qed.

Lemma wf_frame (w w' : Modal.Page) :
  Modal.wf w →
  Modal.heap w' = Modal.heap w →
  NoDup (omap Modal.fillRef (Modal.timers w')) →
  (∀ r, r ∈ omap Modal.fillRef (Modal.timers w') →
        r ∈ omap Modal.fillRef (Modal.timers w)) →
  (∀ r t, (r, t) ∈ Modal.genUses w' →
     (r, t) ∈ Modal.genUses w
     ∨ ((r < length (Modal.heap w))%nat
        ∧ is_Some (Dom.getAttribute (str "contenteditable") (info t))
        ∧ r ∉ omap Modal.fillRef (Modal.timers w'))) →
  Modal.wf w'.
Proof.
  intros (Hnd & Hfill & Hgen) Hheap Hnd' Hsub Huses.
  split; [done|]. split.
  - intros r Hr. destruct (Hfill r (Hsub r Hr)) as (Hlt & Hnone & Hnot).
    rewrite Hheap. split; [done|]. split; [done|].
    intros Hin. apply list_elem_of_fmap in Hin as ([r' t] & -> & Hin).
    destruct (Huses _ _ Hin) as [Hold|(_ & _ & Hno)].
    + apply Hnot. apply list_elem_of_fmap. by exists (r', t).
    + by apply Hno.
  - intros r t Hin. rewrite Hheap.
    destruct (Huses _ _ Hin) as [Hold|(Hlt & Hce & _)]; [by apply Hgen|done].
Qed.

(** Only the heap, the handler, the timers and the pending generations
    matter to the invariant. *)
Lemma wf_core (w w' : Modal.Page) :
  Modal.heap w' = Modal.heap w → Modal.handler w' = Modal.handler w →
  Modal.timers w' = Modal.timers w → Modal.generating w' = Modal.generating w →
  Modal.wf w → Modal.wf w'.
Proof.
  intros Hh Hd Ht Hg Hwf. apply (wf_frame w w' Hwf Hh).
  - rewrite Ht. apply Hwf.
  - intros r. by rewrite Ht.
  - intros r t Hin. left. unfold Modal.genUses in *. by rewrite <- Ht, <- Hg, <- Hd.
Qed.

Lemma wf_alloc (w : Modal.Page) (rec : Review) (ds : list Modal.Did) :
  Modal.wf w → generatedResponse rec = None →
  Modal.wf
    (Modal.mkPage (Modal.document w) (Modal.heap w ++ [rec]) (Modal.reviews w)
       (Modal.handler w)
       (Modal.timers w ++ [Modal.AutoFill (length (Modal.heap w))])
       (Modal.generating w) ds).
Proof.
  intros (Hnd & Hfill & Hgen) Hrec. unfold Modal.wf, Modal.genUses. simpl.
  rewrite (omap_snoc_Some _ _ _ (length (Modal.heap w))) by done.
  rewrite (omap_snoc_None Modal.genUse) by done.
  fold (Modal.genUses w). rewrite length_app. simpl.
  split; [|split].
  - apply NoDup_app. split; [done|]. split; [|apply NoDup_singleton].
    intros r Hr Hin. apply list_elem_of_singleton in Hin as ->.
    destruct (Hfill _ Hr) as [Hlt _]. lia.
  - intros r Hr. apply elem_of_app in Hr as [Hr|Hr].
    + destruct (Hfill r Hr) as (Hlt & Hnone & Hnot).
      split; [lia|]. split; [|done]. by rewrite lookup_app_l.
    + apply list_elem_of_singleton in Hr as ->.
      split; [lia|]. split.
      * rewrite lookup_app_r by lia. rewrite Nat.sub_diag. simpl. exact Hrec.
      * intros Hin. apply list_elem_of_fmap in Hin as ([r t] & Heq & Hin).
        destruct (Hgen _ _ Hin) as [Hlt _]. simpl in Heq. lia.
  - intros r t Hin. destruct (Hgen r t Hin) as [Hlt Hce]. split; [lia|done].
Qed.

Lemma wf_retry (w : Modal.Page) (r : nat) (ds : list Modal.Did) :
  Modal.wf w →
  (r < length (Modal.heap w))%nat →
  Modal.heap w !! r ≫= generatedResponse = None →
  r ∉ omap Modal.fillRef (Modal.timers w) →
  r ∉ (Modal.genUses w).*1 →
  Modal.wf
    (Modal.mkPage (Modal.document w) (Modal.heap w) (Modal.reviews w)
       (Modal.handler w) (Modal.timers w ++ [Modal.Retry r])
       (Modal.generating w) ds).
Proof.
  intros (Hnd & Hfill & Hgen) Hlt Hnone Hnf Hng.
  unfold Modal.wf, Modal.genUses. simpl.
  rewrite (omap_snoc_Some _ _ _ r) by done.
  rewrite (omap_snoc_None Modal.genUse) by done.
  fold (Modal.genUses w).
  split; [|split].
  - apply NoDup_app. split; [done|]. split; [|apply NoDup_singleton].
    intros r' Hr Hin. by apply list_elem_of_singleton in Hin as ->.
  - intros r' Hr. apply elem_of_app in Hr as [Hr|Hr]; [by apply Hfill|].
    by apply list_elem_of_singleton in Hr as ->.
  - exact Hgen.
Qed.

(** Storing a response on review data that no pending [autoFillResponse]
    holds. *)
Lemma wf_cacheResponse (w : Modal.Page) (r : nat) (text : jsstring) :
  Modal.wf w → r ∉ omap Modal.fillRef (Modal.timers w) →
  Modal.wf (Modal.cacheResponse r text w).
Proof.
  intros (Hnd & Hfill & Hgen) Hnf. unfold Modal.cacheResponse.
  destruct (Modal.heap w !! r) as [rec|] eqn:Hr; [|done].
  unfold Modal.wf, Modal.genUses. simpl. fold (Modal.genUses w).
  rewrite length_insert.
  split; [done|]. split; [|done].
  intros r' Hr'. destruct (Hfill r' Hr') as (Hlt & Hnone & Hnot).
  split; [done|]. split; [|done].
  rewrite list_lookup_insert_ne; [done|]. by intros ->.
Qed.

Lemma onClick_cases (target : DomElement) (w : Modal.Page) :
  ∃ ds, Forall fruitless ds
        ∧ (Modal.onClick target w = Modal.does ds w
           ∨ ∃ rec, generatedResponse rec = None
                    ∧ Modal.onClick target w
                      = Modal.mkPage (Modal.document w) (Modal.heap w ++ [rec])
                          (Modal.reviews w) (Modal.handler w)
                          (Modal.timers w
                           ++ [Modal.AutoFill (length (Modal.heap w))])
                          (Modal.generating w) (Modal.did w ++ ds)).
Proof.
  unfold Modal.onClick.
  destruct (Dom.matches (Dom.byClass "reply-link") target
            || Dom.matches (Dom.byClass "edit-link") target).
  2:{ exists []. split; [constructor|]. left. unfold Modal.does.
      rewrite app_nil_r. by destruct w. }
  cbn [Modal.say Modal.does Modal.document debug CONFIG.DEBUG].
  destruct (Modal.closest CONFIG.SELECTORS.reviewContainer target
              (Modal.document w)) as [reviewContainer|].
  2:{ eexists. split; [|left; reflexivity].
      apply (said_fruitless [Info "Reply/Edit button clicked"]).
      by repeat constructor. }
  pose proof (extractReviewData_log reviewContainer) as Hlog.
  pose proof (extracted_fields reviewContainer) as Hfields.
  unfold extracted in Hfields.
  destruct (extractReviewData reviewContainer) as [[rec|] log]; simpl in *.
  - exists ((Modal.Said <$> [Info "Reply/Edit button clicked"])
            ++ (Modal.Said <$> log) ++ (Modal.Said <$> [Info "Review data:"])).
    split.
    + rewrite !Forall_app. split; [|split]; apply said_fruitless;
        first [done | by repeat constructor].
    + right. exists rec. split.
      * by destruct (Hfields rec eq_refl) as (_ & _ & _ & _ & _ & ?).
      * unfold Modal.setTimeout. simpl. by rewrite <- !app_assoc.
  - exists ((Modal.Said <$> [Info "Reply/Edit button clicked"])
            ++ (Modal.Said <$> log)).
    split.
    + rewrite !Forall_app. split; apply said_fruitless;
        first [done | by repeat constructor].
    + left. unfold Modal.does. simpl. by rewrite <- !app_assoc.
Qed.

Lemma insertTextIntoModal_cases (element : DomElement) (text : jsstring)
    (w : Modal.Page) :
  is_Some (Dom.getAttribute (str "contenteditable") (info element)) →
  ∃ ds, Forall harmless ds
        ∧ (Modal.insertTextIntoModal element text w = Modal.does ds w
           ∨ ∃ rec, generatedResponse rec = None
                    ∧ Modal.insertTextIntoModal element text w
                      = Modal.mkPage (Modal.document w) (Modal.heap w ++ [rec])
                          (Modal.reviews w) (Modal.handler w)
                          (Modal.timers w
                           ++ [Modal.AutoFill (length (Modal.heap w))])
                          (Modal.generating w) (Modal.did w ++ ds)).
Proof.
  intros Hce. unfold Modal.insertTextIntoModal.
  rewrite bool_decide_eq_true_2 by done.
  destruct (onClick_cases element (Modal.does [Modal.ClickOn element] w))
    as (ds & Hds & Hcase).
  set (typed := [Modal.FocusOn element; Modal.ExecCommand "selectAll" [];
                 Modal.ExecCommand "delete" []]
                ++ (Modal.ExecCommand "insertText" <$> Modal.codePoints text)
                ++ [Modal.Dispatch element "input";
                    Modal.Dispatch element "change";
                    Modal.Dispatch element "blur"]).
  assert (Forall harmless typed) as Htyped.
  { subst typed. rewrite !Forall_app. split; [|split].
    - repeat constructor; done.
    - apply Forall_fmap, Forall_forall. intros ch _. by split.
    - repeat constructor; done. }
  exists ([Modal.ClickOn element] ++ ds ++ typed). split.
  { rewrite !Forall_app. split; [by repeat constructor|]. split; [|done].
    eapply Forall_impl; [exact Hds|]. apply fruitless_harmless. }
  destruct Hcase as [->|(rec & Hrec & ->)].
  - left. unfold Modal.does. simpl. by rewrite <- !app_assoc.
  - right. exists rec. split; [done|]. unfold Modal.does. simpl.
    by rewrite <- !app_assoc.
Qed.

Lemma addGenerateButton_cases (t : DomElement) (r : nat) (w : Modal.Page) :
  let w' := (Modal.addGenerateButton t r w).2 in
  Modal.heap w' = Modal.heap w ∧ Modal.reviews w' = Modal.reviews w
  ∧ Modal.timers w' = Modal.timers w ∧ Modal.generating w' = Modal.generating w
  ∧ Modal.did w' = Modal.did w
  ∧ (Modal.handler w' = Modal.handler w ∨ Modal.handler w' = Some (r, t)).
Proof.
  unfold Modal.addGenerateButton.
  destruct (Dom.getElementById "reviewllama-generate-btn" (Modal.document w)).
  - simpl. repeat split; try done. by left.
  - destruct (Dom.getElementById _ _); simpl; repeat split; try done;
      first [by right | by left].
Qed.

Lemma editable_contenteditable (d : DomElement) :
  Modal.editable d = true →
  is_Some (Dom.getAttribute (str "contenteditable") (info d)).
Proof.
  unfold Modal.editable. rewrite !andb_true_iff.
  intros [[_ H] _]. apply bool_decide_eq_true in H. rewrite H. by eexists.
Qed.

Lemma find_elem_of {A} (f : A → bool) (l : list A) (x : A) :
  find f l = Some x → x ∈ l.
Proof.
  induction l as [|a l IH]; simpl; [done|].
  destruct (f a); [intros [= ->]; by left|]. intros H. right. by apply IH.
Qed.

Lemma last_elem_of {A} (l : list A) (x : A) : last l = Some x → x ∈ l.
Proof.
  intros H. apply last_Some in H as [l' ->]. apply elem_of_app. right. by left.
Qed.

(** The text area that [autoFillResponse] picks is an editable div of the
    document. *)
Lemma target_editable (visible : DomElement → bool) (doc : Forest)
    (t : DomElement) :
  (find visible (Modal.editableDivs doc) = Some t
   ∨ last (Modal.editableDivs doc) = Some t) →
  t ∈ Dom.elements [] doc ∧ Modal.editable t = true.
Proof.
  intros H.
  assert (t ∈ Modal.editableDivs doc) as Hin.
  { destruct H as [H|H]; [by apply find_elem_of in H|by apply last_elem_of]. }
  unfold Modal.editableDivs in Hin. apply list_elem_of_filter in Hin. tauto.
Qed.

Lemma wf_cases (P : Modal.Did → Prop) (w w' : Modal.Page) (ds : list Modal.Did) :
  Modal.wf w →
  (w' = Modal.does ds w
   ∨ ∃ rec, generatedResponse rec = None
            ∧ w' = Modal.mkPage (Modal.document w) (Modal.heap w ++ [rec])
                     (Modal.reviews w) (Modal.handler w)
                     (Modal.timers w ++ [Modal.AutoFill (length (Modal.heap w))])
                     (Modal.generating w) (Modal.did w ++ ds)) →
  Modal.wf w'
  ∧ Modal.did w' = Modal.did w ++ ds
  ∧ Modal.reviews w' = Modal.reviews w
  ∧ (length (Modal.heap w) ≤ length (Modal.heap w'))%nat
  ∧ (∀ r, r ∈ omap Modal.fillRef (Modal.timers w') →
          r ∈ omap Modal.fillRef (Modal.timers w) ∨ r = length (Modal.heap w)).
Proof.
  intros Hwf [->|(rec & Hrec & ->)].
  - split; [by apply (wf_core w)|]. split; [done|]. split; [done|].
    split; [done|]. intros r Hr. by left.
  - split; [by apply wf_alloc|]. split; [done|]. split; [done|]. simpl.
    split; [rewrite length_app; lia|].
    intros r Hr. rewrite (omap_snoc_Some _ _ _ (length (Modal.heap w))) in Hr
      by done.
    apply elem_of_app in Hr as [Hr|Hr]; [by left|].
    right. by apply list_elem_of_singleton in Hr.
Qed.

Lemma autoFillResponse_spec (visible : DomElement → bool) (r : nat)
    (w : Modal.Page) :
  Modal.wf w →
  (r < length (Modal.heap w))%nat →
  Modal.heap w !! r ≫= generatedResponse = None →
  r ∉ omap Modal.fillRef (Modal.timers w) →
  r ∉ (Modal.genUses w).*1 →
  let w' := Modal.autoFillResponse visible r w in
  Modal.wf w'
  ∧ (∃ ds, Modal.did w' = Modal.did w ++ ds ∧ Forall fruitless ds)
  ∧ Modal.reviews w' = Modal.reviews w.
Proof.
  intros Hwf Hlt Hnone Hnf Hng w'. subst w'. unfold Modal.autoFillResponse.
  assert (Hsay : ∀ s : string,
            s ≠ "Using cached AI response" →
            Forall fruitless (Modal.Said <$> debug (Info s))).
  { intros s Hs. apply said_fruitless. repeat constructor. by intros [= ->]. }
  assert (Hgo : ∀ (t : DomElement) (ds0 : list Modal.Did),
            Modal.editable t = true → Forall fruitless ds0 →
            let w0 := Modal.does ds0 w in
            let w' :=
              match Modal.addGenerateButton t r w0 with
              | (Throw _, w) => w
              | (Normal _, w) =>
                  Modal.say (Info "Auto-fill initiated")
                    match Modal.heap w !! r ≫= generatedResponse with
                    | Some (c :: text) =>
                        Modal.insertTextIntoModal t (c :: text)
                          (Modal.say (Info "Using cached AI response") w)
                    | _ =>
                        Modal.setTimeout (Modal.Generate r t)
                          (Modal.say (Info "Auto-generating AI response...") w)
                    end
              end in
            Modal.wf w'
            ∧ (∃ ds, Modal.did w' = Modal.did w ++ ds ∧ Forall fruitless ds)
            ∧ Modal.reviews w' = Modal.reviews w).
  { intros t ds0 Ht Hds0 w0 w'. subst w' w0.
    pose proof (addGenerateButton_cases t r (Modal.does ds0 w))
      as (Hh & Hr & Htm & Hg & Hd & Hhd).
    destruct (Modal.addGenerateButton t r (Modal.does ds0 w)) as [[[]|err] w1];
      simpl in Hh, Hr, Htm, Hg, Hd, Hhd.
    - rewrite Hh, Hnone. split; [|split].
      + apply (wf_frame w); [done|done|..]; simpl.
        * rewrite Htm, (omap_snoc_None Modal.fillRef) by done. apply Hwf.
        * intros r'. by rewrite Htm, (omap_snoc_None Modal.fillRef) by done.
        * intros r' t'. unfold Modal.genUses. simpl.
          rewrite Htm, Hg, (omap_snoc_Some _ _ _ (r, t)) by done.
          rewrite (omap_snoc_None Modal.fillRef) by done.
          rewrite !elem_of_app, list_elem_of_singleton.
          pose proof (editable_contenteditable t Ht) as Hce.
          intros [[Hin|[= -> ->]]|[Hin|Hin]].
          -- left. by left.
          -- right. split; [done|]. by split.
          -- left. right. by left.
          -- destruct Hhd as [Hhd|Hhd]; rewrite Hhd in Hin.
             ++ left. right. by right.
             ++ apply list_elem_of_singleton in Hin as [= -> ->].
                right. split; [done|]. by split.
      + simpl. rewrite Hd. simpl. eexists. rewrite <- !app_assoc.
        split; [reflexivity|]. rewrite !Forall_app.
        split; [done|]. split; by apply Hsay.
      + simpl. by rewrite Hr.
    - split; [|split].
      + apply (wf_frame w); [done|done|..].
        * rewrite Htm. apply Hwf.
        * intros r'. by rewrite Htm.
        * intros r' t'. unfold Modal.genUses. rewrite Htm, Hg.
          rewrite !elem_of_app.
          pose proof (editable_contenteditable t Ht) as Hce.
          intros [Hin|[Hin|Hin]].
          -- left. by left.
          -- left. right. by left.
          -- destruct Hhd as [Hhd|Hhd]; rewrite Hhd in Hin.
             ++ left. right. by right.
             ++ apply list_elem_of_singleton in Hin as [= -> ->].
                right. split; [done|]. by split.
      + rewrite Hd. simpl. by eexists.
      + by rewrite Hr. }
  destruct (find visible (Modal.editableDivs (Modal.document w))) as [t|] eqn:Hf.
  - destruct (target_editable visible _ t (or_introl Hf)) as [_ Ht].
    apply (Hgo t (Modal.Said <$> debug (Info "Found visible contenteditable div")) Ht).
    by apply Hsay.
  - destruct (last (Modal.editableDivs (Modal.document w))) as [t|] eqn:Hl.
    + destruct (target_editable visible _ t (or_intror Hl)) as [_ Ht].
      apply (Hgo t
               (Modal.Said <$>
                  debug (Info "No visible div found, using last contenteditable div"))
               Ht).
      by apply Hsay.
    + split; [|split].
      * by apply wf_retry.
      * simpl. eexists. split; [reflexivity|]. by apply Hsay.
      * done.
Qed.

Lemma generateAIResponse_spec (r : nat) (t : DomElement) (w : Modal.Page) :
  Modal.wf w →
  (r < length (Modal.heap w))%nat →
  is_Some (Dom.getAttribute (str "contenteditable") (info t)) →
  r ∉ omap Modal.fillRef (Modal.timers w) →
  let w' := Modal.generateAIResponse r t w in
  Modal.wf w'
  ∧ (∃ ds, Modal.did w' = Modal.did w ++ ds ∧ Forall fruitless ds)
  ∧ Modal.reviews w' = Modal.reviews w.
Proof.
  intros Hwf Hlt Hce Hnf w'. subst w'. unfold Modal.generateAIResponse.
  assert (Forall fruitless (Modal.Said <$> debug (Info "Generating AI response for:")))
    as Hsay by (apply said_fruitless; by repeat constructor).
  cbn [Modal.say Modal.does Modal.document].
  destruct (Dom.getElementById _ _); (split; [|split; [by eexists|done]]).
  - apply (wf_frame w); [done|done|apply Hwf|done|].
    intros r' t'. unfold Modal.genUses. simpl.
    rewrite !elem_of_app, list_elem_of_singleton.
    intros [Hin|[[Hin|[= -> ->]]|Hin]].
    + left. by left.
    + left. right. by left.
    + right. split; [done|]. by split.
    + left. right. by right.
  - by apply (wf_core w).
Qed.

Lemma generated_spec (response : Worker.Settled Modal.GenReply) (r : nat)
    (t : DomElement) (w : Modal.Page) :
  Modal.wf w →
  (r < length (Modal.heap w))%nat →
  is_Some (Dom.getAttribute (str "contenteditable") (info t)) →
  r ∉ omap Modal.fillRef (Modal.timers w) →
  let w' := Modal.generated response r t w in
  Modal.wf w'
  ∧ (∃ ds, Modal.did w' = Modal.did w ++ ds ∧ Forall harmless ds
           ∧ ((∃ error, response = Worker.Fulfilled (Modal.mkGenReply false [] error)
                        ∧ str "Error generating response: " ++ error = unknownAlert) →
              Forall fruitless ds ∧ Modal.reviews w' = Modal.reviews w)).
Proof.
  intros Hwf Hlt Hce Hnf w'. subst w'. unfold Modal.generated.
  destruct response as [[[] text error]|message];
    cbn [Modal.g_success Modal.g_response Modal.g_error].
  - destruct (insertTextIntoModal_cases t text
                (Modal.say (Info "AI response received:") w) Hce)
      as (ds & Hds & Hcase).
    assert (Modal.wf (Modal.say (Info "AI response received:") w)) as Hwf1
      by by apply (wf_core w).
    destruct (wf_cases harmless _ _ ds Hwf1 Hcase) as (Hwf2 & Hd & _ & _ & Hrefs).
    split.
    + apply wf_cacheResponse; [done|].
      intros Hin. destruct (Hrefs r Hin) as [Hold|Heq]; [done|].
      simpl in Heq. lia.
    + exists ([Modal.Said (Info "AI response received:")] ++ ds).
      split; [|split].
      * unfold Modal.cacheResponse.
        destruct (Modal.heap _ !! r); simpl; rewrite Hd; simpl;
          by rewrite <- app_assoc.
      * apply Forall_app. split; [|done]. by repeat constructor.
      * by intros (err & [= ] & _).
  - split; [by apply (wf_core w)|]. cbn -[str unknownAlert].
    eexists. rewrite <- app_assoc. split; [reflexivity|]. split.
    + by repeat constructor.
    + intros (err & [= _ <-] & Herr). split; [|done].
      repeat constructor; try done. intros text' [= <-]. exact Herr.
  - split; [by apply (wf_core w)|]. cbn -[str unknownAlert].
    eexists. rewrite <- app_assoc. split; [reflexivity|]. split.
    + by repeat constructor.
    + by intros (err & [= ] & _).
Qed.

Lemma elem_of_delete {A} (l : list A) (i : nat) (x : A) :
  x ∈ delete i l → x ∈ l.
Proof.
  rewrite delete_take_drop, elem_of_app.
  intros [H|H].
  - by eapply subseteq_take.
  - by eapply subseteq_drop.
Qed.

Lemma workerGenReply_unknown (toLowerCase : jsstring → jsstring)
    (ww : Worker.WorkerWorld) (tabId : option Z) (draw : nat) :
  workerGenReply toLowerCase ww tabId draw
  = Worker.Fulfilled (Modal.mkGenReply false [] (str "Unknown message type")).
Proof. reflexivity. Qed.

Lemma step_spec (toLowerCase : jsstring → jsstring) (w : Modal.Page)
    (ev : Modal.Event) :
  Modal.wf w →
  Modal.wf (Modal.step w ev)
  ∧ ∃ ds, Modal.did (Modal.step w ev) = Modal.did w ++ ds
          ∧ Forall harmless ds
          ∧ (fromWorker toLowerCase ev →
             Forall fruitless ds
             ∧ Modal.reviews (Modal.step w ev) = Modal.reviews w).
Proof.
  intros Hwf.
  assert (Hweak : ∀ w',
            Modal.wf w'
            ∧ (∃ ds, Modal.did w' = Modal.did w ++ ds ∧ Forall fruitless ds)
            ∧ Modal.reviews w' = Modal.reviews w →
            Modal.wf w'
            ∧ ∃ ds, Modal.did w' = Modal.did w ++ ds
                    ∧ Forall harmless ds
                    ∧ (fromWorker toLowerCase ev →
                       Forall fruitless ds
                       ∧ Modal.reviews w' = Modal.reviews w)).
  { intros w' (Hwf' & (ds & Hd & Hds) & Hr). split; [done|].
    exists ds. split; [done|]. split; [|done].
    eapply Forall_impl; [exact Hds|]. apply fruitless_harmless. }
  assert (Hsame : Modal.wf w
                  ∧ (∃ ds, Modal.did w = Modal.did w ++ ds ∧ Forall fruitless ds)
                  ∧ Modal.reviews w = Modal.reviews w).
  { split; [done|]. split; [|done]. exists []. by rewrite app_nil_r. }
  destruct ev as [target|i visible| |i response|doc]; simpl.
  - apply Hweak. destruct (onClick_cases target w) as (ds & Hds & Hcase).
    destruct (wf_cases fruitless _ _ ds Hwf Hcase) as (Hwf' & Hd & Hr & _).
    split; [done|]. split; [by exists ds|done].
  - destruct (Modal.timers w !! i) as [task|] eqn:Hi; [|by apply Hweak].
    apply Hweak.
    set (w0 := Modal.mkPage (Modal.document w) (Modal.heap w) (Modal.reviews w)
                 (Modal.handler w) (delete i (Modal.timers w))
                 (Modal.generating w) (Modal.did w)).
    destruct (omap_delete Modal.fillRef _ _ _ Hi) as (f1 & f2 & Hf & Hf0).
    destruct (omap_delete Modal.genUse _ _ _ Hi) as (g1 & g2 & Hg & Hg0).
    destruct Hwf as (Hnd & Hfill & Hgen).
    assert (Hsub : ∀ r t, (r, t) ∈ Modal.genUses w0 → (r, t) ∈ Modal.genUses w).
    { intros r t. unfold Modal.genUses. simpl. rewrite Hg, Hg0.
      rewrite !elem_of_app. tauto. }
    assert (Hwf0 : Modal.wf w0).
    { apply (wf_frame w); [done|done|..]; simpl.
      - rewrite Hf0. rewrite Hf in Hnd.
        apply NoDup_app in Hnd as (H1 & H2 & H3).
        apply NoDup_app in H3 as (_ & _ & H3).
        apply NoDup_app. split; [done|]. split; [|done].
        intros x Hx Hx2. apply (H2 x Hx). apply elem_of_app. by right.
      - intros r. rewrite Hf, Hf0, !elem_of_app. tauto.
      - intros r t Hin. left. by apply Hsub. }
    destruct task as [r|r|r t]; simpl in *.
    + assert (r ∈ omap Modal.fillRef (Modal.timers w)) as Hr.
      { rewrite Hf. apply elem_of_app. right. by left. }
      destruct (Hfill r Hr) as (Hlt & Hnone & Hnot).
      apply (autoFillResponse_spec visible r w0); try done.
      * simpl. rewrite Hf0. rewrite Hf in Hnd.
        apply NoDup_app in Hnd as (_ & H2 & H3).
        apply NoDup_cons in H3 as [H3 _].
        intros Hin. apply elem_of_app in Hin as [Hin|Hin]; [|done].
        apply (H2 r Hin). by left.
      * intros Hin. apply Hnot.
        apply list_elem_of_fmap in Hin as ([r' t'] & -> & Hin).
        apply list_elem_of_fmap. exists (r', t'). split; [done|]. by apply Hsub.
    + assert (r ∈ omap Modal.fillRef (Modal.timers w)) as Hr.
      { rewrite Hf. apply elem_of_app. right. by left. }
      destruct (Hfill r Hr) as (Hlt & Hnone & Hnot).
      unfold Modal.retry.
      destruct (head (Modal.editableDivs (Modal.document w0))).
      * apply (autoFillResponse_spec visible r w0); try done.
        -- simpl. rewrite Hf0. rewrite Hf in Hnd.
           apply NoDup_app in Hnd as (_ & H2 & H3).
           apply NoDup_cons in H3 as [H3 _].
           intros Hin. apply elem_of_app in Hin as [Hin|Hin]; [|done].
           apply (H2 r Hin). by left.
        -- intros Hin. apply Hnot.
           apply list_elem_of_fmap in Hin as ([r' t'] & -> & Hin).
           apply list_elem_of_fmap. exists (r', t'). split; [done|].
           by apply Hsub.
      * split; [done|]. split; [|done]. exists []. by rewrite app_nil_r.
    + assert ((r, t) ∈ Modal.genUses w) as Hin.
      { unfold Modal.genUses. rewrite Hg, !elem_of_app. left. right. by left. }
      destruct (Hgen r t Hin) as [Hlt Hce].
      apply (generateAIResponse_spec r t w0); try done.
      simpl. rewrite Hf0. simpl in Hf. rewrite <- Hf. intros Hr.
      destruct (Hfill r Hr) as (_ & _ & Hnot). apply Hnot.
      apply list_elem_of_fmap. by exists (r, t).
  - destruct (Dom.getElementById _ _); [|by apply Hweak].
    destruct (Modal.handler w) as [[r t]|] eqn:Hh; [|by apply Hweak].
    apply Hweak.
    assert ((r, t) ∈ Modal.genUses w) as Hin.
    { unfold Modal.genUses. rewrite Hh, !elem_of_app. right. right. by left. }
    destruct Hwf as (Hnd & Hfill & Hgen).
    destruct (Hgen r t Hin) as [Hlt Hce].
    apply (generateAIResponse_spec r t w); try done.
    intros Hr. destruct (Hfill r Hr) as (_ & _ & Hnot). apply Hnot.
    apply list_elem_of_fmap. by exists (r, t).
  - destruct (Modal.generating w !! i) as [[r t]|] eqn:Hi; [|by apply Hweak].
    set (w0 := Modal.mkPage (Modal.document w) (Modal.heap w) (Modal.reviews w)
                 (Modal.handler w) (Modal.timers w)
                 (delete i (Modal.generating w)) (Modal.did w)).
    assert ((r, t) ∈ Modal.genUses w) as Hin.
    { unfold Modal.genUses. rewrite !elem_of_app. right. left.
      by eapply list_elem_of_lookup_2. }
    pose proof Hwf as (Hnd & Hfill & Hgen).
    destruct (Hgen r t Hin) as [Hlt Hce].
    assert (Hwf0 : Modal.wf w0).
    { apply (wf_frame w); [done|done|apply Hwf|done|].
      intros r' t'. unfold Modal.genUses. simpl. rewrite !elem_of_app.
      intros [H|[H|H]]; left; [by left| |right; by right].
      right. left. by eapply elem_of_delete. }
    destruct (generated_spec response r t w0 Hwf0 Hlt Hce) as (Hwf' & ds & Hd & Hds & Hfail).
    { simpl. intros Hr. destruct (Hfill r Hr) as (_ & _ & Hnot). apply Hnot.
      apply list_elem_of_fmap. by exists (r, t). }
    split; [done|]. exists ds. split; [done|]. split; [done|].
    intros (ww & tabId & draw & ->). apply Hfail.
    exists (str "Unknown message type"). by rewrite workerGenReply_unknown.
  - apply (Hweak (Modal.mkPage doc (Modal.heap w) (Modal.reviews w)
                    (Modal.handler w) (Modal.timers w) (Modal.generating w)
                    (Modal.did w))).
    split; [by apply (wf_core w)|]. split; [|done].
    exists []. by rewrite app_nil_r.
Qed.

Lemma run_spec (toLowerCase : jsstring → jsstring) (evs : list Modal.Event) :
  ∀ w : Modal.Page,
    Modal.wf w →
    Modal.wf (foldl Modal.step w evs)
    ∧ ∃ ds, Modal.did (foldl Modal.step w evs) = Modal.did w ++ ds
            ∧ Forall harmless ds
            ∧ (Forall (fromWorker toLowerCase) evs →
               Forall fruitless ds
               ∧ Modal.reviews (foldl Modal.step w evs) = Modal.reviews w).
Proof.
  induction evs as [|ev evs IH]; intros w Hwf; simpl.
  - split; [done|]. exists []. rewrite app_nil_r. by repeat split.
  - destruct (step_spec toLowerCase w ev Hwf) as (Hwf1 & ds1 & Hd1 & Hh1 & Hf1).
    destruct (IH _ Hwf1) as (Hwf2 & ds2 & Hd2 & Hh2 & Hf2).
    split; [done|]. exists (ds1 ++ ds2).
    split; [by rewrite Hd2, Hd1, <- app_assoc|].
    split; [by apply Forall_app|].
    intros Hall. apply Forall_cons in Hall as [Hev Hall].
    destruct (Hf1 Hev) as [Hfr1 Hr1]. destruct (Hf2 Hall) as [Hfr2 Hr2].
    split; [by apply Forall_app|]. by rewrite Hr2, Hr1.
Qed.

Lemma atRest_wf (w : Modal.Page) : Modal.atRest w → Modal.wf w.
Proof.
  intros (Ht & Hg & Hh). unfold Modal.wf, Modal.genUses.
  rewrite Ht, Hg, Hh. simpl. split; [constructor|].
  split.
  - intros r. by intros ?%elem_of_nil.
  - intros r t. by intros ?%elem_of_nil.
Qed.



(** X20. With this worker no text reaches the modal. The worker has no
    case for [GENERATE_AI_RESPONSE], so when every answer to a
    generation comes from it, the reply path, started from rest, inserts
    no text anywhere, stores no response in [state.reviews], and every
    alert it raises reads [Error generating response: Unknown message
    type]. *)
Theorem no_text_reaches_the_modal :
  ∀ (toLowerCase : jsstring → jsstring) (w : Modal.Page)
    (evs : list Modal.Event),
    Modal.atRest w →
    Forall (fromWorker toLowerCase) evs →
    Forall fruitless (newlyDid w (foldl Modal.step w evs))
    ∧ Modal.reviews (foldl Modal.step w evs) = Modal.reviews w.
Proof.
  intros toLowerCase w evs Hrest Hall.
  destruct (run_spec toLowerCase evs w (atRest_wf w Hrest))
    as (_ & ds & Hd & _ & Hf).
  destruct (Hf Hall) as [Hfr Hr].
  unfold newlyDid. by rewrite Hd, drop_app_length.
Qed.

Lemma no_text_reaches_the_modal_witness :
  Forall fruitless
    (newlyDid (modalPage pageWithModal)
       (foldl Modal.step (modalPage pageWithModal) replyRun))
  ∧ last (Modal.did (foldl Modal.step (modalPage pageWithModal) replyRun))
    = Some (Modal.Alert unknownAlert).
Proof.
  split.
  - apply (no_text_reaches_the_modal asciiLower (modalPage pageWithModal)
             replyRun).
    + by repeat split.
    + repeat constructor. by exists Worker.initial, (Some 12), 0%nat.
  - reflexivity.
Defined.

(** ** [autoFillResponse] and its retry *)

Lemma filter_isRetry_snoc (l : list Modal.Task) (task : Modal.Task) :
  List.filter isRetry (l ++ [task])
  = List.filter isRetry l ++ (if isRetry task then [task] else []).
Proof. rewrite List.filter_app. simpl. by destruct (isRetry task). Qed.

Lemma onClick_retries (target : DomElement) (w : Modal.Page) :
  List.filter isRetry (Modal.timers (Modal.onClick target w))
  = List.filter isRetry (Modal.timers w).
Proof.
  destruct (onClick_cases target w) as (ds & _ & [->|(rec & _ & ->)]); [done|].
  simpl. rewrite filter_isRetry_snoc. simpl. apply app_nil_r.
Qed.

Lemma autoFillResponse_retries (visible : DomElement → bool) (r : nat)
    (w : Modal.Page) :
  List.filter isRetry (Modal.timers (Modal.autoFillResponse visible r w))
  = List.filter isRetry (Modal.timers w)
    ++ (if Modal.editableDivs (Modal.document w) is [] then [Modal.Retry r]
        else []).
Proof.
  unfold Modal.autoFillResponse.
  assert (Hgo : ∀ (t : DomElement) (w0 : Modal.Page),
            Modal.timers w0 = Modal.timers w →
            List.filter isRetry
              (Modal.timers
                 match Modal.addGenerateButton t r w0 with
                 | (Throw _, w) => w
                 | (Normal _, w) =>
                     Modal.say (Info "Auto-fill initiated")
                       match Modal.heap w !! r ≫= generatedResponse with
                       | Some (c :: text) =>
                           Modal.insertTextIntoModal t (c :: text)
                             (Modal.say (Info "Using cached AI response") w)
                       | _ =>
                           Modal.setTimeout (Modal.Generate r t)
                             (Modal.say (Info "Auto-generating AI response...") w)
                       end
                 end)
            = List.filter isRetry (Modal.timers w)).
  { intros t w0 Hw0.
    pose proof (addGenerateButton_cases t r w0) as (_ & _ & Htm & _).
    destruct (Modal.addGenerateButton t r w0) as [[[]|err] w1]; simpl in Htm;
      [|by rewrite Htm, Hw0].
    destruct (Modal.heap w1 !! r ≫= generatedResponse) as [[|c text]|]; simpl.
    - rewrite filter_isRetry_snoc, Htm, Hw0. simpl. apply app_nil_r.
    - unfold Modal.insertTextIntoModal.
      destruct (bool_decide _); simpl; [|by rewrite Htm, Hw0].
      rewrite onClick_retries. simpl. by rewrite Htm, Hw0.
    - rewrite filter_isRetry_snoc, Htm, Hw0. simpl. apply app_nil_r. }
  destruct (find visible (Modal.editableDivs (Modal.document w))) as [t|] eqn:Hf.
  - rewrite Hgo by done.
    apply find_elem_of in Hf.
    destruct (Modal.editableDivs (Modal.document w)); [by apply elem_of_nil in Hf|].
    by rewrite app_nil_r.
  - destruct (last (Modal.editableDivs (Modal.document w))) as [t|] eqn:Hl.
    + rewrite Hgo by done.
      destruct (Modal.editableDivs (Modal.document w)); [done|].
      by rewrite app_nil_r.
    + apply last_None in Hl. rewrite Hl. simpl.
      by rewrite filter_isRetry_snoc.
Qed.

(** X21. [autoFillResponse] retries at most once. It schedules a retry
    exactly when the document has no editable div in a modal, and the
    retry itself never schedules another: it calls [autoFillResponse]
    only when such a div is there, and gives up otherwise. *)
Theorem retry_is_not_repeated :
  ∀ (visible : DomElement → bool) (r : nat) (w : Modal.Page),
    List.filter isRetry (Modal.timers (Modal.retry visible r w))
    = List.filter isRetry (Modal.timers w)
    ∧ List.filter isRetry (Modal.timers (Modal.autoFillResponse visible r w))
      = List.filter isRetry (Modal.timers w)
        ++ (if Modal.editableDivs (Modal.document w) is [] then [Modal.Retry r]
            else [])
    ∧ (Modal.editableDivs (Modal.document w) = [] → Modal.retry visible r w = w).
Proof.
  intros visible r w. split; [|split].
  - unfold Modal.retry.
    destruct (Modal.editableDivs (Modal.document w)) as [|d l] eqn:Hd; [done|].
    simpl. rewrite autoFillResponse_retries. rewrite Hd. apply app_nil_r.
  - apply autoFillResponse_retries.
  - intros Hd. unfold Modal.retry. by rewrite Hd.
Qed.

Lemma retry_is_not_repeated_witness :
  Modal.retry (λ _, true) 0 (modalPage [nodeOf aliceReview])
  = modalPage [nodeOf aliceReview].
Proof.
  destruct (retry_is_not_repeated (λ _, true) 0 (modalPage [nodeOf aliceReview]))
    as (_ & _ & H).
  apply H. reflexivity.
Defined.

(** ** [addGenerateButton] *)

Lemma nodeAt_snoc (p : Path) :
  ∀ (f : Forest) (n : Node),
    p ≠ [] → nodeAt p f = Some n →
    ∃ ch, childrenAt (take (length p - 1) p) f = Some ch.
Proof.
  induction p as [|i p IH]; intros f n Hne Hn; [done|].
  destruct p as [|j p'].
  - simpl. by exists f.
  - simpl in Hn. destruct (f !! i) as [[d|inf ch]|] eqn:Hi; try done.
    simpl in Hn.
    destruct (IH ch n ltac:(done)) as [ch' Hch'].
    { simpl. exact Hn. }
    exists ch'.
    replace (length (i :: j :: p') - 1)%nat with (S (length (j :: p') - 1))
      by (simpl; lia).
    cbn [take childrenAt]. rewrite Hi. exact Hch'.
Qed.

Lemma buttonCount_countForest (doc : Forest) :
  buttonCount doc = countForest isButton doc.
Proof. apply elementsFrom_count. Qed.

Lemma getElementById_button (doc : Forest) :
  is_Some (Dom.getElementById "reviewllama-generate-btn" doc)
  ↔ buttonCount doc ≠ 0%nat.
Proof.
  unfold Dom.getElementById, buttonCount, isButton.
  destruct (base.filter _ _); simpl; split; try done.
Qed.

(** X22. [addGenerateButton] on an element of the document never fails.
    When the document has no generate button it adds exactly one and
    binds its handler to the review data and text area of this call;
    when a button is there the call changes nothing, so the handler
    stays bound to the review data of the call that made the button. *)
Theorem addGenerateButton_binds_once :
  ∀ (textarea : DomElement) (reviewData : nat) (w : Modal.Page),
    textarea ∈ Dom.elements [] (Modal.document w) →
    let r := Modal.addGenerateButton textarea reviewData w in
    r.1 = Normal ()
    ∧ (buttonCount (Modal.document w) = 0%nat →
       buttonCount (Modal.document r.2) = 1%nat
       ∧ Modal.handler r.2 = Some (reviewData, textarea)
       ∧ length (containers (Modal.document r.2))
         = length (containers (Modal.document w)))
    ∧ (buttonCount (Modal.document w) ≠ 0%nat → r.2 = w).
Proof.
  intros textarea reviewData w Hin r. subst r.
  unfold Modal.addGenerateButton.
  pose proof (getElementById_button (Modal.document w)) as Hbtn.
  destruct (Dom.getElementById "reviewllama-generate-btn" (Modal.document w))
    as [b|] eqn:Hb.
  - simpl. split; [done|]. split; [|done].
    intros H0. exfalso. apply (proj1 Hbtn); [by eexists|done].
  - assert (buttonCount (Modal.document w) = 0%nat) as H0.
    { destruct (decide (buttonCount (Modal.document w) = 0%nat)); [done|].
      by destruct (proj2 Hbtn). }
    pose proof (elements_nodeAt _ _ _ Hin) as Hnode.
    assert (path textarea ≠ []) as Hne.
    { intros Hp. rewrite Hp in Hnode. done. }
    destruct (nodeAt_snoc _ _ _ Hne Hnode) as [ch Hch].
    fold (Modal.parentPath textarea) in Hch.
    assert (Hcount : ∀ P : ElemInfo → bool,
              countForest P
                (Dom.appendChild (Modal.parentPath textarea) Modal.buttonContainer
                   (Modal.document w))
              = (countForest P (Modal.document w)
                 + countNode P Modal.buttonContainer)%nat).
    { intros P. unfold Dom.appendChild.
      apply (countForest_atForest P _ _ (Modal.parentPath textarea)) with ch;
        [|done].
      intros ch0. rewrite countForest_app. simpl. lia. }
    assert (buttonCount
              (Dom.appendChild (Modal.parentPath textarea) Modal.buttonContainer
                 (Modal.document w)) = 1%nat) as H1.
    { rewrite buttonCount_countForest, Hcount, <- buttonCount_countForest, H0.
      reflexivity. }
    pose proof (getElementById_button
                  (Dom.appendChild (Modal.parentPath textarea)
                     Modal.buttonContainer (Modal.document w))) as Hbtn'.
    destruct (Dom.getElementById "reviewllama-generate-btn"
                (Dom.appendChild _ _ _)) as [b|] eqn:Hb'.
    + simpl. split; [done|]. split; [|done].
      intros _. split; [done|]. split; [done|].
      rewrite !containers_count, Hcount. simpl. lia.
    + exfalso. destruct (proj2 Hbtn') as [? ?]; [lia|done].
Qed.

Lemma addGenerateButton_binds_once_witness :
  buttonCount
    (Modal.document (Modal.addGenerateButton activeDiv 0 (modalPage pageWithModal)).2)
  = 1%nat
  ∧ Modal.addGenerateButton activeDiv 1
      (Modal.addGenerateButton activeDiv 0 (modalPage pageWithModal)).2
    = (Normal (), (Modal.addGenerateButton activeDiv 0 (modalPage pageWithModal)).2).
Proof.
  destruct (addGenerateButton_binds_once activeDiv 0 (modalPage pageWithModal))
    as (_ & H & _).
  { vm_compute. do 3 right. left. }
  destruct H as (H1 & _); [reflexivity|].
  split; [exact H1|reflexivity].
Defined.

(** ** [insertTextIntoModal] *)

Lemma typedChunks_app (ds1 ds2 : list Modal.Did) :
  typedChunks (ds1 ++ ds2) = typedChunks ds1 ++ typedChunks ds2.
Proof. apply omap_app. Qed.

Lemma typedChunks_fruitless (ds : list Modal.Did) :
  Forall fruitless ds → typedChunks ds = [].
Proof.
  induction 1 as [|d ds (_ & Hd & _) _ IH]; [done|].
  change (d :: ds) with ([d] ++ ds).
  rewrite typedChunks_app, IH, app_nil_r. by destruct d.
Qed.

Lemma typedChunks_insertText (l : list jsstring) :
  typedChunks (Modal.ExecCommand "insertText" <$> l) = l.
Proof.
  induction l as [|x l IH]; [done|].
  rewrite fmap_cons.
  match goal with
  | |- typedChunks (?d :: ?ds) = _ => change (d :: ds) with ([d] ++ ds)
  end.
  by rewrite typedChunks_app, IH.
Qed.

(** X23. Text goes into an editable element one code point at a time:
    the [insertText] commands of a call carry the code points of the
    text in order, each one code unit or a high surrogate with the low
    surrogate after it, no such pair is split, and together they spell
    the text. An element without the attribute gets the text through
    [value] instead. *)
Theorem insertTextIntoModal_types_code_points :
  ∀ (element : DomElement) (text : jsstring) (w : Modal.Page),
    let ds := newlyDid w (Modal.insertTextIntoModal element text w) in
    (is_Some (Dom.getAttribute (str "contenteditable") (info element)) →
     typedChunks ds = Modal.codePoints text)
    ∧ (Dom.getAttribute (str "contenteditable") (info element) = None →
       ds = [Modal.SetValue element text; Modal.Dispatch element "input";
             Modal.Dispatch element "change"])
    ∧ mjoin (Modal.codePoints text) = text
    ∧ Forall (λ ch, (∃ c, ch = [c])
                    ∨ (∃ c d, ch = [c; d] ∧ Js.isHighSurrogate c = true
                              ∧ Js.isLowSurrogate d = true))
        (Modal.codePoints text)
    ∧ (∀ pre c d post,
         Modal.codePoints text = pre ++ [c] :: [d] :: post →
         Js.isHighSurrogate c && Js.isLowSurrogate d = false).
Proof.
  intros element text w ds. subst ds.
  split; [|split; [|split; [|split]]].
  - intros Hce. unfold Modal.insertTextIntoModal, newlyDid.
    rewrite bool_decide_eq_true_2 by done.
    destruct (onClick_cases element (Modal.does [Modal.ClickOn element] w))
      as (ds & Hds & [->|(rec & _ & ->)]); cbn [Modal.did Modal.does];
      rewrite <- !app_assoc, drop_app_length;
      rewrite !typedChunks_app, (typedChunks_fruitless ds Hds),
        typedChunks_insertText; simpl; by rewrite app_nil_r.
  - intros Hno. unfold Modal.insertTextIntoModal, newlyDid.
    rewrite Hno. simpl. by rewrite drop_app_length.
  - by apply (codePoints_join (length text)).
  - by apply (codePoints_chunks (length text)).
  - intros pre c d post. by apply (codePoints_pairs (length text)).
Qed.

Lemma insertTextIntoModal_types_code_points_witness :
  typedChunks
    (newlyDid (modalPage pageWithModal)
       (Modal.insertTextIntoModal activeDiv (str "Hi " ++ [55357; 56842; 55357])
          (modalPage pageWithModal)))
  = [str "H"; str "i"; str " "; [55357; 56842]; [55357]].
Proof.
  destruct (insertTextIntoModal_types_code_points activeDiv
              (str "Hi " ++ [55357; 56842; 55357]) (modalPage pageWithModal))
    as (H & _).
  rewrite H; [reflexivity|]. by eexists.
Defined.

(** * Start-up *)

Lemma startup_step (s : Startup.Wait) (ev : Startup.Event) :
  (Startup.checking s = false → Startup.initialized (Startup.step s ev) = Startup.initialized s)
  ∧ (Startup.checking s = false → Startup.checking (Startup.step s ev) = false)
  ∧ (Startup.initialized (Startup.step s ev) ≤ S (Startup.initialized s))%nat
  ∧ (Startup.initialized (Startup.step s ev) ≠ Startup.initialized s →
     Startup.checking (Startup.step s ev) = false)
  ∧ (Startup.nothingYet ev →
     Startup.initialized (Startup.step s ev) = Startup.initialized s)
  ∧ Startup.attempts (Startup.step s ev)
    ≤ Startup.attempts s + (if Startup.isTick ev then 1 else 0)
  ∧ Startup.attempts s ≤ Startup.attempts (Startup.step s ev).
Proof.
  destruct ev as [doc|]; simpl.
  - destruct (Startup.checking s) eqn:Hc.
    + unfold Startup.check.
      destruct (bool_decide _ || bool_decide _) eqn:Hf; simpl;
        repeat split; try done; try lia.
      intros [H1 H2]. rewrite H1, H2 in Hf. done.
    + repeat split; try done; lia.
  - repeat split; try done; lia.
Qed.

Lemma startup_run (evs : list Startup.Event) :
  ∀ s : Startup.Wait,
    let s' := foldl Startup.step s evs in
    (Startup.checking s = false →
     Startup.initialized s' = Startup.initialized s
     ∧ Startup.checking s' = false)
    ∧ (Startup.initialized s' ≤ S (Startup.initialized s))%nat
    ∧ (Startup.initialized s' ≠ Startup.initialized s →
       Startup.checking s' = false)
    ∧ (Forall Startup.nothingYet evs →
       Startup.initialized s' = Startup.initialized s)
    ∧ Startup.attempts s
      ≤ Startup.attempts s'
      ≤ Startup.attempts s + Z.of_nat (length (List.filter Startup.isTick evs)).
Proof.
  induction evs as [|ev evs IH]; intros s; simpl.
  - repeat split; try done; lia.
  - destruct (startup_step s ev) as (Hi & Hc & Hle & Hne & Hno & Ha1 & Ha2).
    destruct (IH (Startup.step s ev)) as (IHc & IHle & IHne & IHno & IHa).
    split; [|split; [|split; [|split]]].
    + intros Hs. destruct (IHc (Hc Hs)) as [-> ->]. by rewrite Hi.
    + destruct (decide (Startup.initialized (Startup.step s ev)
                        = Startup.initialized s)) as [Heq|Hneq].
      * rewrite <- Heq. exact IHle.
      * destruct (IHc (Hne Hneq)) as [-> _]. exact Hle.
    + intros Hdiff.
      destruct (decide (Startup.initialized (Startup.step s ev)
                        = Startup.initialized s)) as [Heq|Hneq].
      * apply IHne. by rewrite Heq.
      * by destruct (IHc (Hne Hneq)) as [_ ->].
    + intros Hall. apply Forall_cons in Hall as [Hev Hall].
      by rewrite (IHno Hall), (Hno Hev).
    + destruct (Startup.isTick ev); simpl length; lia.
Qed.

(** X24. [waitForReviews] calls [initialize] at most once, whatever the
    page does and however the interval and the timeout fall, and once it
    has, the interval is cleared; the attempts counted never exceed the
    ticks. When no tick before the timeout finds a review container or
    [#reviews-container], the script never initializes: reviews that
    appear after the timeout are not picked up. *)
Theorem waitForReviews_initializes_once :
  ∀ (evs : list Startup.Event),
    let s := foldl Startup.step Startup.waitForReviews evs in
    (Startup.initialized s ≤ 1)%nat
    ∧ (Startup.initialized s = 1%nat → Startup.checking s = false)
    ∧ 0 ≤ Startup.attempts s ≤ Z.of_nat (length (List.filter Startup.isTick evs))
    ∧ (∀ evs1 evs2,
         evs = evs1 ++ Startup.Timeout :: evs2 →
         Forall Startup.nothingYet evs1 →
         Startup.initialized s = 0%nat).
Proof.
  intros evs s. subst s.
  destruct (startup_run evs Startup.waitForReviews)
    as (_ & Hle & Hne & _ & Ha).
  split; [exact Hle|]. split; [|split].
  - intros H1. apply Hne. rewrite H1. done.
  - simpl in Ha. lia.
  - intros evs1 evs2 -> Hall. rewrite foldl_app. simpl.
    destruct (startup_run evs1 Startup.waitForReviews) as (_ & _ & _ & H1 & _).
    destruct (startup_run evs2
                (Startup.stop (foldl Startup.step Startup.waitForReviews evs1)))
      as (H2 & _).
    destruct (H2 eq_refl) as [-> _]. simpl. by rewrite (H1 Hall).
Qed.

Lemma waitForReviews_initializes_once_witness :
  Startup.initialized (foldl Startup.step Startup.waitForReviews lateReviews)
  = 0%nat.
Proof.
  destruct (waitForReviews_initializes_once lateReviews) as (_ & _ & _ & H).
  apply (H (replicate 60 (Startup.Tick [])) [Startup.Tick reviewsPage]).
  - reflexivity.
  - apply Forall_replicate. by split.
Defined.

(** * The observer, once more *)



(** * A scan that the counter aborts *)

Lemma injectReviewCounter_throws (w : World) (e : JsError) :
  (injectReviewCounter w).1 = Throw e →
  e = NotFoundError
  ∧ document (injectReviewCounter w).2
    = match Dom.getElementById "reviewllama-counter" (document w) with
      | Some c => Dom.removeNode (path c) (document w)
      | None => document w
      end.
Proof.
  unfold injectReviewCounter.
  destruct (Dom.getElementById "reviewllama-counter" (document w)) as [c|];
    simpl.
  - destruct (Dom.docQuerySelector _ _) as [h|]; simpl; [|done].
    destruct (Dom.querySelector _ h) as [m|]; simpl; [|done].
    unfold Dom.insertBefore. destruct (path m) as [|k [|k' p]]; simpl; try done.
    + by intros [= <-].
    + by intros [= <-].
  - destruct (Dom.docQuerySelector _ _) as [h|]; simpl; [|done].
    destruct (Dom.querySelector _ h) as [m|]; simpl; [|done].
    unfold Dom.insertBefore. destruct (path m) as [|k [|k' p]]; simpl; try done.
    + by intros [= <-].
    + by intros [= <-].
Qed.

Lemma scanReviews_outcome (w : World) :
  ∃ l1 l2,
    trace (scanReviews w).2
    = trace w ++ (Log <$> l1)
      ++ [SendMessage (UPDATE_BADGE (totalReviews (state (scanReviews w).2))
                         (unansweredReviews (state (scanReviews w).2)))]
      ++ (Log <$> l2)
      ++ match (scanReviews w).1 with
         | Normal _ =>
             if 0 <? totalReviews (state (scanReviews w).2)
             then [CallAnalyzeAllReviews] else []
         | Throw _ => []
         end
    ∧ ∀ e, (scanReviews w).1 = Throw e →
           e = NotFoundError
           ∧ document (scanReviews w).2
             = match Dom.getElementById "reviewllama-counter" (document w) with
               | Some c => Dom.removeNode (path c) (document w)
               | None => document w
               end.
Proof.
  unfold scanReviews.
  match goal with
  | |- context [updateUI ?x] => set (wm := x)
  end.
  assert (∃ l1, trace wm = trace w ++ (Log <$> l1) ∧ document wm = document w)
    as (l1 & Hl1 & Hdoc).
  { subst wm.
    match goal with
    | |- context [foldl scanElement ?x ?l] =>
        destruct (foldl_scanElement_logs l x) as (Hd & logs & Hlogs)
    end.
    exists ([Info "Starting scanReviews()..."; Info "Found elements matching"]
            ++ logs ++ [Info "Found reviews (unanswered)"]).
    rewrite trace_logw, Hlogs. simpl.
    rewrite !fmap_app, <- !app_assoc. split; [done|]. exact Hd. }
  pose proof (updateUI_frame wm) as (Hs & _ & _ & _).
  assert (∃ l2, trace (updateUI wm).2
                = trace wm ++ [SendMessage (UPDATE_BADGE (totalReviews (state wm))
                                              (unansweredReviews (state wm)))]
                  ++ (Log <$> l2)) as [l2 Hl2].
  { unfold updateUI.
    match goal with
    | |- context [injectReviewCounter ?x] =>
        destruct (injectReviewCounter_logs x) as [l2 H2]
    end.
    exists l2. rewrite H2. simpl. by rewrite <- app_assoc. }
  assert (Hthrow : ∀ e, (updateUI wm).1 = Throw e →
            e = NotFoundError
            ∧ document (updateUI wm).2
              = match Dom.getElementById "reviewllama-counter" (document w) with
                | Some c => Dom.removeNode (path c) (document w)
                | None => document w
                end).
  { intros e He. unfold updateUI in *.
    apply injectReviewCounter_throws in He as [-> Hd].
    split; [done|]. rewrite Hd. cbn [document emit]. by rewrite Hdoc. }
  clearbody wm.
  destruct (updateUI wm) as [[[]|err] u]; simpl in *.
  - destruct (0 <? totalReviews (state u)) eqn:Hpos; simpl; rewrite ?Hpos;
      exists l1, l2; (split; [|done]); rewrite Hs, Hl2, Hl1;
      by rewrite <- !app_assoc, ?app_nil_r.
  - exists l1, l2. split; [|exact Hthrow].
    rewrite Hs, Hl2, Hl1. by rewrite <- !app_assoc, app_nil_r.
Qed.

(** X26. A scan fails only with the [NotFoundError] of the counter
    injection, and then it ends before the analysis is started: the
    counts are set and the badge update is sent, but
    [analyzeAllReviews] is not called, the old widget is gone and no new
    one is in the document. A scan that returns starts the analysis
    exactly when it counted a review. *)
Theorem scan_aborted_by_counter :
  ∀ (w : World),
    let w' := (scanReviews w).2 in
    (∀ e, (scanReviews w).1 = Throw e →
       e = NotFoundError
       ∧ (CallAnalyzeAllReviews ∉ added w w')
       ∧ totalReviews (state w') = Z.of_nat (length (scanned (document w)))
       ∧ document w'
         = match Dom.getElementById "reviewllama-counter" (document w) with
           | Some c => Dom.removeNode (path c) (document w)
           | None => document w
           end)
    ∧ ((scanReviews w).1 = Normal () →
       (CallAnalyzeAllReviews ∈ added w w' ↔ scanned (document w) ≠ [])).
Proof.
  intros w w'. subst w'.
  assert (Htot : totalReviews (state (scanReviews w).2)
                 = Z.of_nat (length (scanned (document w)))).
  { rewrite scanReviews_state.
    by destruct (foldl_scanState_counts
                   (Dom.docQuerySelectorAll CONFIG.SELECTORS.reviewContainer
                      (document w))
                   (mkState ∅ 0 0 (isProcessing (state w)))) as (-> & _). }
  destruct (scanReviews_outcome w) as (l1 & l2 & Htr & Hthrow).
  assert (Hlogs : ∀ l : list LogEntry, CallAnalyzeAllReviews ∉ Log <$> l).
  { intros l Hin. by apply list_elem_of_fmap in Hin as (? & ? & ?). }
  split.
  - intros e He. destruct (Hthrow e He) as [-> Hd].
    split; [done|]. split; [|split; [done|done]].
    unfold added. rewrite Htr, He, drop_app_length, app_nil_r.
    rewrite !elem_of_app, list_elem_of_singleton.
    intros [Hin|[Hin|Hin]]; [by apply Hlogs in Hin|done|by apply Hlogs in Hin].
  - intros Hok. unfold added. rewrite Htr, Hok, drop_app_length, Htot.
    rewrite !elem_of_app, list_elem_of_singleton.
    destruct (scanned (document w)) as [|r l] eqn:Hsc; simpl.
    + split; [|done].
      intros [Hin|[Hin|[Hin|Hin]]];
        [by apply Hlogs in Hin|done|by apply Hlogs in Hin
        |by apply elem_of_nil in Hin].
    + split; [done|]. intros _. right. right. right. by left.
Qed.

Lemma scan_aborted_by_counter_witness :
  (scanReviews (worldOf (pageWithNestedMenu ++ [nodeOf bobReview]) 0 0)).1
  = Throw NotFoundError
  ∧ (CallAnalyzeAllReviews
     ∉ added (worldOf (pageWithNestedMenu ++ [nodeOf bobReview]) 0 0)
         (scanReviews (worldOf (pageWithNestedMenu ++ [nodeOf bobReview]) 0 0)).2)
  ∧ totalReviews
      (state (scanReviews (worldOf (pageWithNestedMenu ++ [nodeOf bobReview]) 0 0)).2)
    = 1.
Proof.
  split; [reflexivity|].
  destruct (scan_aborted_by_counter
              (worldOf (pageWithNestedMenu ++ [nodeOf bobReview]) 0 0))
    as [H _].
  destruct (H NotFoundError eq_refl) as (_ & Hno & _).
  split; [exact Hno|reflexivity].
Defined.

(** * The analysis cache, round trip *)








